(** * Harvest and daily-totals synchronisation: a shallow embedding

    The repository holds two scripts with the same shape.  [main.py] pulls
    harvest records from a REST API and merges them into the [harvests]
    table; [get_tvn.py] pulls daily totals from a hosted table and merges
    them into [tracefruit_harvest].  Both run one MERGE statement per row
    inside a single transaction and commit at the end.

    Conventions of the embedding:
    - a JSON object is a [gmap string value]; a JSON array is a list;
    - a destination table is a list of rows (a SQL table is a bag, the list
      order only fixes an enumeration);
    - Python exceptions are values of [exn], raised through [result];
    - everything the scripts do to the outside (statements, commits, log
      records, notifier calls, mail deliveries) is appended to a trace;
      console output leaves no event.  The functions whose name ends in
      [_out] have every [print] in place, and a [print] can fail; the
      functions without the suffix are the same functions on a console
      that takes every line.  The progress lines of the row loop are also
      given by a function of their own.

    The file has the definitions first (values, the MERGE statement,
    [strptime], the transaction, the two scripts, example inputs), then
    their properties, then the claims about the scripts and further
    properties of the two scripts. *)

From Stdlib Require Import ZArith String Ascii List Lia Bool.
From stdpp Require Import base option list gmap strings pretty.
Import ListNotations.

Local Open Scope string_scope.
Local Open Scope list_scope.
Local Open Scope Z_scope.

(** ** Python and SQL values *)

(** A scalar as it comes out of [response.json()] and as pyodbc binds it:
    [None] becomes SQL NULL.  Fractional numbers are not modelled; no
    function of the scripts computes with the numeric payload. *)
Inductive value : Type :=
  | VNone
  | VNum (n : Z)
  | VStr (s : string).

#[global] Instance value_eq_dec : EqDecision value.
Proof. solve_decision. Defined.

(** SQL's [=] inside the ON clause: a comparison with NULL is never true.
    Values are compared as stored, without implicit conversion or
    collation. *)
Definition sql_eq (a b : value) : bool :=
  match a, b with
  | VNone, _ | _, VNone => false
  | _, _ => bool_decide (a = b)
  end.

(** ** The MERGE statement

    Both scripts issue the same statement shape:
<<
    MERGE <table> AS target USING (SELECT ...) AS source
    ON target.<key> = source.<key>
    WHEN MATCHED THEN UPDATE SET <non-key columns>
    WHEN NOT MATCHED THEN INSERT (...) VALUES (...);
>>
    A table with its statement is an instance of [MergeTable]:
    [source_key] and [target_key] are the two sides of the ON clause,
    [update_set now p r] is the UPDATE SET branch and [insert_values now p]
    the INSERT branch, [now] being GETDATE().  [erase] is not part of the
    statement: it forgets the columns the server fills in by itself, so
    that rows can be compared on the columns the script supplies. *)
Class MergeTable (Params Row : Type) : Type := {
  source_key : Params → value;
  target_key : Row → value;
  update_set : Z → Params → Row → Row;
  insert_values : Z → Params → Row;
  erase : Row → Row
}.

Definition on_match {Params Row : Type} `{!MergeTable Params Row} (p : Params) (r : Row) : bool :=
  sql_eq (target_key r) (source_key p).

Definition merge {Params Row : Type} `{!MergeTable Params Row} (now : Z) (p : Params) (T : list Row) : list Row :=
  if existsb (on_match p) T
  then map (λ r, if on_match p r then update_set now p r else r) T
  else T ++ [insert_values now p].

(** A batch of statements, each with the server time at which it ran. *)
Fixpoint merge_all {Params Row : Type} `{!MergeTable Params Row} (stmts : list (Z * Params)) (T : list Row)
  : list Row :=
  match stmts with
  | [] => T
  | (now, p) :: rest => merge_all rest (merge now p T)
  end.

(** At most one row per natural key that is not null: SQL equality never
    holds for a null, so rows with a null key do not count as duplicates. *)
Definition unique_keys {Params Row : Type} `{!MergeTable Params Row} (T : list Row) : Prop :=
  ∀ i j r1 r2, T !! i = Some r1 → T !! j = Some r2 →
    sql_eq (target_key r1) (target_key r2) = true → i = j.

(** What a statement leaves in a row it writes, server columns apart. *)
Definition written {Params Row : Type} `{!MergeTable Params Row} (p : Params) : Row :=
  erase (insert_values 0 p).

Definition overwrite {Params Row : Type} `{!MergeTable Params Row} (x : Row) (p : Params) : Row :=
  if on_match p x then written p else x.

Definition overwrite_all {Params Row : Type} `{!MergeTable Params Row} (B : list Params) (x : Row) : Row :=
  fold_left overwrite B x.

(** What the proofs need of a table: the key of a row is never rewritten,
    an inserted row carries the key it was looked up with, and, server
    columns apart, both branches write the same content. *)
Class MergeLaws {Params Row : Type} (MT : MergeTable Params Row) : Prop := {
  update_set_key : ∀ t p r, target_key (update_set t p r) = target_key r;
  insert_values_key : ∀ t p, target_key (insert_values t p) = source_key p;
  erase_key : ∀ r, target_key (erase r) = target_key r;
  erase_insert : ∀ t t' p, erase (insert_values t p) = erase (insert_values t' p);
  erase_update : ∀ t p r,
    on_match p r = true → erase (update_set t p r) = erase (insert_values t p)
}.

(** ** Exceptions

    The subclasses of [Exception] the two scripts can meet.  The text
    carried is what [str(e)] yields. *)
Inductive exn : Type :=
  | KeyError (key : string)
  | ValueError (msg : string)
  | TypeError (msg : string)
  | RequestException (msg : string)
  | DatabaseError (msg : string)
  | SMTPException (msg : string).

Definition str_exn (e : exn) : string :=
  match e with
  | KeyError k => "'" +:+ k +:+ "'"
  | ValueError m | TypeError m | RequestException m
  | DatabaseError m | SMTPException m => m
  end.

Inductive result (A : Type) : Type :=
  | Ok (a : A)
  | Raise (e : exn).
Arguments Ok {A} a.
Arguments Raise {A} e.

Definition is_ok {A} (r : result A) : bool :=
  match r with Ok _ => true | Raise _ => false end.

#[global] Instance result_ret : MRet result := λ A a, Ok a.
#[global] Instance result_bind : MBind result := λ A B k r,
  match r with
  | Ok a => k a
  | Raise e => Raise e
  end.

(** ** [datetime.strptime] and [strftime]

    [_strptime] turns the format into a regular expression, matches it at
    the start of the text with the usual backtracking, insists that the
    match ends at the end of the text, converts the groups with [int] and
    builds a [datetime], whose constructor checks the ranges.  The model
    covers the directives the scripts use, on ASCII text. *)

Record datetime : Type := mk_datetime {
  year : Z; month : Z; day : Z; hour : Z; minute : Z; second : Z
}.

#[global] Instance datetime_eq_dec : EqDecision datetime.
Proof. solve_decision. Defined.

Definition is_leap (y : Z) : bool :=
  ((y mod 4 =? 0) && negb (y mod 100 =? 0)) || (y mod 400 =? 0).

Definition days_in_month (y m : Z) : Z :=
  if m =? 2 then (if is_leap y then 29 else 28)
  else if (m =? 4) || (m =? 6) || (m =? 9) || (m =? 11) then 30
  else 31.

(** The checks of the [datetime] constructor (MINYEAR = 1, MAXYEAR = 9999). *)
Definition valid_datetime (d : datetime) : bool :=
  (1 <=? year d) && (year d <=? 9999) &&
  (1 <=? month d) && (month d <=? 12) &&
  (1 <=? day d) && (day d <=? days_in_month (year d) (month d)) &&
  (0 <=? hour d) && (hour d <=? 23) &&
  (0 <=? minute d) && (minute d <=? 59) &&
  (0 <=? second d) && (second d <=? 59).

Definition code (c : ascii) : Z := Z.of_nat (nat_of_ascii c).

Definition is_digit (c : ascii) : bool := (48 <=? code c) && (code c <=? 57).

(** [\s] on ASCII: tab, LF, VT, FF, CR, the four separators FS to US, space. *)
Definition is_space (c : ascii) : bool :=
  ((9 <=? code c) && (code c <=? 13)) || ((28 <=? code c) && (code c <=? 32)).

Inductive cclass : Type :=
  | CDigit                      (* \d *)
  | CRange (lo hi : ascii)      (* [lo-hi] *)
  | CChar (c : ascii).

Definition in_class (k : cclass) (c : ascii) : bool :=
  match k with
  | CDigit => is_digit c
  | CRange lo hi => (code lo <=? code c) && (code c <=? code hi)
  | CChar x => Ascii.eqb x c
  end.

(** One alternative of a directive is a sequence of character classes. *)
Fixpoint match_classes (ks : list cclass) (s : string) : option (string * string) :=
  match ks with
  | [] => Some (EmptyString, s)
  | k :: ks' =>
      match s with
      | String c rest =>
          if in_class k c
          then match match_classes ks' rest with
               | Some (cap, rest') => Some (String c cap, rest')
               | None => None
               end
          else None
      | EmptyString => None
      end
  end.

(** The alternatives that match, in the order the regex engine tries them. *)
Definition alternatives (alts : list (list cclass)) (s : string) : list (string * string) :=
  omap (λ ks, match_classes ks s) alts.

(** The table of [TimeRE] for the directives in use. *)
Definition directive (name : ascii) : option (list (list cclass)) :=
  if Ascii.eqb name "Y" then Some [[CDigit; CDigit; CDigit; CDigit]]
  else if Ascii.eqb name "m" then
    Some [[CChar "1"; CRange "0" "2"]; [CChar "0"; CRange "1" "9"]; [CRange "1" "9"]]
  else if Ascii.eqb name "d" then
    Some [[CChar "3"; CRange "0" "1"]; [CRange "1" "2"; CDigit];
          [CChar "0"; CRange "1" "9"]; [CRange "1" "9"]; [CChar " "; CRange "1" "9"]]
  else if Ascii.eqb name "H" then
    Some [[CChar "2"; CRange "0" "3"]; [CRange "0" "1"; CDigit]; [CDigit]]
  else if Ascii.eqb name "M" then Some [[CRange "0" "5"; CDigit]; [CDigit]]
  else if Ascii.eqb name "S" then
    Some [[CChar "6"; CRange "0" "1"]; [CRange "0" "5"; CDigit]; [CDigit]]
  else None.

Inductive fmt_item : Type :=
  | FDir (name : ascii)     (* %x *)
  | FLit (c : ascii)
  | FSpace.                 (* a run of whitespace in the format: \s+ *)

Fixpoint compile_format (format : string) : list fmt_item :=
  match format with
  | EmptyString => []
  | String "%" (String c rest) => FDir c :: compile_format rest
  | String c rest =>
      if is_space c
      then match compile_format rest with
           | FSpace :: _ as items => items
           | items => FSpace :: items
           end
      else FLit c :: compile_format rest
  end.

(** [\s+], greedy: the remainders after the longest run first. *)
Fixpoint spaces_plus (s : string) : list string :=
  match s with
  | String c rest => if is_space c then spaces_plus rest ++ [rest] else []
  | EmptyString => []
  end.

(** All matches of the compiled format at the start of [s], best first,
    each with its groups and the unconsumed rest. *)
Fixpoint match_items (items : list fmt_item) (s : string)
  : list (list (ascii * string) * string) :=
  match items with
  | [] => [([], s)]
  | FLit c :: items' =>
      match s with
      | String c' rest => if Ascii.eqb c c' then match_items items' rest else []
      | EmptyString => []
      end
  | FSpace :: items' => flat_map (match_items items') (spaces_plus s)
  | FDir name :: items' =>
      match directive name with
      | None => []
      | Some alts =>
          flat_map (λ '(cap, rest),
                      map (λ '(caps, r), ((name, cap) :: caps, r)) (match_items items' rest))
                   (alternatives alts s)
      end
  end.

(** [int] on a group: surrounding blanks are skipped, digits accumulate. *)
Fixpoint int_digits (acc : Z) (s : string) : Z :=
  match s with
  | EmptyString => acc
  | String c rest => if is_digit c then int_digits (10 * acc + (code c - 48)) rest
                     else int_digits acc rest
  end.

Fixpoint group (name : ascii) (caps : list (ascii * string)) : option Z :=
  match caps with
  | [] => None
  | (n, text) :: caps' => if Ascii.eqb n name then Some (int_digits 0 text) else group name caps'
  end.

Definition strptime (data_string format : string) : result datetime :=
  match match_items (compile_format format) data_string with
  | [] => Raise (ValueError ("time data '" +:+ data_string +:+ "' does not match format '"
                             +:+ format +:+ "'"))
  | (caps, rest) :: _ =>
      match rest with
      | String _ _ => Raise (ValueError ("unconverted data remains: " +:+ rest))
      | EmptyString =>
          let month := default 1 (group "m" caps) in
          let day := default 1 (group "d" caps) in
          let year := default (if (month =? 2) && (day =? 29) then 1904 else 1900)
                              (group "Y" caps) in
          let d := {| year := year; month := month; day := day;
                      hour := default 0 (group "H" caps);
                      minute := default 0 (group "M" caps);
                      second := default 0 (group "S" caps) |} in
          if valid_datetime d then Ok d
          else Raise (ValueError "value out of range for datetime")
      end
  end.

Definition digit_char (d : Z) : ascii := ascii_of_nat (Z.to_nat (48 + d)).

Definition pad2 (n : Z) : string :=
  String (digit_char (n / 10)) (String (digit_char (n mod 10)) EmptyString).

Definition pad4 (n : Z) : string :=
  String (digit_char (n / 1000)) (String (digit_char (n / 100 mod 10)) (pad2 (n mod 100))).

(** [strftime]: a directive prints its field zero-padded ([%Y] on four
    digits), other characters are copied. *)
Fixpoint strftime (d : datetime) (format : string) : string :=
  match format with
  | EmptyString => EmptyString
  | String "%" (String c rest) =>
      (if Ascii.eqb c "Y" then pad4 (year d)
       else if Ascii.eqb c "m" then pad2 (month d)
       else if Ascii.eqb c "d" then pad2 (day d)
       else if Ascii.eqb c "H" then pad2 (hour d)
       else if Ascii.eqb c "M" then pad2 (minute d)
       else if Ascii.eqb c "S" then pad2 (second d)
       else String "%" (String c EmptyString)) +:+ strftime d rest
  | String c rest => String c (strftime d rest)
  end.

(** For a two-digit field in the directive's range the first alternative
    that matches takes both digits. *)
Definition takes_both (name : ascii) (n : nat) : Prop :=
  ∀ rest, ∃ alts, directive name = Some alts ∧
    head (alternatives alts (pad2 (Z.of_nat n) +:+ rest)) = Some (pad2 (Z.of_nat n), rest).

(** A time of day is a [datetime] on [strptime]'s default date. *)
Definition on_default_date (d : datetime) : Prop :=
  year d = 1900 ∧ month d = 1 ∧ day d = 1.

(** [s] is exactly what [strftime] prints in [format] for some valid
    [datetime]. *)
Definition canonical_text (format s : string) : Prop :=
  ∃ d, strptime s format = Ok d ∧ strftime d format = s.

(** ** Calendar dates *)

(** [datetime.date]; [str(d)] is the ISO form. *)
Record date : Type := mk_date { dyear : Z; dmonth : Z; dday : Z }.

Definition date_strftime (d : date) (format : string) : string :=
  strftime {| year := dyear d; month := dmonth d; day := dday d;
              hour := 0; minute := 0; second := 0 |} format.

Definition str_date (d : date) : string := date_strftime d "%Y-%m-%d".

(** [datetime.date()]: the calendar date of a [datetime]. *)
Definition datetime_date (d : datetime) : date :=
  {| dyear := year d; dmonth := month d; dday := day d |}.

(** The checks of the [date] constructor. *)
Definition valid_date (d : date) : bool :=
  (1 <=? dyear d) && (dyear d <=? 9999) &&
  (1 <=? dmonth d) && (dmonth d <=? 12) &&
  (1 <=? dday d) && (dday d <=? days_in_month (dyear d) (dmonth d)).

(** In both [main] functions:
    [datetime.strptime(arg, '%Y-%m-%d').date() if arg else None], where
    [arg] is the text of the option or [None]; an empty text is false. *)
Definition parse_date_arg (arg : option string) : result (option date) :=
  match arg with
  | Some (String _ _ as s) => d ← strptime s "%Y-%m-%d"; mret (Some (datetime_date d))
  | _ => mret None
  end.

(** The progress lines of the row loop of [insert_data] when it runs
    through: a line is printed for every row whose [index] satisfies
    [index % 10 == 0]; it shows [index / total_records * 100] and the two
    numbers, which is what a pair holds here. *)
Definition progress_lines (indices : list nat) (total_records : nat) : list (nat * nat) :=
  (λ index, (index, total_records)) <$> filter (λ index, index mod 10 = 0)%nat indices.

(** ** The world the scripts act on *)

Inductive log_level : Type := INFO | WARNING | ERROR.

(** The message [send_email_notification] builds: sender, recipient, and the
    data its subject and body are printed from. *)
Inductive mail_body : Type :=
  | SyncSucceeded (records_processed : nat)
  | SyncFailed (error_message : option string).

Record mail : Type := mk_mail {
  m_from : string;
  m_to : string;
  m_start : date;
  m_end : date;
  m_body : mail_body
}.

Section Runtime.
Context {Params Row : Type} `{!MergeTable Params Row}.

Inductive event : Type :=
  | Execute (p : Params)       (* cursor.execute issued the statement *)
  | Commit                     (* the transaction was committed *)
  | Rollback
  | CursorClose
  | Log (level : log_level) (msg : string)
  | CallNotify (success : bool) (start_date end_date : date)
               (error_message : option string) (records_processed : nat)
                               (* send_email_notification was called *)
  | Smtp (m : mail).           (* an SMTP session was opened to deliver m *)

(** [committed] is the durable table; [working] is the table as the open
    transaction of the connection sees it. *)
Record world : Type := mk_world {
  committed : list Row;
  working : list Row;
  trace : list event
}.

(** What the script cannot decide: the verdict of the store on a
    statement or a commit, the server clock, the connection attempt, the
    mail server.  A verdict may depend on everything that happened. *)
Record env : Type := mk_env {
  stmt_error : world → Params → option exn;
  getdate : world → Z;
  commit_error : world → option exn;
  connect_error : world → option exn;
  smtp_error : world → mail → option exn;
  today : date
}.

Variable E : env.

Definition M (A : Type) : Type := world → result A * world.

#[global] Instance M_ret : MRet M := λ A a w, (Ok a, w).
#[global] Instance M_bind : MBind M := λ A B k m w,
  match m w with
  | (Ok a, w') => k a w'
  | (Raise e, w') => (Raise e, w')
  end.

Definition lift {A} (r : result A) : M A := λ w, (r, w).
Definition raise {A} (e : exn) : M A := λ w, (Raise e, w).

Definition emit (ev : event) : M unit := λ w,
  (Ok (), {| committed := committed w; working := working w;
             trace := trace w ++ [ev] |}).

(** try: body / except Exception as e: handler e *)
Definition try_except {A} (body : M A) (handler : exn → M A) : M A := λ w,
  match body w with
  | (Ok a, w') => (Ok a, w')
  | (Raise e, w') => handler e w'
  end.

(** try: body / finally: fin *)
Definition try_finally {A} (body : M A) (fin : M unit) : M A := λ w,
  match body w with
  | (r, w') =>
      match fin w' with
      | (Ok _, w'') => (r, w'')
      | (Raise e, w'') => (Raise e, w'')
      end
  end.

Fixpoint for_each {X} (xs : list X) (body : X → M unit) : M unit :=
  match xs with
  | [] => mret ()
  | x :: xs' => body x ≫= λ _, for_each xs' body
  end.

Definition logging (level : log_level) (msg : string) : M unit :=
  emit (Log level msg).

(** [cursor.execute(sql, params)]: the statement reaches the store; when
    the store accepts it the open transaction sees its effect. *)
Definition cursor_execute (p : Params) : M unit := λ w,
  let w' := {| committed := committed w; working := working w;
               trace := trace w ++ [Execute p] |} in
  match stmt_error E w p with
  | Some e => (Raise e, w')
  | None => (Ok (), {| committed := committed w;
                       working := merge (getdate E w) p (working w);
                       trace := trace w ++ [Execute p] |})
  end.

Definition conn_commit : M unit := λ w,
  match commit_error E w with
  | Some e => (Raise e, w)
  | None => (Ok (), {| committed := working w; working := working w;
                       trace := trace w ++ [Commit] |})
  end.

Definition conn_rollback : M unit := λ w,
  (Ok (), {| committed := committed w; working := committed w;
             trace := trace w ++ [Rollback] |}).

Definition cursor_close : M unit := emit CursorClose.

(** [get_database_connection]: a new connection has no open changes. *)
Definition get_database_connection : M unit :=
  try_except
    (λ w, match connect_error E w with
          | Some e => (Raise e, w)
          | None => (Ok (), {| committed := committed w; working := committed w;
                               trace := trace w |})
          end)
    (λ e, logging ERROR ("Database connection error: " +:+ str_exn e);; raise e).

(** [with get_database_connection() as conn: body]; leaving the block
    commits when the body returned and rolls back when it raised. *)
Definition with_connection {A} (body : M A) : M A :=
  get_database_connection ≫= λ _ : (),
    ((λ w, match body w with
           | (Ok a, w') => (conn_commit;; mret a) w'
           | (Raise e, w') => (conn_rollback;; raise e) w'
           end) : M A).

(** The transaction both [insert_data] functions run: bind the
    parameters of a row, execute, next row; commit after the last row;
    on any exception roll back, log and raise again; close the cursor. *)
Definition transact {X} (bind_row : X → result Params) (data : list X) : M unit :=
  let total_records := length data in
  try_finally
    (try_except
       (for_each data (λ x, lift (bind_row x) ≫= cursor_execute);;
        conn_commit;;
        logging INFO ("Successfully processed " +:+ pretty total_records +:+ " records"))
       (λ e, conn_rollback;;
             logging ERROR ("Data insertion error: " +:+ str_exn e);;
             raise e))
    cursor_close.

(** *** The loop, row by row *)

(** The statement was issued and refused. *)
Definition issue (w : world) (p : Params) : world :=
  {| committed := committed w; working := working w; trace := trace w ++ [Execute p] |}.

(** The statement was issued and accepted. *)
Definition apply_stmt (w : world) (p : Params) : world :=
  {| committed := committed w;
     working := merge (getdate E w) p (working w);
     trace := trace w ++ [Execute p] |}.

Section Loop.
Context {X : Type} (bind_row : X → result Params).

(** [accepted w xs stmts w']: starting in [w], every row of [xs] binds
    and the store accepts its statement; [stmts] are the statements
    with the times at which they ran, [w'] is the world after them. *)
Inductive accepted : world → list X → list (Z * Params) → world → Prop :=
  | accepted_nil w : accepted w [] [] w
  | accepted_cons w x p xs stmts w' :
      bind_row x = Ok p → stmt_error E w p = None →
      accepted (apply_stmt w p) xs stmts w' →
      accepted w (x :: xs) ((getdate E w, p) :: stmts) w'.

(** Row [x] fails in world [w]: its parameters do not bind, or the
    store refuses its statement. *)
Inductive row_fails (w : world) (x : X) : exn → world → Prop :=
  | fails_mapping e : bind_row x = Raise e → row_fails w x e w
  | fails_write p e :
      bind_row x = Ok p → stmt_error E w p = Some e → row_fails w x e (issue w p).

Definition loop (data : list X) : M unit :=
  for_each data (λ x, lift (bind_row x) ≫= cursor_execute).

(** The state in which repeated runs of one batch stay: nothing is
    pending, and the table is what a run of the batch leaves. *)
Definition settled (data : list X) (v : world) : Prop :=
  working v = committed v ∧
  ∃ stmts T0, Forall2 (λ x p, bind_row x = Ok p) data stmts.*2 ∧
              committed v = merge_all stmts T0.

End Loop.

(** The events after a committed batch, and after a failed one. *)
Definition ok_tail (n : nat) : list event :=
  [Commit; Log INFO ("Successfully processed " +:+ pretty n +:+ " records"); CursorClose].

Definition error_tail (e : exn) : list event :=
  [Rollback; Log ERROR ("Data insertion error: " +:+ str_exn e); CursorClose].

(** The statements issued, the notifier calls and the mail sessions of a
    trace. *)
Definition statements_issued (t : list event) : list Params :=
  omap (λ ev, match ev with Execute p => Some p | _ => None end) t.

Definition notify_calls (t : list event) : list event :=
  omap (λ ev, match ev with CallNotify _ _ _ _ _ => Some ev | _ => None end) t.

Definition smtp_sessions (t : list event) : list mail :=
  omap (λ ev, match ev with Smtp m => Some m | _ => None end) t.

(** A computation that neither calls the notifier nor opens a mail
    session. *)
Definition quiet {A} (m : M A) : Prop :=
  ∀ w, notify_calls (trace (m w).2) = notify_calls (trace w) ∧
       smtp_sessions (trace (m w).2) = smtp_sessions (trace w).

End Runtime.

Arguments event : clear implicits.
Arguments world : clear implicits.
Arguments env : clear implicits.
Arguments M : clear implicits.

(** The world [w] after the events [evs], the tables as they were. *)
Definition with_events {Params Row : Type} (w : world Params Row)
    (evs : list (event Params)) : world Params Row :=
  {| committed := committed w; working := working w; trace := trace w ++ evs |}.

(** The connection as [get_database_connection] returns it: no change is
    pending. *)
Definition fresh {Params Row : Type} (w : world Params Row) : world Params Row :=
  {| committed := committed w; working := committed w; trace := trace w |}.

(** [print(...)]: the line goes to standard output, which can refuse it
    (a closed stream, a character the console cannot encode); the
    exception then leaves [print] like any other.  [out] says, for the
    world as it is and the line, whether the write fails; a line that is
    written leaves no event. *)
Definition print {Params Row Line : Type} (out : world Params Row → Line → option exn)
    (line : Line) : M Params Row unit := λ w,
  match out w line with
  | Some e => (Raise e, w)
  | None => (Ok (), w)
  end.

(** *** Worlds and stores for examples *)

Definition empty_world {Params Row : Type} : world Params Row :=
  {| committed := []; working := []; trace := [] |}.

(** A store that accepts everything; its clock is given. *)
Definition obliging {Params Row : Type} (clock : world Params Row → Z) : env Params Row :=
  {| stmt_error := λ _ _, None;
     getdate := clock;
     commit_error := λ _, None;
     connect_error := λ _, None;
     smtp_error := λ _ _, None;
     today := {| dyear := 2024; dmonth := 6; dday := 1 |} |}.

(** A clock that advances with every event. *)
Definition ticking {Params Row : Type} (w : world Params Row) : Z :=
  Z.of_nat (length (trace w)).

(** ** [main.py]: harvest records *)

Module Harvest.

(** The twelve values bound to the statement, in the order of the
    placeholders. *)
Record params : Type := mk_params {
  p_id : value; p_farm : value; p_plot : value; p_produce : value;
  p_worker : value; p_unit : value;
  p_harvest_date : string; p_start_time : string; p_end_time : string;
  p_duration : value; p_containers : value; p_kgs_harvested : value
}.

(** A row of [harvests]. *)
Record row : Type := mk_row {
  r_id : value; r_farm : value; r_plot : value; r_produce : value;
  r_worker : value; r_unit : value;
  r_harvest_date : value; r_start_time : value; r_end_time : value;
  r_duration : value; r_containers : value; r_kgs_harvested : value;
  r_insert_date : Z
}.

(** WHEN MATCHED THEN UPDATE SET ..., insert_date = GETDATE() *)
Definition when_matched (now : Z) (p : params) (r : row) : row :=
  {| r_id := r_id r;
     r_farm := p_farm p; r_plot := p_plot p; r_produce := p_produce p;
     r_worker := p_worker p; r_unit := p_unit p;
     r_harvest_date := VStr (p_harvest_date p);
     r_start_time := VStr (p_start_time p);
     r_end_time := VStr (p_end_time p);
     r_duration := p_duration p; r_containers := p_containers p;
     r_kgs_harvested := p_kgs_harvested p;
     r_insert_date := now |}.

(** WHEN NOT MATCHED THEN INSERT (...) VALUES (..., GETDATE()) *)
Definition when_not_matched (now : Z) (p : params) : row :=
  {| r_id := p_id p;
     r_farm := p_farm p; r_plot := p_plot p; r_produce := p_produce p;
     r_worker := p_worker p; r_unit := p_unit p;
     r_harvest_date := VStr (p_harvest_date p);
     r_start_time := VStr (p_start_time p);
     r_end_time := VStr (p_end_time p);
     r_duration := p_duration p; r_containers := p_containers p;
     r_kgs_harvested := p_kgs_harvested p;
     r_insert_date := now |}.

(** A row without its server-assigned [insert_date]. *)
Definition without_insert_date (r : row) : row :=
  {| r_id := r_id r;
     r_farm := r_farm r; r_plot := r_plot r; r_produce := r_produce r;
     r_worker := r_worker r; r_unit := r_unit r;
     r_harvest_date := r_harvest_date r; r_start_time := r_start_time r;
     r_end_time := r_end_time r;
     r_duration := r_duration r; r_containers := r_containers r;
     r_kgs_harvested := r_kgs_harvested r;
     r_insert_date := 0 |}.

(** MERGE harvests AS target ... ON target.id = source.id *)
#[global] Instance harvests : MergeTable params row := {|
  source_key := p_id;
  target_key := r_id;
  update_set := when_matched;
  insert_values := when_not_matched;
  erase := without_insert_date
|}.

(** [record[key]] *)
Definition getitem (record : gmap string value) (key : string) : result value :=
  match record !! key with
  | Some v => Ok v
  | None => Raise (KeyError key)
  end.

(** [datetime.strptime(v, format)] on an arbitrary value. *)
Definition strptime_value (v : value) (format : string) : result datetime :=
  match v with
  | VStr s => strptime s format
  | _ => Raise (TypeError "strptime() argument 1 must be str")
  end.

(** Lines 127 to 144: the three conversions, then the argument tuple. *)
Definition bind_params (record : gmap string value) : result params :=
  v ← getitem record "harvest_date";
  d ← strptime_value v "%Y-%m-%d %H:%M:%S";
  let harvest_date := strftime d "%Y-%m-%d %H:%M:%S" in
  v ← getitem record "start_time";
  d ← strptime_value v "%H:%M";
  let start_time := strftime d "%H:%M:%S" in
  v ← getitem record "end_time";
  d ← strptime_value v "%H:%M";
  let end_time := strftime d "%H:%M:%S" in
  id ← getitem record "id";
  farm ← getitem record "farm";
  plot ← getitem record "plot";
  produce ← getitem record "produce";
  worker ← getitem record "worker";
  unit ← getitem record "unit";
  duration ← getitem record "duration";
  containers ← getitem record "containers";
  kgs_harvested ← getitem record "kgs_harvested";
  mret {| p_id := id; p_farm := farm; p_plot := plot; p_produce := produce;
          p_worker := worker; p_unit := unit;
          p_harvest_date := harvest_date; p_start_time := start_time;
          p_end_time := end_time;
          p_duration := duration; p_containers := containers;
          p_kgs_harvested := kgs_harvested |}.

(** [insert_data(conn, data)]; the progress lines are console output. *)
Definition insert_data (E : env params row) (data : list (gmap string value))
  : M params row unit :=
  let total_records := length data in
  try_finally
    (try_except
       (for_each data (λ record,
          lift (bind_params record) ≫= cursor_execute E);;
        conn_commit E;;
        logging INFO ("Successfully processed " +:+ pretty total_records +:+ " records"))
       (λ e, conn_rollback;;
             logging ERROR ("Data insertion error: " +:+ str_exn e);;
             raise e))
    cursor_close.

(** The HTTP exchange of [fetch_api_data]: [requests.get] with the two
    date strings, [raise_for_status], [response.json()].  Its outcome is
    given from outside. *)
Definition api : Type := string → string → result (list (gmap string value)).

Definition fetch_api_data (get : api) (start_date end_date : date)
  : M params row (list (gmap string value)) :=
  try_except
    (lift (get (date_strftime start_date "%Y-%m-%d") (date_strftime end_date "%Y-%m-%d")))
    (λ e, logging ERROR ("API fetch error: " +:+ str_exn e);; raise e).

(** The three settings read with [os.getenv]; [None] when unset. *)
Record email_config : Type := mk_email_config {
  EMAIL_SENDER : option string;
  EMAIL_PASSWORD : option string;
  EMAIL_RECIPIENT : option string
}.

(** Truth value of an optional string: [None] and the empty string are
    false. *)
Definition truthy (o : option string) : bool :=
  match o with
  | Some (String _ _) => true
  | _ => false
  end.

(** [send_email_notification]; the first event marks the call itself, the
    [Smtp] event the [with smtplib.SMTP(...)] block. *)
Definition send_email_notification (E : env params row) (cfg : email_config)
    (success : bool) (start_date end_date : date)
    (error_message : option string) (records_processed : nat)
  : M params row unit :=
  emit (CallNotify success start_date end_date error_message records_processed);;
  if negb (forallb truthy [EMAIL_SENDER cfg; EMAIL_PASSWORD cfg; EMAIL_RECIPIENT cfg])
  then logging WARNING "Email configuration missing. Skipping email notification."
  else
    try_except
      (let msg := {| m_from := default EmptyString (EMAIL_SENDER cfg);
                     m_to := default EmptyString (EMAIL_RECIPIENT cfg);
                     m_start := start_date; m_end := end_date;
                     m_body := if success then SyncSucceeded records_processed
                               else SyncFailed error_message |} in
       (λ w, match smtp_error E w msg with
             | Some e => (emit (Smtp msg);; raise e) w
             | None => emit (Smtp msg) w
             end);;
       logging INFO "Email notification sent successfully")
      (λ e, logging ERROR ("Failed to send email notification: " +:+ str_exn e)).

(** [sync_data]; the local [records_processed] is threaded by hand, since
    the handler reads the value it had when the exception was raised. *)
Definition sync_data (E : env params row) (get : api) (cfg : email_config)
    (start_date end_date : option date) : M params row unit := λ w,
  let records_processed := 0%nat in
  let start_date := default (today E) start_date in
  let end_date := default (today E) end_date in
  let '(r, w, records_processed) :=
    match fetch_api_data get start_date end_date w with
    | (Raise e, w) => (Raise e, w, records_processed)
    | (Ok data, w) =>
        let records_processed := length data in
        let '(r, w) :=
          (with_connection E (insert_data E data);;
           logging INFO ("Data sync completed successfully for period "
                         +:+ str_date start_date +:+ " to " +:+ str_date end_date);;
           send_email_notification E cfg true start_date end_date None
                                   records_processed) w in
        (r, w, records_processed)
    end in
  match r with
  | Ok _ => (Ok (), w)
  | Raise e =>
      let error_message := str_exn e in
      (logging ERROR ("Data sync failed: " +:+ error_message);;
       send_email_notification E cfg false start_date end_date
                               (Some error_message) records_processed) w
  end.

(** Lines 90 to 93: [enumerate(data, 1)] counts the records from one. *)
Definition progress (data : list (gmap string value)) : list (nat * nat) :=
  progress_lines (seq 1 (length data)) (length data).

(** [main]: [start_arg] and [end_arg] are [args.start_date] and
    [args.end_date] as argparse leaves them. *)
Definition main (E : env params row) (get : api) (cfg : email_config)
    (start_arg end_arg : option string) : M params row unit :=
  try_except
    (start_date ← lift (parse_date_arg start_arg);
     end_date ← lift (parse_date_arg end_arg);
     sync_data E get cfg start_date end_date)
    (λ e, match e with
          | ValueError _ =>
              logging ERROR ("Invalid date format. Please use YYYY-MM-DD. Error: "
                             +:+ str_exn e)
          | _ => logging ERROR ("Error in main: " +:+ str_exn e)
          end).

(** *** The same functions with their console output

    The definitions above leave the [print] calls out.  Here they are in
    place.  A line is given by the data its text is printed from. *)
Inductive line : Type :=
  | FetchingData (start_date end_date : date)   (* line 60 *)
  | FetchedRecords (n : nat)                    (* line 77, begins with a check mark *)
  | FetchError (error : string)                 (* line 81, begins with a cross *)
  | ProcessingRecords (total_records : nat)     (* line 89 *)
  | Progress (index total_records : nat)        (* line 93 *)
  | CommittingChanges                           (* line 146 *)
  | UpdateCompleted                             (* line 148, check mark *)
  | StartingSync                                (* line 211 *)
  | DateRange (start_date end_date : date)      (* line 212 *)
  | ConnectingToDatabase                        (* line 219 *)
  | ConnectionEstablished                       (* line 221, check mark *)
  | SyncCompleted                               (* line 225 *)
  | SyncError (error_message : string)          (* line 237, cross *)
  | InvalidDateFormat.                          (* line 264 *)

Definition console : Type := world params row → line → option exn.

Definition fetch_api_data_out (out : console) (get : api) (start_date end_date : date)
  : M params row (list (gmap string value)) :=
  try_except
    (print out (FetchingData start_date end_date);;
     data ← lift (get (date_strftime start_date "%Y-%m-%d")
                      (date_strftime end_date "%Y-%m-%d"));
     print out (FetchedRecords (length data));;
     mret data)
    (λ e, logging ERROR ("API fetch error: " +:+ str_exn e);;
          print out (FetchError (str_exn e));;
          raise e).

(** [enumerate(data, 1)] numbers the records from one. *)
Definition insert_data_out (E : env params row) (out : console)
    (data : list (gmap string value)) : M params row unit :=
  let total_records := length data in
  try_finally
    (try_except
       (print out (ProcessingRecords total_records);;
        for_each (zip (seq 1 total_records) data) (λ '(index, record),
          (if (index mod 10 =? 0)%nat
           then print out (Progress index total_records) else mret ());;
          lift (bind_params record) ≫= cursor_execute E);;
        print out CommittingChanges;;
        conn_commit E;;
        print out UpdateCompleted;;
        logging INFO ("Successfully processed " +:+ pretty total_records +:+ " records"))
       (λ e, conn_rollback;;
             logging ERROR ("Data insertion error: " +:+ str_exn e);;
             raise e))
    cursor_close.

Definition sync_data_out (E : env params row) (out : console) (get : api)
    (cfg : email_config) (start_date end_date : option date) : M params row unit := λ w,
  let records_processed := 0%nat in
  let start_date := default (today E) start_date in
  let end_date := default (today E) end_date in
  let '(r, w, records_processed) :=
    match (print out StartingSync;;
           print out (DateRange start_date end_date);;
           fetch_api_data_out out get start_date end_date) w with
    | (Raise e, w) => (Raise e, w, records_processed)
    | (Ok data, w) =>
        let records_processed := length data in
        let '(r, w) :=
          (print out ConnectingToDatabase;;
           with_connection E (print out ConnectionEstablished;;
                              insert_data_out E out data);;
           print out SyncCompleted;;
           logging INFO ("Data sync completed successfully for period "
                         +:+ str_date start_date +:+ " to " +:+ str_date end_date);;
           send_email_notification E cfg true start_date end_date None
                                   records_processed) w in
        (r, w, records_processed)
    end in
  match r with
  | Ok _ => (Ok (), w)
  | Raise e =>
      let error_message := str_exn e in
      (print out (SyncError error_message);;
       logging ERROR ("Data sync failed: " +:+ error_message);;
       send_email_notification E cfg false start_date end_date
                               (Some error_message) records_processed) w
  end.

(** [main] after [parser.parse_args()] has returned the two options; a
    command line that argparse refuses ends the process before the
    [try]. *)
Definition main_out (E : env params row) (out : console) (get : api) (cfg : email_config)
    (start_arg end_arg : option string) : M params row unit :=
  try_except
    (start_date ← lift (parse_date_arg start_arg);
     end_date ← lift (parse_date_arg end_arg);
     sync_data_out E out get cfg start_date end_date)
    (λ e, match e with
          | ValueError _ =>
              logging ERROR ("Invalid date format. Please use YYYY-MM-DD. Error: "
                             +:+ str_exn e);;
              print out InvalidDateFormat
          | _ => logging ERROR ("Error in main: " +:+ str_exn e)
          end).

(** *** Valid records and canonical rows *)

(** The keys [insert_data] reads from a record. *)
Definition required_fields : list string :=
  ["harvest_date"; "start_time"; "end_time"; "id"; "farm"; "plot"; "produce";
   "worker"; "unit"; "duration"; "containers"; "kgs_harvested"].

(** The field is a string that [strptime] accepts in [format]. *)
Definition matches_format (field : option value) (format : string) : Prop :=
  ∃ s d, field = Some (VStr s) ∧ strptime s format = Ok d.

(** A valid raw row: every required field is present and the three
    date and time fields match their formats. *)
Definition valid_raw (record : gmap string value) : Prop :=
  (∀ key, key ∈ required_fields → is_Some (record !! key)) ∧
  matches_format (record !! "harvest_date") "%Y-%m-%d %H:%M:%S" ∧
  matches_format (record !! "start_time") "%H:%M" ∧
  matches_format (record !! "end_time") "%H:%M".

(** The date and time parameters are in the form the statement expects. *)
Definition dates_canonical (p : params) : Prop :=
  canonical_text "%Y-%m-%d %H:%M:%S" (p_harvest_date p) ∧
  canonical_text "%H:%M:%S" (p_start_time p) ∧
  canonical_text "%H:%M:%S" (p_end_time p).

(** The other nine parameters are the record's values as they came. *)
Definition passed_through (record : gmap string value) (p : params) : Prop :=
  record !! "id" = Some (p_id p) ∧ record !! "farm" = Some (p_farm p) ∧
  record !! "plot" = Some (p_plot p) ∧ record !! "produce" = Some (p_produce p) ∧
  record !! "worker" = Some (p_worker p) ∧ record !! "unit" = Some (p_unit p) ∧
  record !! "duration" = Some (p_duration p) ∧
  record !! "containers" = Some (p_containers p) ∧
  record !! "kgs_harvested" = Some (p_kgs_harvested p).

Definition is_number (v : value) : Prop := ∃ n, v = VNum n.

(** The constraints declared for a canonical harvest row: dates in their
    format, required fields not null, numeric fields numbers. *)
Definition declared_constraints (p : params) : Prop :=
  dates_canonical p ∧
  Forall (λ v, v ≠ VNone)
         [p_id p; p_farm p; p_plot p; p_produce p; p_worker p; p_unit p;
          p_duration p; p_containers p; p_kgs_harvested p] ∧
  is_number (p_duration p) ∧ is_number (p_containers p) ∧ is_number (p_kgs_harvested p).

End Harvest.

(** ** [get_tvn.py]: daily totals *)

Module Tvn.

(** The date text spliced into the statement and the two bound values. *)
Record params : Type := mk_params {
  p_date : string; p_kgs_harvest_tvn : value; p_kgs_packed_cnd : value
}.

(** A row of [tracefruit_harvest]. *)
Record row : Type := mk_row {
  r_date : value; r_kgs_harvest_tvn : value; r_kgs_packed_cnd : value
}.

Definition source_date (p : params) : value := VStr (p_date p).

Definition when_matched (now : Z) (p : params) (r : row) : row :=
  {| r_date := r_date r;
     r_kgs_harvest_tvn := p_kgs_harvest_tvn p;
     r_kgs_packed_cnd := p_kgs_packed_cnd p |}.

Definition when_not_matched (now : Z) (p : params) : row :=
  {| r_date := source_date p;
     r_kgs_harvest_tvn := p_kgs_harvest_tvn p;
     r_kgs_packed_cnd := p_kgs_packed_cnd p |}.

(** MERGE tracefruit_harvest AS target ... ON target.date = source.date;
    the table has no server-assigned column. *)
#[global] Instance tracefruit_harvest : MergeTable params row := {|
  source_key := source_date;
  target_key := r_date;
  update_set := when_matched;
  insert_values := when_not_matched;
  erase := λ r, r
|}.

(** A cell of the [date] column after [pd.to_datetime(...).dt.date]. *)
Inductive date_cell : Type :=
  | DateCell (d : date)
  | NaT.

(** A row of the DataFrame handed to [insert_data]. *)
Record df_row : Type := mk_df_row {
  c_date : date_cell; c_kgs_harvest_tvn : value; c_kgs_packed_cnd : value
}.

(** [row['date'].strftime('%Y-%m-%d')] and the argument tuple. *)
Definition bind_params (row : df_row) : result params :=
  date_str ← match c_date row with
             | DateCell d => Ok (date_strftime d "%Y-%m-%d")
             | NaT => Raise (ValueError "NaTType does not support strftime")
             end;
  mret {| p_date := date_str;
          p_kgs_harvest_tvn := c_kgs_harvest_tvn row;
          p_kgs_packed_cnd := c_kgs_packed_cnd row |}.

(** [insert_data(conn, df)] *)
Definition insert_data (E : env params row) (df : list df_row) : M params row unit :=
  let total_records := length df in
  try_finally
    (try_except
       (for_each df (λ row,
          lift (bind_params row) ≫= cursor_execute E);;
        conn_commit E;;
        logging INFO ("Successfully processed " +:+ pretty total_records +:+ " records"))
       (λ e, conn_rollback;;
             logging ERROR ("Data insertion error: " +:+ str_exn e);;
             raise e))
    cursor_close.

(** What [get_supabase_data] gets from its libraries: the rows the
    query returns for the two optional bounds, and pandas' conversion of
    a column to dates. *)
Record supabase : Type := mk_supabase {
  execute : option string → option string → result (list (gmap string value));
  to_datetime : list value → result (list date_cell)
}.

Definition required_columns : list string := ["date"; "kilos_harvested"; "kilos_packed"].

(** [df.columns] of [pd.DataFrame(rows)]: every key of some row. *)
Definition in_columns (col : string) (rows : list (gmap string value)) : bool :=
  existsb (λ r, bool_decide (is_Some (r !! col))) rows.

(** [str] of a list of strings. *)
Definition repr_list (l : list string) : string :=
  "[" +:+ String.concat ", " ((λ x, "'" +:+ x +:+ "'") <$> l) +:+ "]".

(** A cell of a DataFrame column.  [VNone] stands for the missing value of
    pandas: a row without the key, or with a null, gives NaN in a column of
    numbers; [VNum] stands for a number whether pandas holds it as an
    integer or, beside a missing value, as a float. *)
Definition cell (col : string) (r : gmap string value) : value :=
  default VNone (r !! col).

Definition get_supabase_data (S : supabase) (start_date end_date : option date)
  : M params row (list df_row) :=
  try_except
    (data ← lift (execute S ((λ d, date_strftime d "%Y-%m-%d") <$> start_date)
                            ((λ d, date_strftime d "%Y-%m-%d") <$> end_date));
     match data with
     | [] => mret []
     | _ :: _ =>
         let missing_columns :=
           filter (λ col, in_columns col data = false) required_columns in
         match missing_columns with
         | _ :: _ =>
             raise (ValueError ("Missing required columns in Supabase response: "
                                +:+ repr_list missing_columns))
         | [] =>
             dates ← lift (to_datetime S (cell "date" <$> data));
             mret (zip_with (λ d r, {| c_date := d;
                                       c_kgs_harvest_tvn := cell "kilos_harvested" r;
                                       c_kgs_packed_cnd := cell "kilos_packed" r |})
                            dates data)
         end
     end)
    (λ e, logging ERROR ("Supabase data fetch error: " +:+ str_exn e);; raise e).

(** [sync_data]: no notifier here, the outcome is only logged. *)
Definition sync_data (E : env params row) (S : supabase)
    (start_date end_date : option date) : M params row unit :=
  try_except
    (let start_date := default (today E) start_date in
     let end_date := default (today E) end_date in
     df ← get_supabase_data S (Some start_date) (Some end_date);
     with_connection E (insert_data E df);;
     logging INFO ("TVN data sync completed successfully for period "
                   +:+ str_date start_date +:+ " to " +:+ str_date end_date))
    (λ e, logging ERROR ("TVN data sync failed: " +:+ str_exn e)).

(** Lines 122 to 125: [df.iterrows()] gives the index labels, which count
    the rows of the frame built in [get_supabase_data] from zero. *)
Definition progress (df : list df_row) : list (nat * nat) :=
  progress_lines (seq 0 (length df)) (length df).

(** [main], as in [main.py]. *)
Definition main (E : env params row) (S : supabase)
    (start_arg end_arg : option string) : M params row unit :=
  try_except
    (start_date ← lift (parse_date_arg start_arg);
     end_date ← lift (parse_date_arg end_arg);
     sync_data E S start_date end_date)
    (λ e, match e with
          | ValueError _ =>
              logging ERROR ("Invalid date format. Please use YYYY-MM-DD. Error: "
                             +:+ str_exn e)
          | _ => logging ERROR ("Error in main: " +:+ str_exn e)
          end).

(** *** The same functions with their console output *)

Inductive line : Type :=
  | FetchingData (start_date end_date : option date)   (* line 51 *)
  | ExecutingQuery                                     (* line 70 *)
  | ResponseData (data : list (gmap string value))     (* line 74 *)
  | NoData                                             (* line 77 *)
  | ConvertingToFrame                                  (* line 81 *)
  | RawColumns (data : list (gmap string value))       (* line 83 *)
  | ConvertingDates                                    (* line 98 *)
  | FetchedRecords (n : nat)                           (* line 101, check mark *)
  | FinalColumns (df : list df_row)                    (* line 102 *)
  | FirstRows                                          (* line 103 *)
  | Head (df : list df_row)                            (* line 104 *)
  | FetchError (error : string)                        (* line 109, cross *)
  | ErrorType (e : exn)                                (* line 110 *)
  | FullTraceback                                      (* line 112 *)
  | Traceback (e : exn)                                (* line 113 *)
  | ProcessingRecords (total_records : nat)            (* line 121 *)
  | Progress (index total_records : nat)               (* line 125 *)
  | CommittingChanges                                  (* line 149 *)
  | UpdateCompleted                                    (* line 151, check mark *)
  | StartingSync                                       (* line 169 *)
  | DateRange (start_date end_date : date)             (* line 170 *)
  | ConnectingToDatabase                               (* line 176 *)
  | ConnectionEstablished                              (* line 178, check mark *)
  | SyncCompleted                                      (* line 181 *)
  | SyncError (error_message : string)                 (* line 186, cross *)
  | InvalidDateFormat.                                 (* line 204 *)

Definition console : Type := world params row → line → option exn.

(** The exchange with Supabase (client, query, filters, [execute]) is the
    one step [execute S], taken where the query is executed. *)
Definition get_supabase_data_out (out : console) (S : supabase)
    (start_date end_date : option date) : M params row (list df_row) :=
  try_except
    (print out (FetchingData start_date end_date);;
     print out ExecutingQuery;;
     data ← lift (execute S ((λ d, date_strftime d "%Y-%m-%d") <$> start_date)
                            ((λ d, date_strftime d "%Y-%m-%d") <$> end_date));
     print out (ResponseData data);;
     match data with
     | [] => print out NoData;; mret []
     | _ :: _ =>
         print out ConvertingToFrame;;
         print out (RawColumns data);;
         let missing_columns :=
           filter (λ col, in_columns col data = false) required_columns in
         match missing_columns with
         | _ :: _ =>
             raise (ValueError ("Missing required columns in Supabase response: "
                                +:+ repr_list missing_columns))
         | [] =>
             print out ConvertingDates;;
             dates ← lift (to_datetime S (cell "date" <$> data));
             let df := zip_with (λ d r, {| c_date := d;
                                           c_kgs_harvest_tvn := cell "kilos_harvested" r;
                                           c_kgs_packed_cnd := cell "kilos_packed" r |})
                                dates data in
             print out (FetchedRecords (length df));;
             print out (FinalColumns df);;
             print out FirstRows;;
             print out (Head df);;
             mret df
         end
     end)
    (λ e, logging ERROR ("Supabase data fetch error: " +:+ str_exn e);;
          print out (FetchError (str_exn e));;
          print out (ErrorType e);;
          print out FullTraceback;;
          print out (Traceback e);;
          raise e).

(** [df.iterrows()] gives the row labels, which count from zero. *)
Definition insert_data_out (E : env params row) (out : console) (df : list df_row)
  : M params row unit :=
  let total_records := length df in
  try_finally
    (try_except
       (print out (ProcessingRecords total_records);;
        for_each (zip (seq 0 total_records) df) (λ '(index, row),
          (if (index mod 10 =? 0)%nat
           then print out (Progress index total_records) else mret ());;
          lift (bind_params row) ≫= cursor_execute E);;
        print out CommittingChanges;;
        conn_commit E;;
        print out UpdateCompleted;;
        logging INFO ("Successfully processed " +:+ pretty total_records +:+ " records"))
       (λ e, conn_rollback;;
             logging ERROR ("Data insertion error: " +:+ str_exn e);;
             raise e))
    cursor_close.

Definition sync_data_out (E : env params row) (out : console) (S : supabase)
    (start_date end_date : option date) : M params row unit :=
  try_except
    (let start_date := default (today E) start_date in
     let end_date := default (today E) end_date in
     print out StartingSync;;
     print out (DateRange start_date end_date);;
     df ← get_supabase_data_out out S (Some start_date) (Some end_date);
     print out ConnectingToDatabase;;
     with_connection E (print out ConnectionEstablished;; insert_data_out E out df);;
     print out SyncCompleted;;
     logging INFO ("TVN data sync completed successfully for period "
                   +:+ str_date start_date +:+ " to " +:+ str_date end_date))
    (λ e, print out (SyncError (str_exn e));;
          logging ERROR ("TVN data sync failed: " +:+ str_exn e)).

Definition main_out (E : env params row) (out : console) (S : supabase)
    (start_arg end_arg : option string) : M params row unit :=
  try_except
    (start_date ← lift (parse_date_arg start_arg);
     end_date ← lift (parse_date_arg end_arg);
     sync_data_out E out S start_date end_date)
    (λ e, match e with
          | ValueError _ =>
              logging ERROR ("Invalid date format. Please use YYYY-MM-DD. Error: "
                             +:+ str_exn e);;
              print out InvalidDateFormat
          | _ => logging ERROR ("Error in main: " +:+ str_exn e)
          end).

End Tvn.

(** ** Example inputs *)

Module Examples.

(** A harvest record as the API returns it. *)
Definition h100 : gmap string value :=
  list_to_map [("id", VStr "H100"); ("farm", VStr "La Joya"); ("plot", VStr "P-07");
               ("produce", VStr "avocado"); ("worker", VStr "W-231"); ("unit", VStr "kg");
               ("harvest_date", VStr "2024-06-01 07:30:00");
               ("start_time", VStr "07:30"); ("end_time", VStr "9:05");
               ("duration", VNum 95); ("containers", VNum 12);
               ("kgs_harvested", VNum 240)].

(** The parameters [insert_data] binds for [h100]. *)
Definition h100_params : Harvest.params :=
  {| Harvest.p_id := VStr "H100"; Harvest.p_farm := VStr "La Joya";
     Harvest.p_plot := VStr "P-07"; Harvest.p_produce := VStr "avocado";
     Harvest.p_worker := VStr "W-231"; Harvest.p_unit := VStr "kg";
     Harvest.p_harvest_date := "2024-06-01 07:30:00";
     Harvest.p_start_time := "07:30:00"; Harvest.p_end_time := "09:05:00";
     Harvest.p_duration := VNum 95; Harvest.p_containers := VNum 12;
     Harvest.p_kgs_harvested := VNum 240 |}.

(** The same harvest reported again with another weight. *)
Definition h100_revised : gmap string value := <["kgs_harvested" := VNum 250]> h100.

Definition h100_revised_params : Harvest.params :=
  {| Harvest.p_id := VStr "H100"; Harvest.p_farm := VStr "La Joya";
     Harvest.p_plot := VStr "P-07"; Harvest.p_produce := VStr "avocado";
     Harvest.p_worker := VStr "W-231"; Harvest.p_unit := VStr "kg";
     Harvest.p_harvest_date := "2024-06-01 07:30:00";
     Harvest.p_start_time := "07:30:00"; Harvest.p_end_time := "09:05:00";
     Harvest.p_duration := VNum 95; Harvest.p_containers := VNum 12;
     Harvest.p_kgs_harvested := VNum 250 |}.

(** A record without its [harvest_date]. *)
Definition h101_undated : gmap string value :=
  delete "harvest_date" (<["id" := VStr "H101"]> h100).

(** A record whose duration is text. *)
Definition h102_odd : gmap string value :=
  <["duration" := VStr "n/a"]> (<["id" := VStr "H102"]> h100).


Definition june_1 : Tvn.df_row :=
  {| Tvn.c_date := Tvn.DateCell {| dyear := 2024; dmonth := 6; dday := 1 |};
     Tvn.c_kgs_harvest_tvn := VNum 150; Tvn.c_kgs_packed_cnd := VNum 90 |}.

Definition undated : Tvn.df_row :=
  {| Tvn.c_date := Tvn.NaT;
     Tvn.c_kgs_harvest_tvn := VNum 10; Tvn.c_kgs_packed_cnd := VNum 5 |}.

(** A Supabase client that returns [rows]; the date column converts to
    the first of June for every row. *)
Definition supabase_returning (rows : list (gmap string value)) : Tvn.supabase :=
  {| Tvn.execute := λ _ _, Ok rows;
     Tvn.to_datetime := λ col,
       Ok ((λ _, Tvn.DateCell {| dyear := 2024; dmonth := 6; dday := 1 |}) <$> col) |}.

(** A response with the three expected columns. *)
Definition totals_rows : list (gmap string value) :=
  [list_to_map [("date", VStr "2024-06-01"); ("kilos_harvested", VNum 150);
                ("kilos_packed", VNum 90)]].

(** A store that refuses the statement for harvest [H100]. *)
Definition refusing_h100 : env Harvest.params Harvest.row :=
  {| stmt_error := λ _ p, if bool_decide (Harvest.p_id p = VStr "H100")
                          then Some (DatabaseError "conversion failed") else None;
     getdate := ticking;
     commit_error := λ _, None;
     connect_error := λ _, None;
     smtp_error := λ _ _, None;
     today := {| dyear := 2024; dmonth := 6; dday := 1 |} |}.

(** One run of [insert_data] on an empty table, and a second run of the
    same batch. *)
Definition after_first_run : world Harvest.params Harvest.row :=
  (Harvest.insert_data (obliging ticking) [h100] empty_world).2.

Definition after_second_run : world Harvest.params Harvest.row :=
  (Harvest.insert_data (obliging ticking) [h100] after_first_run).2.

(** A table that already holds a harvest the batch does not mention. *)
Definition h099_row : Harvest.row :=
  {| Harvest.r_id := VStr "H099"; Harvest.r_farm := VStr "La Joya";
     Harvest.r_plot := VStr "P-02"; Harvest.r_produce := VStr "mango";
     Harvest.r_worker := VStr "W-118"; Harvest.r_unit := VStr "kg";
     Harvest.r_harvest_date := VStr "2024-05-31 06:45:00";
     Harvest.r_start_time := VStr "06:45:00"; Harvest.r_end_time := VStr "08:00:00";
     Harvest.r_duration := VNum 75; Harvest.r_containers := VNum 9;
     Harvest.r_kgs_harvested := VNum 180; Harvest.r_insert_date := 17 |}.

Definition stocked_world : world Harvest.params Harvest.row :=
  {| committed := [h099_row]; working := [h099_row]; trace := [] |}.

(** The daily-totals table with a total for the first of June. *)
Definition june_world : world Tvn.params Tvn.row :=
  {| committed := [{| Tvn.r_date := VStr "2024-06-01"; Tvn.r_kgs_harvest_tvn := VNum 100;
                      Tvn.r_kgs_packed_cnd := VNum 60 |}];
     working := []; trace := [] |}.

Definition no_email : Harvest.email_config :=
  {| Harvest.EMAIL_SENDER := Some "sync@example.org";
     Harvest.EMAIL_PASSWORD := None;
     Harvest.EMAIL_RECIPIENT := Some "ops@example.org" |}.

(** A store whose commit fails. *)
Definition commit_refusing : env Harvest.params Harvest.row :=
  {| stmt_error := λ _ _, None;
     getdate := ticking;
     commit_error := λ _, Some (DatabaseError "transaction was deadlocked");
     connect_error := λ _, None;
     smtp_error := λ _ _, None;
     today := {| dyear := 2024; dmonth := 6; dday := 1 |} |}.

(** A database server that cannot be reached, for either script. *)
Definition unreachable {Params Row : Type} : env Params Row :=
  {| stmt_error := λ _ _, None;
     getdate := ticking;
     commit_error := λ _, None;
     connect_error := λ _, Some (DatabaseError "login timeout expired");
     smtp_error := λ _ _, None;
     today := {| dyear := 2024; dmonth := 6; dday := 1 |} |}.

(** A mail server that refuses the login. *)
Definition mail_down : env Harvest.params Harvest.row :=
  {| stmt_error := λ _ _, None;
     getdate := ticking;
     commit_error := λ _, None;
     connect_error := λ _, None;
     smtp_error := λ _ _, Some (SMTPException "authentication failed");
     today := {| dyear := 2024; dmonth := 6; dday := 1 |} |}.

Definition full_email : Harvest.email_config :=
  {| Harvest.EMAIL_SENDER := Some "sync@example.org";
     Harvest.EMAIL_PASSWORD := Some "app-password";
     Harvest.EMAIL_RECIPIENT := Some "ops@example.org" |}.

(** The password is set, to the empty string. *)
Definition blank_password : Harvest.email_config :=
  {| Harvest.EMAIL_SENDER := Some "sync@example.org";
     Harvest.EMAIL_PASSWORD := Some EmptyString;
     Harvest.EMAIL_RECIPIENT := Some "ops@example.org" |}.

Definition api_down : Harvest.api := λ _ _, Raise (RequestException "503 Server Error").

Definition supabase_down : Tvn.supabase :=
  {| Tvn.execute := λ _ _, Raise (RequestException "connection refused");
     Tvn.to_datetime := λ col, Ok ((λ _, Tvn.NaT) <$> col) |}.

(** A response whose second row has no [kilos_packed]. *)
Definition patchy_rows : list (gmap string value) :=
  totals_rows ++
  [list_to_map [("date", VStr "2024-06-02"); ("kilos_harvested", VNum 75)]].

Definition june_2 : date := {| dyear := 2024; dmonth := 6; dday := 2 |}.

(** A store that takes the first commit of a connection and fails on a
    later one. *)
Definition second_commit_refusing : env Harvest.params Harvest.row :=
  {| stmt_error := λ _ _, None;
     getdate := ticking;
     commit_error := λ w,
       if existsb (λ ev, match ev with Commit => true | _ => false end) (trace w)
       then Some (DatabaseError "communication link failure") else None;
     connect_error := λ _, None;
     smtp_error := λ _ _, None;
     today := {| dyear := 2024; dmonth := 6; dday := 1 |} |}.

(** A console that takes every line. *)
Definition plain_console {Params Row Line : Type} : world Params Row → Line → option exn :=
  λ _ _, None.

(** A console with a legacy code page: it has neither the check mark nor
    the cross the scripts begin some lines with. *)
Definition unencodable (mark : string) (position : string) : exn :=
  ValueError ("'charmap' codec can't encode character '" +:+ mark +:+ "' in position "
              +:+ position +:+ ": character maps to <undefined>").

Definition legacy_console : Harvest.console := λ _ line,
  match line with
  | Harvest.FetchedRecords _ | Harvest.UpdateCompleted | Harvest.ConnectionEstablished =>
      Some (unencodable "\u2713" "0")
  | Harvest.FetchError _ => Some (unencodable "\u2717" "0")
  | Harvest.SyncError _ => Some (unencodable "\u2717" "1")
  | _ => None
  end.

Definition tvn_legacy_console : Tvn.console := λ _ line,
  match line with
  | Tvn.FetchedRecords _ | Tvn.UpdateCompleted | Tvn.ConnectionEstablished =>
      Some (unencodable "\u2713" "0")
  | Tvn.FetchError _ => Some (unencodable "\u2717" "0")
  | Tvn.SyncError _ => Some (unencodable "\u2717" "1")
  | _ => None
  end.

(** A harvest record whose id is null. *)
Definition h_null : gmap string value := <["id" := VNone]> h100.

End Examples.

(** * Properties *)

(** ** SQL equality *)

Lemma sql_eq_true a b : sql_eq a b = true ↔ a = b ∧ a ≠ VNone.
Proof.
  unfold sql_eq; destruct a, b; rewrite ?bool_decide_eq_true;
    split; try discriminate; intros H; try (destruct H; congruence);
    split; congruence.
Qed.

Lemma sql_eq_sym a b : sql_eq a b = sql_eq b a.
Proof.
  destruct (sql_eq a b) eqn:E1, (sql_eq b a) eqn:E2; try reflexivity.
  - apply sql_eq_true in E1 as [-> ?].
    assert (sql_eq b b = true) by (apply sql_eq_true; auto). congruence.
  - apply sql_eq_true in E2 as [-> ?].
    assert (sql_eq a a = true) by (apply sql_eq_true; auto). congruence.
Qed.

Lemma sql_eq_refl a : a ≠ VNone → sql_eq a a = true.
Proof. intros. apply sql_eq_true; auto. Qed.

(** ** One statement, a batch of statements *)

Section MergeFacts.
Context {Params Row : Type} {MT : MergeTable Params Row} {ML : MergeLaws MT}.

Lemma merge_all_app s1 s2 T : merge_all (s1 ++ s2) T = merge_all s2 (merge_all s1 T).
Proof. revert T; induction s1 as [|[t p] s1 IH]; intros T; simpl; auto. Qed.

Lemma existsb_on_match p T :
  existsb (on_match p) T = true ↔ ∃ i r, T !! i = Some r ∧ on_match p r = true.
Proof.
  rewrite existsb_exists. split.
  - intros (r & Hin & Hm). apply list_elem_of_In, list_elem_of_lookup in Hin as [i Hi]. eauto.
  - intros (i & r & Hi & Hm). exists r. split; auto.
    apply list_elem_of_In, list_elem_of_lookup. eauto.
Qed.

(** Row by row description of one statement. *)
Lemma merge_lookup_old now p T i r :
  T !! i = Some r →
  merge now p T !! i = Some (if on_match p r then update_set now p r else r).
Proof.
  intros Hi. unfold merge. destruct (existsb (on_match p) T) eqn:E.
  - rewrite list_lookup_fmap, Hi. reflexivity.
  - rewrite lookup_app_l by (eapply lookup_lt_Some; eauto).
    assert (on_match p r = false) as ->; [|done].
    destruct (on_match p r) eqn:Hm; [|done].
    assert (existsb (on_match p) T = true) by (apply existsb_on_match; eauto). congruence.
Qed.

Lemma merge_length now p T :
  length (merge now p T) =
    if existsb (on_match p) T then length T else S (length T).
Proof.
  unfold merge. destruct (existsb _ _).
  - apply length_map.
  - rewrite length_app. simpl. lia.
Qed.

Lemma merge_lookup_new now p T i r :
  merge now p T !! i = Some r → (length T ≤ i)%nat →
  existsb (on_match p) T = false ∧ i = length T ∧ r = insert_values now p.
Proof.
  intros Hi Hge. pose proof (lookup_lt_Some _ _ _ Hi) as Hlt.
  rewrite merge_length in Hlt. unfold merge in Hi.
  destruct (existsb (on_match p) T); [lia|].
  assert (i = length T) as -> by lia.
  rewrite lookup_app_r, Nat.sub_diag in Hi by lia. simpl in Hi.
  split; [done|]. split; congruence.
Qed.

Lemma merge_key_old now p T i r :
  T !! i = Some r → ∃ r', merge now p T !! i = Some r' ∧ target_key r' = target_key r.
Proof.
  intros Hi. eexists. split; [by apply merge_lookup_old|].
  destruct (on_match p r); [apply update_set_key|done].
Qed.

Lemma merge_unique_keys now p T : unique_keys T → unique_keys (merge now p T).
Proof.
  intros HU i j r1 r2 Hi Hj Heq.
  destruct (decide (i < length T)%nat) as [Hil|Hil], (decide (j < length T)%nat) as [Hjl|Hjl].
  - destruct (lookup_lt_is_Some_2 T i Hil) as [a Ha], (lookup_lt_is_Some_2 T j Hjl) as [b Hb].
    destruct (merge_key_old now p T i a Ha) as (a' & Ha' & Ka).
    destruct (merge_key_old now p T j b Hb) as (b' & Hb' & Kb).
    rewrite Hi in Ha'; rewrite Hj in Hb'. simplify_eq.
    eapply HU; eauto. congruence.
  - destruct (lookup_lt_is_Some_2 T i Hil) as [a Ha].
    destruct (merge_key_old now p T i a Ha) as (a' & Ha' & Ka).
    rewrite Hi in Ha'. simplify_eq.
    destruct (merge_lookup_new now p T j r2 Hj ltac:(lia)) as (Hno & -> & ->).
    rewrite insert_values_key, Ka in Heq.
    assert (existsb (on_match p) T = true); [|congruence].
    apply existsb_on_match. exists i, a. done.
  - destruct (lookup_lt_is_Some_2 T j Hjl) as [b Hb].
    destruct (merge_key_old now p T j b Hb) as (b' & Hb' & Kb).
    rewrite Hj in Hb'. simplify_eq.
    destruct (merge_lookup_new now p T i r1 Hi ltac:(lia)) as (Hno & -> & ->).
    rewrite insert_values_key, Kb, sql_eq_sym in Heq.
    assert (existsb (on_match p) T = true); [|congruence].
    apply existsb_on_match. exists j, b. done.
  - destruct (merge_lookup_new now p T i r1 Hi ltac:(lia)) as (_ & -> & _).
    destruct (merge_lookup_new now p T j r2 Hj ltac:(lia)) as (_ & -> & _). done.
Qed.

Lemma merge_all_unique_keys stmts T : unique_keys T → unique_keys (merge_all stmts T).
Proof.
  revert T; induction stmts as [|[t p] s IH]; intros T HU; simpl; auto.
  apply IH, merge_unique_keys, HU.
Qed.

(** Once a statement's key has a row, it keeps one. *)
Lemma merge_keeps_match now p q T :
  existsb (on_match q) T = true → existsb (on_match q) (merge now p T) = true.
Proof.
  rewrite !existsb_on_match. intros (i & r & Hi & Hm).
  destruct (merge_key_old now p T i r Hi) as (r' & Hr' & Hk).
  exists i, r'. split; [done|]. unfold on_match in *. by rewrite Hk.
Qed.

Lemma merge_all_keeps_match stmts q T :
  existsb (on_match q) T = true → existsb (on_match q) (merge_all stmts T) = true.
Proof.
  revert T; induction stmts as [|[t p] s IH]; intros T H; simpl; auto.
  apply IH, merge_keeps_match, H.
Qed.

Lemma merge_makes_match now p T :
  source_key p ≠ VNone → existsb (on_match p) (merge now p T) = true.
Proof.
  intros Hk. destruct (existsb (on_match p) T) eqn:E.
  - by apply merge_keeps_match.
  - apply existsb_on_match. exists (length T), (insert_values now p).
    unfold merge. rewrite E, lookup_app_r, Nat.sub_diag by lia.
    split; [done|]. unfold on_match. rewrite insert_values_key. by apply sql_eq_refl.
Qed.

Lemma merge_all_covers stmts T p :
  p ∈ stmts.*2 → source_key p ≠ VNone →
  existsb (on_match p) (merge_all stmts T) = true.
Proof.
  revert T; induction stmts as [|[t q] s IH]; intros T Hin Hk; simpl in *.
  - by apply elem_of_nil in Hin.
  - apply elem_of_cons in Hin as [->|Hin]; [|by apply IH].
    by apply merge_all_keeps_match, merge_makes_match.
Qed.

(** *** Repeating a batch *)

Lemma written_key p : target_key (written p) = source_key p.
Proof. unfold written. by rewrite erase_key, insert_values_key. Qed.

Lemma on_match_erase p r : on_match p (erase r) = on_match p r.
Proof. unfold on_match. by rewrite erase_key. Qed.

Lemma overwrite_key x p : target_key (overwrite x p) = target_key x.
Proof.
  unfold overwrite. destruct (on_match p x) eqn:E; [|done].
  apply sql_eq_true in E as [-> _]. apply written_key.
Qed.

Lemma overwrite_all_key B x : target_key (overwrite_all B x) = target_key x.
Proof.
  revert x; induction B as [|p B IH]; intros x; simpl; [done|].
  unfold overwrite_all in *. simpl. rewrite IH. apply overwrite_key.
Qed.

Lemma overwrite_all_snoc B p x :
  overwrite_all (B ++ [p]) x = overwrite (overwrite_all B x) p.
Proof. unfold overwrite_all. by rewrite fold_left_app. Qed.

Lemma overwrite_all_nomatch B x :
  (∀ q, q ∈ B → on_match q x = false) → overwrite_all B x = x.
Proof.
  revert x; induction B as [|p B IH]; intros x H; [done|].
  unfold overwrite_all in *. simpl.
  assert (overwrite x p = x) as ->.
  { unfold overwrite. rewrite H; [done|]. by left. }
  apply IH. intros q Hq. apply H. by right.
Qed.

Lemma overwrite_all_null B x : target_key x = VNone → overwrite_all B x = x.
Proof.
  intros Hk. apply overwrite_all_nomatch. intros q _.
  unfold on_match. by rewrite Hk.
Qed.

(** The last statement that matches decides the content. *)
Lemma overwrite_all_last B1 q B2 x :
  on_match q x = true →
  (∀ q', q' ∈ B2 → on_match q' x = false) →
  overwrite_all (B1 ++ q :: B2) x = written q.
Proof.
  intros Hq Hno. unfold overwrite_all. rewrite fold_left_app. simpl.
  fold (overwrite_all B1 x).
  assert (overwrite (overwrite_all B1 x) q = written q) as ->.
  { unfold overwrite, on_match. rewrite overwrite_all_key. fold (on_match q x).
    by rewrite Hq. }
  apply overwrite_all_nomatch. intros q' Hq'. specialize (Hno q' Hq').
  unfold on_match in *. rewrite written_key.
  apply sql_eq_true in Hq as [<- _]. done.
Qed.

Lemma erase_merge now p T :
  erase <$> merge now p T =
    if existsb (on_match p) T
    then (λ x, overwrite x p) <$> (erase <$> T)
    else (erase <$> T) ++ [written p].
Proof.
  unfold merge. destruct (existsb (on_match p) T).
  - rewrite <- !list_fmap_compose. apply list_fmap_ext. intros _ r _. simpl.
    unfold overwrite. rewrite on_match_erase.
    destruct (on_match p r) eqn:E; [|done].
    rewrite erase_update by done. apply erase_insert.
  - rewrite fmap_app. simpl. f_equal. f_equal. apply erase_insert.
Qed.

(** When every key of the batch is already there, the batch is a row-wise
    overwrite and adds nothing. *)
Lemma erase_merge_all_covered stmts T :
  (∀ p, p ∈ stmts.*2 → existsb (on_match p) T = true) →
  erase <$> merge_all stmts T = overwrite_all stmts.*2 <$> (erase <$> T).
Proof.
  revert T; induction stmts as [|[t p] s IH]; intros T Hc; simpl.
  - symmetry. etrans; [|apply list_fmap_id]. by apply list_fmap_ext.
  - rewrite IH.
    + rewrite erase_merge, Hc by (by left).
      rewrite <- list_fmap_compose. by apply list_fmap_ext.
    + intros q Hq. apply merge_keeps_match, Hc. by right.
Qed.

(** Every row left by a batch is a fixed point of the batch's overwrites. *)
Lemma merge_all_fixed stmts T r :
  r ∈ merge_all stmts T → overwrite_all stmts.*2 (erase r) = erase r.
Proof.
  revert r. induction stmts as [|[t p] s IH] using rev_ind; intros r Hr.
  { done. }
  rewrite merge_all_app in Hr. simpl in Hr.
  rewrite fmap_app. simpl. rewrite overwrite_all_snoc.
  assert (Hw : overwrite (overwrite_all s.*2 (written p)) p = written p).
  { unfold overwrite. destruct (on_match p _) eqn:E; [done|].
    apply overwrite_all_null.
    unfold on_match in E. rewrite overwrite_all_key, written_key in E.
    rewrite written_key. destruct (source_key p); [done| |];
      rewrite sql_eq_refl in E; done. }
  apply list_elem_of_lookup in Hr as [i Hi].
  destruct (decide (i < length (merge_all s T))%nat) as [Hlt|Hge].
  - destruct (lookup_lt_is_Some_2 _ i Hlt) as [r' Hr'].
    rewrite (merge_lookup_old _ _ _ _ _ Hr') in Hi.
    destruct (on_match p r') eqn:E; simplify_eq.
    + rewrite erase_update, (erase_insert t 0) by done. apply Hw.
    + rewrite IH by (eapply list_elem_of_lookup_2; eauto).
      unfold overwrite. by rewrite on_match_erase, E.
  - destruct (merge_lookup_new _ _ _ _ _ Hi ltac:(lia)) as (_ & _ & ->).
    rewrite (erase_insert t 0). apply Hw.
Qed.

(** Running the same parameters a second time changes no erased row. *)
Lemma merge_all_twice stmts1 stmts2 T :
  stmts2.*2 = stmts1.*2 →
  (∀ p, p ∈ stmts1.*2 → source_key p ≠ VNone) →
  erase <$> merge_all stmts2 (merge_all stmts1 T) = erase <$> merge_all stmts1 T.
Proof.
  intros Hsame Hk. rewrite erase_merge_all_covered.
  - rewrite Hsame, <- list_fmap_compose.
    apply list_fmap_ext. intros i r Hr. simpl.
    eapply merge_all_fixed, list_elem_of_lookup_2, Hr.
  - intros p Hp. rewrite Hsame in Hp. apply merge_all_covers; auto.
Qed.

(** Of several statements with one key the last one decides the row. *)
Lemma merge_all_last_wins stmts T B1 q B2 i r :
  stmts.*2 = B1 ++ q :: B2 →
  (∀ q', q' ∈ B2 → source_key q' ≠ source_key q) →
  merge_all stmts T !! i = Some r → on_match q r = true →
  erase r = written q.
Proof.
  intros HB Hlast Hi Hm.
  rewrite <- (merge_all_fixed stmts T r) by (eapply list_elem_of_lookup_2; eauto).
  rewrite HB. apply overwrite_all_last; [by rewrite on_match_erase|].
  intros q' Hq'. rewrite on_match_erase.
  destruct (on_match q' r) eqn:E; [|done].
  apply sql_eq_true in E as [E1 _]. apply sql_eq_true in Hm as [E2 _].
  destruct (Hlast q' Hq'). congruence.
Qed.

(** *** What a batch leaves alone *)

Lemma merge_all_length_le stmts T : (length T ≤ length (merge_all stmts T))%nat.
Proof.
  revert T; induction stmts as [|[t p] s IH]; intros T; simpl; [lia|].
  etrans; [|apply IH]. rewrite merge_length. destruct (existsb _ _); lia.
Qed.

Lemma merge_all_old_rows stmts T i r :
  T !! i = Some r →
  ∃ r', merge_all stmts T !! i = Some r' ∧ target_key r' = target_key r ∧
        ((∀ p, p ∈ stmts.*2 → on_match p r = false) → r' = r).
Proof.
  revert T r; induction stmts as [|[t p] s IH]; intros T r Hi; simpl.
  { exists r. auto. }
  pose proof (merge_lookup_old t p T i r Hi) as H1.
  destruct (IH _ _ H1) as (r' & Hr' & Hk & Hsame).
  exists r'. split; [done|]. split.
  - rewrite Hk. destruct (on_match p r); [apply update_set_key|done].
  - intros Hno. rewrite Hno in Hsame by (by left).
    apply Hsame. intros q Hq. apply Hno. by right.
Qed.

Lemma merge_all_new_rows stmts T i r :
  merge_all stmts T !! i = Some r → (length T ≤ i)%nat →
  ∃ p, p ∈ stmts.*2 ∧ target_key r = source_key p ∧ existsb (on_match p) T = false.
Proof.
  revert T; induction stmts as [|[t p] s IH]; intros T Hi Hge; simpl in *.
  { apply lookup_lt_Some in Hi. lia. }
  destruct (decide (length (merge t p T) ≤ i)%nat) as [Hge'|Hlt].
  - destruct (IH _ Hi Hge') as (q & Hq & Hk & Hno).
    exists q. split; [by right|]. split; [done|].
    destruct (existsb (on_match q) T) eqn:E; [|done].
    by rewrite (merge_keeps_match t p q T E) in Hno.
  - destruct (lookup_lt_is_Some_2 (merge t p T) i ltac:(lia)) as [r0 Hr0].
    destruct (merge_lookup_new _ _ _ _ _ Hr0 Hge) as (Hno & -> & ->).
    destruct (merge_all_old_rows s _ _ _ Hr0) as (r' & Hr' & Hk & _).
    exists p. split; [by left|]. split; [|done].
    rewrite Hi in Hr'. simplify_eq. by rewrite Hk, insert_values_key.
Qed.

End MergeFacts.

(** ** [strptime] and [strftime] *)

Ltac divmod_lia := Z.to_euclidean_division_equations; lia.

Lemma digit_char_spec d :
  0 ≤ d ≤ 9 →
  is_digit (digit_char d) = true ∧ is_space (digit_char d) = false ∧
  code (digit_char d) - 48 = d.
Proof.
  intros H. assert (d = 0 ∨ d = 1 ∨ d = 2 ∨ d = 3 ∨ d = 4 ∨ d = 5 ∨ d = 6 ∨
                    d = 7 ∨ d = 8 ∨ d = 9) as Hd by lia.
  repeat destruct Hd as [->|Hd]; try subst d; by vm_compute.
Qed.

Lemma int_digits_pad2 acc n :
  0 ≤ n ≤ 99 → int_digits acc (pad2 n) = 100 * acc + n.
Proof.
  intros H. unfold pad2. cbn [int_digits].
  destruct (digit_char_spec (n / 10)) as (-> & _ & E1); [divmod_lia|].
  destruct (digit_char_spec (n mod 10)) as (-> & _ & E2); [divmod_lia|].
  rewrite E1, E2. divmod_lia.
Qed.

Lemma int_digits_pad4 n : 0 ≤ n ≤ 9999 → int_digits 0 (pad4 n) = n.
Proof.
  intros H. unfold pad4. cbn [int_digits].
  destruct (digit_char_spec (n / 1000)) as (-> & _ & E1); [divmod_lia|].
  destruct (digit_char_spec (n / 100 mod 10)) as (-> & _ & E2); [divmod_lia|].
  rewrite E1, E2, int_digits_pad2 by divmod_lia. divmod_lia.
Qed.

Lemma pad2_app n rest :
  pad2 n +:+ rest = String (digit_char (n / 10)) (String (digit_char (n mod 10)) rest).
Proof. reflexivity. Qed.

Lemma pad4_app n rest :
  pad4 n +:+ rest =
    String (digit_char (n / 1000)) (String (digit_char (n / 100 mod 10)) (pad2 (n mod 100) +:+ rest)).
Proof. reflexivity. Qed.

Lemma alternatives_Y n rest :
  0 ≤ n ≤ 9999 →
  alternatives [[CDigit; CDigit; CDigit; CDigit]] (pad4 n +:+ rest) = [(pad4 n, rest)].
Proof.
  intros H. rewrite pad4_app, pad2_app. unfold pad4, pad2, alternatives.
  cbn [omap list_omap match_classes in_class].
  destruct (digit_char_spec (n / 1000)) as (-> & _ & _); [divmod_lia|].
  destruct (digit_char_spec (n / 100 mod 10)) as (-> & _ & _); [divmod_lia|].
  destruct (digit_char_spec (n mod 100 / 10)) as (-> & _ & _); [divmod_lia|].
  destruct (digit_char_spec (n mod 100 mod 10)) as (-> & _ & _); [divmod_lia|].
  done.
Qed.

Tactic Notation "by_cases_below" ident(n) integer(k) :=
  do k (destruct n as [|n]; [try lia; intros rest; eexists; split; reflexivity|]); lia.

Lemma alternatives_m n : (1 ≤ n ≤ 12)%nat → takes_both "m" n.
Proof. intros H. by_cases_below n 13. Qed.

Lemma alternatives_d n : (1 ≤ n ≤ 31)%nat → takes_both "d" n.
Proof. intros H. by_cases_below n 32. Qed.

Lemma alternatives_H n : (n ≤ 23)%nat → takes_both "H" n.
Proof. intros H. by_cases_below n 24. Qed.

Lemma alternatives_M n : (n ≤ 59)%nat → takes_both "M" n.
Proof. intros H. by_cases_below n 60. Qed.

Lemma alternatives_S n : (n ≤ 59)%nat → takes_both "S" n.
Proof. intros H. by_cases_below n 60. Qed.

Lemma takes_both_Z name n rest :
  0 ≤ n → takes_both name (Z.to_nat n) →
  ∃ alts, directive name = Some alts ∧
    head (alternatives alts (pad2 n +:+ rest)) = Some (pad2 n, rest).
Proof. intros Hn H. specialize (H rest). by rewrite Z2Nat.id in H. Qed.

Lemma first_match_lit c items rest x :
  head (match_items items rest) = Some x →
  head (match_items (FLit c :: items) (String c rest)) = Some x.
Proof. intros H. cbn [match_items]. by rewrite Ascii.eqb_refl. Qed.

Lemma first_match_dir name alts items s cap rest caps r :
  directive name = Some alts →
  head (alternatives alts s) = Some (cap, rest) →
  head (match_items items rest) = Some (caps, r) →
  head (match_items (FDir name :: items) s) = Some ((name, cap) :: caps, r).
Proof.
  intros Hd Ha Hm. cbn [match_items]. rewrite Hd.
  destruct (alternatives alts s) as [|[cap' rest'] tl]; simplify_eq/=.
  destruct (match_items items rest) as [|[caps' r'] tl']; simplify_eq/=. done.
Qed.

Lemma first_match_space items c rest x :
  is_space c = false →
  head (match_items items (String c rest)) = Some x →
  head (match_items (FSpace :: items) (String " " (String c rest))) = Some x.
Proof.
  intros Hc Hm. cbn [match_items spaces_plus].
  replace (is_space " ") with true by reflexivity. rewrite Hc. cbn.
  rewrite app_nil_r. done.
Qed.

Lemma first_match_dir2 name n items rest caps r :
  0 ≤ n → takes_both name (Z.to_nat n) →
  head (match_items items rest) = Some (caps, r) →
  head (match_items (FDir name :: items) (pad2 n +:+ rest)) = Some ((name, pad2 n) :: caps, r).
Proof.
  intros Hn Ht Hm. destruct (takes_both_Z name n rest Hn Ht) as (alts & Hd & Ha).
  eapply first_match_dir; eauto.
Qed.

Lemma valid_datetime_spec d :
  valid_datetime d = true ↔
  1 ≤ year d ≤ 9999 ∧ 1 ≤ month d ≤ 12 ∧ 1 ≤ day d ≤ days_in_month (year d) (month d) ∧
  0 ≤ hour d ≤ 23 ∧ 0 ≤ minute d ≤ 59 ∧ 0 ≤ second d ≤ 59.
Proof. unfold valid_datetime. rewrite !andb_true_iff, !Z.leb_le. tauto. Qed.

Lemma days_in_month_le y m : days_in_month y m ≤ 31.
Proof. unfold days_in_month. repeat case_match; lia. Qed.

Lemma strptime_valid s format d : strptime s format = Ok d → valid_datetime d = true.
Proof.
  unfold strptime. destruct (match_items _ _) as [|[caps rest] ?]; [done|].
  destruct rest; [|done]. case_match; congruence.
Qed.

(** The text [strftime] prints parses back to the same [datetime]. *)
Lemma strptime_strftime d :
  valid_datetime d = true →
  strptime (strftime d "%Y-%m-%d %H:%M:%S") "%Y-%m-%d %H:%M:%S" = Ok d.
Proof.
  intros Hv. pose proof Hv as Hv'. apply valid_datetime_spec in Hv'.
  destruct d as [y m dd h mi s]; simpl in Hv'.
  destruct Hv' as (Hy & Hm & Hd & Hh & Hmi & Hs).
  pose proof (days_in_month_le y m).
  unfold strptime.
  change (compile_format "%Y-%m-%d %H:%M:%S") with
    [FDir "Y"; FLit "-"; FDir "m"; FLit "-"; FDir "d"; FSpace;
     FDir "H"; FLit ":"; FDir "M"; FLit ":"; FDir "S"].
  change (strftime _ "%Y-%m-%d %H:%M:%S") with
    (pad4 y +:+ String "-" (pad2 m +:+ String "-" (pad2 dd +:+ String " "
      (pad2 h +:+ String ":" (pad2 mi +:+ String ":" (pad2 s +:+ EmptyString)))))).
  match goal with |- context [match_items ?it ?str] =>
    assert (head (match_items it str) =
            Some ([("Y"%char, pad4 y); ("m"%char, pad2 m); ("d"%char, pad2 dd);
                   ("H"%char, pad2 h); ("M"%char, pad2 mi); ("S"%char, pad2 s)], EmptyString))
      as Hhead
  end.
  { eapply first_match_dir; [reflexivity| rewrite alternatives_Y by lia; reflexivity |].
    apply first_match_lit.
    apply first_match_dir2; [lia | apply alternatives_m; lia |].
    apply first_match_lit.
    apply first_match_dir2; [lia | apply alternatives_d; lia |].
    rewrite (pad2_app h). apply first_match_space.
    { apply digit_char_spec. divmod_lia. }
    rewrite <- (pad2_app h).
    apply first_match_dir2; [lia | apply alternatives_H; lia |].
    apply first_match_lit.
    apply first_match_dir2; [lia | apply alternatives_M; lia |].
    apply first_match_lit.
    apply first_match_dir2; [lia | apply alternatives_S; lia |].
    reflexivity. }
  destruct (match_items _ _) as [|[caps rest] tl]; [done|].
  cbn [head] in Hhead. injection Hhead as -> ->.
  cbn [group Ascii.eqb Bool.eqb default from_option id].
  rewrite int_digits_pad4, !(int_digits_pad2 0) by lia.
  rewrite !Z.mul_0_r, !Z.add_0_l. by rewrite Hv.
Qed.
Lemma strptime_strftime_time d :
  valid_datetime d = true → on_default_date d →
  strptime (strftime d "%H:%M:%S") "%H:%M:%S" = Ok d.
Proof.
  intros Hv (Hy & Hm & Hd). pose proof Hv as Hv'. apply valid_datetime_spec in Hv'.
  destruct d as [y m dd h mi s]; simpl in *. subst y m dd.
  destruct Hv' as (_ & _ & _ & Hh & Hmi & Hs).
  unfold strptime.
  change (compile_format "%H:%M:%S") with
    [FDir "H"; FLit ":"; FDir "M"; FLit ":"; FDir "S"].
  change (strftime _ "%H:%M:%S") with
    (pad2 h +:+ String ":" (pad2 mi +:+ String ":" (pad2 s +:+ EmptyString))).
  match goal with |- context [match_items ?it ?str] =>
    assert (head (match_items it str) =
            Some ([("H"%char, pad2 h); ("M"%char, pad2 mi); ("S"%char, pad2 s)], EmptyString))
      as Hhead
  end.
  { apply first_match_dir2; [lia | apply alternatives_H; lia |].
    apply first_match_lit.
    apply first_match_dir2; [lia | apply alternatives_M; lia |].
    apply first_match_lit.
    apply first_match_dir2; [lia | apply alternatives_S; lia |].
    reflexivity. }
  destruct (match_items _ _) as [|[caps rest] tl]; [done|].
  cbn [head] in Hhead. injection Hhead as -> ->.
  cbn [group Ascii.eqb Bool.eqb default from_option id].
  rewrite !(int_digits_pad2 0) by lia.
  rewrite !Z.mul_0_r, !Z.add_0_l. cbn [Z.eqb Pos.eqb andb]. by rewrite Hv.
Qed.

(** With the format ['%H:%M'] only the hour and the minute come from the
    text. *)
Lemma strptime_HM s d :
  strptime s "%H:%M" = Ok d → on_default_date d ∧ second d = 0.
Proof.
  unfold strptime.
  change (compile_format "%H:%M") with [FDir "H"; FLit ":"; FDir "M"].
  destruct (match_items _ s) as [|[caps rest] tl] eqn:E; [done|].
  assert (∃ a b, caps = [("H"%char, a); ("M"%char, b)]) as (a & b & ->).
  { assert (Hin : (caps, rest) ∈ match_items [FDir "H"; FLit ":"; FDir "M"] s)
      by (rewrite E; by left).
    cbn [match_items] in Hin.
    change (directive "H") with
      (Some [[CChar "2"; CRange "0" "3"]; [CRange "0" "1"; CDigit]; [CDigit]]) in Hin.
    change (directive "M") with (Some [[CRange "0" "5"; CDigit]; [CDigit]]) in Hin.
    apply list_elem_of_In, in_flat_map in Hin as ([cap r1] & _ & Hin).
    apply in_map_iff in Hin as ([caps1 r2] & Heq & Hin). simplify_eq.
    destruct r1 as [|c r1]; [done|]. destruct (Ascii.eqb ":" c); [|done].
    apply in_flat_map in Hin as ([cap2 r3] & _ & Hin).
    apply in_map_iff in Hin as ([caps2 r4] & Heq & Hin). simplify_eq.
    destruct Hin as [Hin|[]]. simplify_eq. eauto. }
  destruct rest; [|done].
  cbn [group Ascii.eqb Bool.eqb default from_option id Z.eqb andb].
  case_match; [|done]. intros [= <-]. by cbn.
Qed.

(** ** The transaction of [insert_data] *)

Section RuntimeFacts.
Context {Params Row : Type} {MT : MergeTable Params Row}.
Context (E : env Params Row) {X : Type} (bind_row : X → result Params).

Lemma accepted_spec w xs stmts w' :
  accepted E bind_row w xs stmts w' →
  committed w' = committed w ∧
  working w' = merge_all stmts (working w) ∧
  trace w' = trace w ++ (Execute <$> stmts.*2) ∧
  Forall2 (λ x p, bind_row x = Ok p) xs stmts.*2.
Proof.
  induction 1 as [w|w x p xs stmts w' Hb Hs Hacc (IH1 & IH2 & IH3 & IH4)]; simpl.
  - by rewrite app_nil_r.
  - rewrite IH1, IH2, IH3. simpl. rewrite <- app_assoc. auto.
Qed.

Lemma loop_accepted w xs stmts w' :
  accepted E bind_row w xs stmts w' → loop E bind_row xs w = (Ok (), w').
Proof.
  induction 1 as [w|w x p xs stmts w' Hb Hs Hacc IH]; [done|].
  unfold loop in *. cbn [for_each]. unfold mbind at 1, M_bind.
  unfold mbind at 1, M_bind, lift, cursor_execute. rewrite Hb, Hs. apply IH.
Qed.

Lemma loop_fails w pre stmts w1 x e w2 post :
  accepted E bind_row w pre stmts w1 → row_fails E bind_row w1 x e w2 →
  loop E bind_row (pre ++ x :: post) w = (Raise e, w2).
Proof.
  induction 1 as [w|w y p ys stmts w' Hb Hs Hacc IH]; intros Hf.
  - unfold loop. cbn [app for_each]. unfold mbind at 1, M_bind.
    unfold mbind at 1, M_bind, lift, cursor_execute.
    destruct Hf as [e Hm|p e Hm He]; rewrite Hm; [done|]. by rewrite He.
  - unfold loop in *. cbn [app for_each]. unfold mbind at 1, M_bind.
    unfold mbind at 1, M_bind, lift, cursor_execute. rewrite Hb, Hs. by apply IH.
Qed.

(** Every run of the loop E bind_row is of one of these two kinds. *)
Lemma loop_cases data w :
  (∃ stmts w', accepted E bind_row w data stmts w' ∧ loop E bind_row data w = (Ok (), w')) ∨
  (∃ pre x post stmts w1 e w2,
      data = pre ++ x :: post ∧ accepted E bind_row w pre stmts w1 ∧ row_fails E bind_row w1 x e w2 ∧
      loop E bind_row data w = (Raise e, w2)).
Proof.
  revert w. induction data as [|x xs IH]; intros w.
  { left. exists [], w. split; [constructor|done]. }
  destruct (bind_row x) as [p|e] eqn:Hb.
  2:{ right. exists [], x, xs, [], w, e, w.
      split; [done|]. split; [constructor|].
      assert (row_fails E bind_row w x e w) by (by constructor).
      split; [done|]. apply (loop_fails w [] [] w x e w xs); [constructor|done]. }
  destruct (stmt_error E w p) as [e|] eqn:Hs.
  { right. exists [], x, xs, [], w, e, (issue w p).
    split; [done|]. split; [constructor|].
    assert (row_fails E bind_row w x e (issue w p)) by (by econstructor).
    split; [done|]. apply (loop_fails w [] [] w x e (issue w p) xs); [constructor|done]. }
  destruct (IH (apply_stmt E w p)) as
    [(stmts & w' & Hacc & Hl)|(pre & y & post & stmts & w1 & e & w2 & -> & Hacc & Hf & Hl)].
  - left. exists ((getdate E w, p) :: stmts), w'.
    assert (accepted E bind_row w (x :: xs) ((getdate E w, p) :: stmts) w') by (by constructor).
    split; [done|]. by eapply loop_accepted.
  - right. exists (x :: pre), y, post, ((getdate E w, p) :: stmts), w1, e, w2.
    assert (accepted E bind_row w (x :: pre) ((getdate E w, p) :: stmts) w1) by (by constructor).
    split; [done|]. split; [done|]. split; [done|].
    by eapply (loop_fails w (x :: pre)).
Qed.

Lemma row_fails_spec w x e w2 :
  row_fails E bind_row w x e w2 →
  committed w2 = committed w ∧ working w2 = working w ∧
  ((bind_row x = Raise e ∧ trace w2 = trace w) ∨
   (∃ p, bind_row x = Ok p ∧ stmt_error E w p = Some e ∧ trace w2 = trace w ++ [Execute p])).
Proof. destruct 1; simpl; eauto 10. Qed.

(** *** The transaction *)

(** All rows accepted E bind_row and the commit goes through. *)
Lemma transact_commits data w stmts w1 :
  accepted E bind_row w data stmts w1 → commit_error E w1 = None →
  transact E bind_row data w =
    (Ok (), {| committed := working w1; working := working w1;
               trace := trace w1 ++ ok_tail (length data) |}).
Proof.
  intros Hacc Hc. apply loop_accepted in Hacc.
  unfold transact, try_finally, try_except. fold (loop E bind_row data).
  unfold mbind at 1, M_bind. unfold mbind at 1, M_bind. rewrite Hacc.
  unfold conn_commit. rewrite Hc. unfold logging, cursor_close, emit. simpl.
  by rewrite <- !app_assoc.
Qed.

(** All rows accepted E bind_row but the commit fails. *)
Lemma transact_commit_fails data w stmts w1 e :
  accepted E bind_row w data stmts w1 → commit_error E w1 = Some e →
  transact E bind_row data w =
    (Raise e, {| committed := committed w1; working := committed w1;
                 trace := trace w1 ++ error_tail e |}).
Proof.
  intros Hacc Hc. apply loop_accepted in Hacc.
  unfold transact, try_finally, try_except. fold (loop E bind_row data).
  unfold mbind at 1, M_bind. unfold mbind at 1, M_bind. rewrite Hacc.
  unfold conn_commit. rewrite Hc. unfold conn_rollback, logging, cursor_close, emit, raise.
  simpl. by rewrite <- !app_assoc.
Qed.

(** A row fails: nothing is committed, the open transaction is undone. *)
Lemma transact_row_fails w pre stmts w1 x e w2 post :
  accepted E bind_row w pre stmts w1 → row_fails E bind_row w1 x e w2 →
  transact E bind_row (pre ++ x :: post) w =
    (Raise e, {| committed := committed w2; working := committed w2;
                 trace := trace w2 ++ error_tail e |}).
Proof.
  intros Hacc Hf. pose proof (loop_fails _ _ _ _ _ _ _ post Hacc Hf) as Hl.
  unfold transact, try_finally, try_except. fold (loop E bind_row (pre ++ x :: post)).
  unfold mbind at 1, M_bind. unfold mbind at 1, M_bind. rewrite Hl.
  unfold conn_rollback, logging, cursor_close, emit, raise.
  simpl. by rewrite <- !app_assoc.
Qed.

Lemma transact_cases data w :
  (∃ stmts w1, accepted E bind_row w data stmts w1 ∧ commit_error E w1 = None ∧
     transact E bind_row data w =
       (Ok (), {| committed := working w1; working := working w1;
                  trace := trace w1 ++ ok_tail (length data) |})) ∨
  (∃ stmts w1 e, accepted E bind_row w data stmts w1 ∧ commit_error E w1 = Some e ∧
     transact E bind_row data w =
       (Raise e, {| committed := committed w1; working := committed w1;
                    trace := trace w1 ++ error_tail e |})) ∨
  (∃ pre x post stmts w1 e w2,
     data = pre ++ x :: post ∧ accepted E bind_row w pre stmts w1 ∧ row_fails E bind_row w1 x e w2 ∧
     transact E bind_row data w =
       (Raise e, {| committed := committed w2; working := committed w2;
                    trace := trace w2 ++ error_tail e |})).
Proof.
  destruct (loop_cases data w) as
    [(stmts & w1 & Hacc & _)|(pre & x & post & stmts & w1 & e & w2 & -> & Hacc & Hf & _)].
  - destruct (commit_error E w1) as [e|] eqn:Hc.
    + right; left. exists stmts, w1, e. eauto using transact_commit_fails.
    + left. exists stmts, w1. eauto using transact_commits.
  - right; right. exists pre, x, post, stmts, w1, e, w2.
    eauto 6 using transact_row_fails.
Qed.

(** An exception leaves the durable table as it was. *)
Lemma transact_raise data w e w' :
  transact E bind_row data w = (Raise e, w') →
  committed w' = committed w ∧ working w' = committed w ∧
  Commit ∉ drop (length (trace w)) (trace w').
Proof.
  assert (Hex : ∀ ps : list Params, Commit ∉ Execute <$> ps).
  { intros ps. rewrite list_elem_of_fmap. intros (q & Hq & _). done. }
  assert (Hno : ∀ e0, @Commit Params ∉ error_tail e0).
  { intros e0 H. unfold error_tail in H. rewrite !elem_of_cons, elem_of_nil in H.
    destruct H as [?|[?|[?|?]]]; done. }
  intros Ht.
  destruct (transact_cases data w) as
    [(stmts & w1 & Hacc & _ & Heq)|[(stmts & w1 & e1 & Hacc & _ & Heq)|
     (pre & x & post & stmts & w1 & e1 & w2 & -> & Hacc & Hf & Heq)]];
    rewrite Heq in Ht; simplify_eq; simpl;
    apply accepted_spec in Hacc as (Hc & _ & Htr & _).
  - rewrite Hc, Htr. split; [done|]. split; [done|].
    rewrite <- app_assoc, drop_app_length, elem_of_app.
    intros [?|?]; [by eapply Hex|by eapply Hno].
  - apply row_fails_spec in Hf as (Hc2 & _ & [[_ Htr2]|(q & _ & _ & Htr2)]);
      rewrite Hc2, Hc, Htr2, Htr; (split; [done|]); (split; [done|]);
      rewrite <- !app_assoc, drop_app_length, !elem_of_app.
    + intros [?|?]; [by eapply Hex|by eapply Hno].
    + intros [?|[H|?]]; [by eapply Hex| |by eapply Hno].
      apply list_elem_of_singleton in H. done.
Qed.

(** A normal return means every row went through and was committed. *)
Lemma transact_ok data w u w' :
  transact E bind_row data w = (Ok u, w') →
  ∃ stmts, Forall2 (λ x p, bind_row x = Ok p) data stmts.*2 ∧
           committed w' = merge_all stmts (working w) ∧
           working w' = committed w' ∧
           trace w' = trace w ++ (Execute <$> stmts.*2) ++ ok_tail (length data).
Proof.
  intros Ht.
  destruct (transact_cases data w) as
    [(stmts & w1 & Hacc & _ & Heq)|[(stmts & w1 & e1 & Hacc & _ & Heq)|
     (pre & x & post & stmts & w1 & e1 & w2 & -> & Hacc & Hf & Heq)]];
    rewrite Heq in Ht; simplify_eq; simpl.
  apply accepted_spec in Hacc as (Hc & Hw & Htr & HF).
  exists stmts. rewrite Hw, Htr, <- app_assoc. auto.
Qed.

End RuntimeFacts.

(** ** What a call of [insert_data] does to the table *)

Section BatchFacts.
Context {Params Row : Type} {MT : MergeTable Params Row} {ML : MergeLaws MT}.
Context (E : env Params Row) {X : Type} (bind_row : X → result Params).

Lemma bound_params_unique (data : list X) (ps qs : list Params) :
  Forall2 (λ x p, bind_row x = Ok p) data ps →
  Forall2 (λ x p, bind_row x = Ok p) data qs → ps = qs.
Proof.
  intros H. revert qs. induction H as [|x p xs ps Hx _ IH]; intros qs Hq.
  - by inversion Hq.
  - inversion Hq as [|? q ? qs' Hx' Hq']; subst. f_equal; [congruence|by apply IH].
Qed.

Lemma bound_params_elem (data : list X) (ps : list Params) p :
  Forall2 (λ x p, bind_row x = Ok p) data ps → p ∈ ps →
  ∃ x, x ∈ data ∧ bind_row x = Ok p.
Proof.
  induction 1 as [|x q xs qs Hx _ IH]; intros Hp.
  - by apply elem_of_nil in Hp.
  - apply elem_of_cons in Hp as [->|Hp].
    + exists x. split; [by left|done].
    + destruct (IH Hp) as (y & Hy & Hb). exists y. split; [by right|done].
Qed.

(** The table a call leaves is the table it found, or the batch merged
    into it. *)
Lemma transact_committed data w :
  working w = committed w →
  let w' := (transact E bind_row data w).2 in
  working w' = committed w' ∧
  (committed w' = committed w ∨
   ∃ stmts, (transact E bind_row data w).1 = Ok () ∧
            Forall2 (λ x p, bind_row x = Ok p) data stmts.*2 ∧
            committed w' = merge_all stmts (committed w)).
Proof.
  intros Hw. destruct (transact E bind_row data w) as [[[]|e] w'] eqn:Ht; simpl.
  - apply transact_ok in Ht as (stmts & HF & Hc & Hwk & _).
    split; [done|]. right. exists stmts. by rewrite Hc, Hw.
  - apply transact_raise in Ht as (Hc & Hwk & _). split; [congruence|by left].
Qed.

Lemma transact_settles data w u w' :
  transact E bind_row data w = (Ok u, w') → settled bind_row data w'.
Proof.
  intros Ht. apply transact_ok in Ht as (stmts & HF & Hc & Hwk & _).
  split; [done|]. by exists stmts, (working w).
Qed.

Lemma transact_settled data v :
  (∀ x p, x ∈ data → bind_row x = Ok p → source_key p ≠ VNone) →
  settled bind_row data v →
  let v' := (transact E bind_row data v).2 in
  settled bind_row data v' ∧ erase <$> committed v' = erase <$> committed v.
Proof.
  intros Hkey (Hw & stmts & T0 & HF & Hc).
  destruct (transact E bind_row data v) as [[[]|e] v'] eqn:Ht; simpl.
  - pose proof (transact_settles _ _ _ _ Ht) as Hs. split; [done|].
    apply transact_ok in Ht as (stmts2 & HF2 & Hc2 & _ & _).
    rewrite Hc2, Hw, Hc. apply merge_all_twice.
    + eapply bound_params_unique; eauto.
    + intros p Hp. destruct (bound_params_elem _ _ _ HF Hp) as (x & Hx & Hb). eauto.
  - apply transact_raise in Ht as (Hc' & Hwk & _). split; [|by rewrite Hc'].
    split; [congruence|]. exists stmts, T0. split; [done|congruence].
Qed.

(** After one successful run, any number of further runs of the same
    batch leaves every row as it is, server columns apart. *)
Lemma transact_idempotent data w n :
  (∀ x p, x ∈ data → bind_row x = Ok p → source_key p ≠ VNone) →
  (transact E bind_row data w).1 = Ok () →
  let run := λ v, (transact E bind_row data v).2 in
  erase <$> committed (Nat.iter (S n) run w) = erase <$> committed (run w).
Proof.
  intros Hkey Hok run.
  assert (settled bind_row data (Nat.iter (S n) run w) ∧
          erase <$> committed (Nat.iter (S n) run w) = erase <$> committed (run w)) as [_ ?];
    [|done].
  induction n as [|n [IHs IHe]].
  - split; [|done]. simpl. unfold run.
    destruct (transact E bind_row data w) as [[[]|e] w1] eqn:Ht; [|done].
    eapply transact_settles; eauto.
  - destruct (transact_settled data _ Hkey IHs) as [Hs He].
    change (Nat.iter (S (S n)) run w) with (run (Nat.iter (S n) run w)).
    split; [exact Hs|]. unfold run at 1. by rewrite He.
Qed.

(** Keys stay unique. *)
Lemma transact_unique_keys data w :
  working w = committed w → unique_keys (committed w) →
  unique_keys (committed (transact E bind_row data w).2).
Proof.
  intros Hw HU. destruct (transact_committed data w Hw) as [_ [->|(stmts & _ & _ & ->)]];
    [done|by apply merge_all_unique_keys].
Qed.

(** The last row of the batch with a given key decides the row of the
    table with that key. *)
Lemma transact_last_wins data w u w' pre x post q :
  transact E bind_row data w = (Ok u, w') →
  data = pre ++ x :: post → bind_row x = Ok q → source_key q ≠ VNone →
  (∀ y q', y ∈ post → bind_row y = Ok q' → source_key q' ≠ source_key q) →
  (∃ i r, committed w' !! i = Some r ∧ on_match q r = true) ∧
  (∀ i r, committed w' !! i = Some r → on_match q r = true → erase r = written q).
Proof.
  intros Ht -> Hb Hk Hlast.
  apply transact_ok in Ht as (stmts & HF & Hc & _ & _). rewrite Hc.
  apply Forall2_app_inv_l in HF as (ps1 & ps2 & HF1 & HF2 & Hst).
  inversion HF2 as [|? q0 ? ps3 Hq0 HF3]; subst.
  assert (q0 = q) as -> by congruence.
  split.
  - apply existsb_on_match, merge_all_covers; [|done].
    rewrite Hst. apply elem_of_app. right. by left.
  - intros i r Hi Hm. eapply merge_all_last_wins; eauto.
    intros q' Hq'. destruct (bound_params_elem _ _ _ HF3 Hq') as (y & Hy & Hby). eauto.
Qed.

(** Rows are never removed; a row no statement of the batch matches is
    untouched; a row that is matched keeps its key; a new row carries a key
    of the batch that the table did not have. *)
Lemma transact_frame data w :
  working w = committed w →
  let w' := (transact E bind_row data w).2 in
  (length (committed w) ≤ length (committed w'))%nat ∧
  (∀ i r, committed w !! i = Some r →
     ∃ r', committed w' !! i = Some r' ∧ target_key r' = target_key r ∧
           ((∀ x p, x ∈ data → bind_row x = Ok p → on_match p r = false) → r' = r)) ∧
  (∀ i r', committed w' !! i = Some r' → (length (committed w) ≤ i)%nat →
     ∃ x p, x ∈ data ∧ bind_row x = Ok p ∧ target_key r' = source_key p ∧
            existsb (on_match p) (committed w) = false).
Proof.
  intros Hw. destruct (transact_committed data w Hw) as [_ [Heq|(stmts & _ & HF & Heq)]];
    simpl; rewrite Heq.
  - split; [done|]. split.
    + intros i r Hi. exists r. auto.
    + intros i r' Hi Hge. apply lookup_lt_Some in Hi. lia.
  - split; [apply merge_all_length_le|]. split.
    + intros i r Hi. destruct (merge_all_old_rows stmts _ _ _ Hi) as (r' & Hr' & Hk & Hsame).
      exists r'. split; [done|]. split; [done|]. intros Hno. apply Hsame.
      intros p Hp. destruct (bound_params_elem _ _ _ HF Hp) as (x & Hx & Hb). eauto.
    + intros i r' Hi Hge. destruct (merge_all_new_rows stmts _ _ _ Hi Hge) as (p & Hp & Hk & Hno).
      destruct (bound_params_elem _ _ _ HF Hp) as (x & Hx & Hb). eauto 6.
Qed.

(** Exactly one row carries the key of a row of the batch, and it has the
    content of the last row of the batch with that key. *)
Lemma transact_one_row_per_key data w u w' pre x post q :
  working w = committed w → unique_keys (committed w) →
  transact E bind_row data w = (Ok u, w') →
  data = pre ++ x :: post → bind_row x = Ok q → source_key q ≠ VNone →
  (∀ y q', y ∈ post → bind_row y = Ok q' → source_key q' ≠ source_key q) →
  ∃ i r, committed w' !! i = Some r ∧ target_key r = source_key q ∧
         erase r = written q ∧
         ∀ j r', committed w' !! j = Some r' → target_key r' = source_key q → j = i.
Proof.
  intros Hw HU Ht Hd Hb Hk Hlast.
  pose proof (transact_unique_keys data w Hw HU) as HU'. rewrite Ht in HU'. simpl in HU'.
  destruct (transact_last_wins _ _ _ _ _ _ _ _ Ht Hd Hb Hk Hlast) as [(i & r & Hi & Hm) Hall].
  exists i, r. pose proof Hm as Hm'. apply sql_eq_true in Hm' as [Hkey _].
  split; [done|]. split; [done|]. split; [by eapply Hall|].
  intros j r' Hj Hkey'. eapply HU'; eauto.
  apply sql_eq_true. split; [congruence|]. by rewrite Hkey'.
Qed.

Lemma statements_issued_executes (ps : list Params) :
  statements_issued (Execute <$> ps) = ps.
Proof.
  induction ps as [|p ps IH]; [done|].
  change (statements_issued (Execute <$> p :: ps)) with
    (p :: statements_issued (Execute <$> ps)).
  by rewrite IH.
Qed.

(** A failing row: the call raises its exception, the durable table is the
    one before the call, nothing is pending, no commit happened, and the
    statements issued are those of the rows before it, once each, followed
    by the refused one when the store refused it. *)
Lemma transact_atomic pre x post stmts w w1 e w2 :
  accepted E bind_row w pre stmts w1 → row_fails E bind_row w1 x e w2 →
  ∃ w', transact E bind_row (pre ++ x :: post) w = (Raise e, w') ∧
        committed w' = committed w ∧ working w' = committed w ∧
        (Commit ∉ drop (length (trace w)) (trace w')) ∧
        statements_issued (drop (length (trace w)) (trace w')) =
          (stmts.*2) ++ statements_issued (drop (length (trace w1)) (trace w2)).
Proof.
  intros Hacc Hf. pose proof (transact_row_fails E bind_row _ _ _ _ _ _ _ post Hacc Hf) as Ht.
  eexists. split; [exact Ht|].
  destruct (transact_raise E bind_row _ _ _ _ Ht) as (Hc & Hwk & Hno).
  split; [exact Hc|]. split; [exact Hwk|]. split; [exact Hno|]. simpl.
  apply accepted_spec in Hacc as (_ & _ & Htr & _).
  apply row_fails_spec in Hf as (_ & _ & [[_ Htr2]|(p & _ & _ & Htr2)]);
    rewrite Htr2, ?drop_all, ?drop_app_length, Htr, <- ?app_assoc, drop_app_length;
    unfold statements_issued; rewrite !omap_app;
    fold (statements_issued (Execute <$> stmts.*2));
    rewrite statements_issued_executes; simpl; by rewrite ?app_nil_r.
Qed.


End BatchFacts.

(** ** Which computations reach the notifier *)

Section QuietFacts.
Context {Params Row : Type} {MT : MergeTable Params Row} (E : env Params Row).

Lemma quiet_elim {A} (m : M Params Row A) w r w' :
  quiet m → m w = (r, w') →
  notify_calls (trace w') = notify_calls (trace w) ∧
  smtp_sessions (trace w') = smtp_sessions (trace w).
Proof. intros Hq Hm. specialize (Hq w). by rewrite Hm in Hq. Qed.

Lemma quiet_ret {A} (a : A) : quiet (mret a : M Params Row A).
Proof. by intros w. Qed.

Lemma quiet_lift {A} (r : result A) : quiet (lift r : M Params Row A).
Proof. by intros w. Qed.

Lemma quiet_raise {A} e : quiet (raise e : M Params Row A).
Proof. by intros w. Qed.

Lemma quiet_bind {A B} (m : M Params Row A) (k : A → M Params Row B) :
  quiet m → (∀ a, quiet (k a)) → quiet (m ≫= k).
Proof.
  intros Hm Hk w. unfold mbind, M_bind.
  destruct (m w) as [[a|e] w1] eqn:E1.
  - destruct (quiet_elim m _ _ _ Hm E1) as [<- <-]. apply Hk.
  - by destruct (quiet_elim m _ _ _ Hm E1) as [<- <-].
Qed.

Lemma quiet_try_except {A} (m : M Params Row A) (h : exn → M Params Row A) :
  quiet m → (∀ e, quiet (h e)) → quiet (try_except m h).
Proof.
  intros Hm Hh w. unfold try_except.
  destruct (m w) as [[a|e] w1] eqn:E1.
  - by destruct (quiet_elim m _ _ _ Hm E1) as [<- <-].
  - destruct (quiet_elim m _ _ _ Hm E1) as [<- <-]. apply Hh.
Qed.

Lemma quiet_try_finally {A} (m : M Params Row A) (f : M Params Row ()) :
  quiet m → quiet f → quiet (try_finally m f).
Proof.
  intros Hm Hf w. unfold try_finally.
  destruct (m w) as [r w1] eqn:E1. destruct (f w1) as [[[]|e] w2] eqn:E2;
    destruct (quiet_elim m _ _ _ Hm E1) as [<- <-];
    by destruct (quiet_elim f _ _ _ Hf E2) as [<- <-].
Qed.

Lemma quiet_for_each {X} (xs : list X) (body : X → M Params Row ()) :
  (∀ x, quiet (body x)) → quiet (for_each xs body).
Proof.
  intros Hb. induction xs as [|x xs IH]; [apply quiet_ret|].
  cbn [for_each]. apply quiet_bind; auto.
Qed.

Lemma quiet_emit (ev : event Params) :
  notify_calls [ev] = [] → smtp_sessions [ev] = [] → quiet (emit ev : M Params Row ()).
Proof.
  intros H1 H2 w. unfold emit, notify_calls, smtp_sessions in *. simpl.
  rewrite !omap_app, H1, H2, !app_nil_r. done.
Qed.

Lemma quiet_logging level msg : quiet (logging level msg : M Params Row ()).
Proof. by apply quiet_emit. Qed.

Lemma quiet_cursor_close : quiet (cursor_close : M Params Row ()).
Proof. by apply quiet_emit. Qed.

Lemma quiet_cursor_execute p : quiet (cursor_execute E p).
Proof.
  intros w. unfold cursor_execute, notify_calls, smtp_sessions.
  destruct (stmt_error E w p); simpl; by rewrite !omap_app, !app_nil_r.
Qed.

Lemma quiet_conn_commit : quiet (conn_commit E).
Proof.
  intros w. unfold conn_commit, notify_calls, smtp_sessions.
  destruct (commit_error E w); simpl; [done|]. by rewrite !omap_app, !app_nil_r.
Qed.

Lemma quiet_conn_rollback : quiet (conn_rollback : M Params Row ()).
Proof.
  intros w. unfold conn_rollback, notify_calls, smtp_sessions. simpl.
  by rewrite !omap_app, !app_nil_r.
Qed.

Lemma quiet_get_database_connection : quiet (get_database_connection E).
Proof.
  apply quiet_try_except.
  - intros w. by destruct (connect_error E w).
  - intros e. apply quiet_bind; [apply quiet_logging|]. intros _. apply quiet_raise.
Qed.

Lemma quiet_with_connection {A} (body : M Params Row A) :
  quiet body → quiet (with_connection E body).
Proof.
  intros Hb. apply quiet_bind; [apply quiet_get_database_connection|].
  intros _ w. destruct (body w) as [[a|e] w1] eqn:E1;
    destruct (quiet_elim body _ _ _ Hb E1) as [<- <-].
  - apply quiet_bind; [apply quiet_conn_commit|]. intros _. apply quiet_ret.
  - apply quiet_bind; [apply quiet_conn_rollback|]. intros _. apply quiet_raise.
Qed.

Lemma quiet_transact {X} (bind_row : X → result Params) data :
  quiet (transact E bind_row data).
Proof.
  apply quiet_try_finally; [|apply quiet_cursor_close].
  apply quiet_try_except.
  - apply quiet_bind.
    + apply quiet_for_each. intros x.
      apply quiet_bind; [apply quiet_lift|apply quiet_cursor_execute].
    + intros _. apply quiet_bind; [apply quiet_conn_commit|].
      intros _. apply quiet_logging.
  - intros e. apply quiet_bind; [apply quiet_conn_rollback|].
    intros _. apply quiet_bind; [apply quiet_logging|]. intros _. apply quiet_raise.
Qed.

(** The connection [sync_data] hands to [insert_data] has nothing
    pending. *)
Lemma get_database_connection_fresh w u w' :
  get_database_connection E w = (Ok u, w') →
  working w' = committed w' ∧ committed w' = committed w.
Proof.
  unfold get_database_connection, try_except.
  destruct (connect_error E w) as [e|]; [|by intros [= <- <-]].
  unfold mbind, M_bind, logging, emit, raise. discriminate.
Qed.

End QuietFacts.

(** ** [main.py] *)

Section HarvestFacts.
Import Harvest.

#[global] Instance harvests_laws : MergeLaws harvests.
Proof.
  split; try done.
  intros t p r Hm. apply sql_eq_true in Hm as [Hid _]. simpl in Hid.
  unfold erase, update_set, insert_values; simpl.
  unfold without_insert_date, when_matched, when_not_matched; simpl. by rewrite Hid.
Qed.

Lemma harvest_insert_data_transact E data :
  insert_data E data = transact E bind_params data.
Proof. reflexivity. Qed.

Lemma getitem_ok record key v : getitem record key = Ok v ↔ record !! key = Some v.
Proof. unfold getitem. destruct (record !! key); split; congruence. Qed.

Lemma getitem_raise record key e :
  getitem record key = Raise e ↔ record !! key = None ∧ e = KeyError key.
Proof.
  unfold getitem. destruct (record !! key); split;
    [done|intros [? _]; done|intros [= <-]; done|intros [_ ->]; done].
Qed.

Lemma strptime_value_ok v format d :
  strptime_value v format = Ok d ↔ ∃ s, v = VStr s ∧ strptime s format = Ok d.
Proof.
  destruct v; simpl; split; try done; try (intros (s0 & ? & _); done).
  - eauto.
  - intros (s0 & [= <-] & ?). done.
Qed.

(** When the parameters bind, and what they are. *)
Lemma bind_params_ok record p :
  bind_params record = Ok p ↔
  ∃ s1 d1 s2 d2 s3 d3,
    record !! "harvest_date" = Some (VStr s1) ∧ strptime s1 "%Y-%m-%d %H:%M:%S" = Ok d1 ∧
    record !! "start_time" = Some (VStr s2) ∧ strptime s2 "%H:%M" = Ok d2 ∧
    record !! "end_time" = Some (VStr s3) ∧ strptime s3 "%H:%M" = Ok d3 ∧
    record !! "id" = Some (p_id p) ∧ record !! "farm" = Some (p_farm p) ∧
    record !! "plot" = Some (p_plot p) ∧ record !! "produce" = Some (p_produce p) ∧
    record !! "worker" = Some (p_worker p) ∧ record !! "unit" = Some (p_unit p) ∧
    record !! "duration" = Some (p_duration p) ∧
    record !! "containers" = Some (p_containers p) ∧
    record !! "kgs_harvested" = Some (p_kgs_harvested p) ∧
    p_harvest_date p = strftime d1 "%Y-%m-%d %H:%M:%S" ∧
    p_start_time p = strftime d2 "%H:%M:%S" ∧
    p_end_time p = strftime d3 "%H:%M:%S".
Proof.
  unfold bind_params. split.
  - intros Hb.
    repeat match type of Hb with
    | (mbind _ ?r) = Ok _ =>
        let a := fresh "a" in let Ha := fresh "Ha" in
        destruct r as [a|?] eqn:Ha; [cbn [mbind result_bind] in Hb|discriminate Hb]
    end.
    cbn [mret result_ret] in Hb. injection Hb as <-. simpl.
    repeat match goal with
    | H : getitem _ _ = Ok _ |- _ => apply getitem_ok in H
    | H : strptime_value _ _ = Ok _ |- _ => apply strptime_value_ok in H as (? & -> & H)
    end.
    eauto 25.
  - intros (s1 & d1 & s2 & d2 & s3 & d3 & H1 & P1 & H2 & P2 & H3 & P3 &
            Hid & Hfarm & Hplot & Hprod & Hwork & Hunit & Hdur & Hcont & Hkgs & E1 & E2 & E3).
    unfold getitem. rewrite H1, H2, H3, Hid, Hfarm, Hplot, Hprod, Hwork, Hunit, Hdur, Hcont, Hkgs.
    cbn [mbind result_bind strptime_value]. rewrite P1. cbn [mbind result_bind].
    rewrite P2. cbn [mbind result_bind]. rewrite P3. cbn [mbind result_bind mret result_ret].
    destruct p; simpl in *. by subst.
Qed.

Lemma bind_params_id record p : bind_params record = Ok p → record !! "id" = Some (p_id p).
Proof.
  intros H. apply bind_params_ok in H as (?&?&?&?&?&?&_&_&_&_&_&_&Hid&_). exact Hid.
Qed.

Lemma canonical_datetime_text s d :
  strptime s "%Y-%m-%d %H:%M:%S" = Ok d →
  canonical_text "%Y-%m-%d %H:%M:%S" (strftime d "%Y-%m-%d %H:%M:%S").
Proof.
  intros Hp. exists d. split; [|done]. by eapply strptime_strftime, strptime_valid.
Qed.

Lemma canonical_time_text s d :
  strptime s "%H:%M" = Ok d → canonical_text "%H:%M:%S" (strftime d "%H:%M:%S").
Proof.
  intros Hp. exists d. split; [|done]. apply strptime_strftime_time.
  - by eapply strptime_valid.
  - by eapply strptime_HM.
Qed.

Lemma valid_raw_binds record :
  valid_raw record →
  ∃ p, bind_params record = Ok p ∧ dates_canonical p ∧ passed_through record p.
Proof.
  intros (Hall & (s1 & d1 & H1 & P1) & (s2 & d2 & H2 & P2) & (s3 & d3 & H3 & P3)).
  assert (Hget : ∀ key, key ∈ required_fields → ∃ v, record !! key = Some v).
  { intros key Hk. destruct (Hall key Hk) as [v Hv]. eauto. }
  unfold required_fields in Hget.
  destruct (Hget "id") as [v_id Hid]; [repeat constructor|].
  destruct (Hget "farm") as [v_farm Hfarm]; [repeat constructor|].
  destruct (Hget "plot") as [v_plot Hplot]; [repeat constructor|].
  destruct (Hget "produce") as [v_prod Hprod]; [repeat constructor|].
  destruct (Hget "worker") as [v_work Hwork]; [repeat constructor|].
  destruct (Hget "unit") as [v_unit Hunit]; [repeat constructor|].
  destruct (Hget "duration") as [v_dur Hdur]; [repeat constructor|].
  destruct (Hget "containers") as [v_cont Hcont]; [repeat constructor|].
  destruct (Hget "kgs_harvested") as [v_kgs Hkgs]; [repeat constructor|].
  exists {| p_id := v_id; p_farm := v_farm; p_plot := v_plot; p_produce := v_prod;
            p_worker := v_work; p_unit := v_unit;
            p_harvest_date := strftime d1 "%Y-%m-%d %H:%M:%S";
            p_start_time := strftime d2 "%H:%M:%S";
            p_end_time := strftime d3 "%H:%M:%S";
            p_duration := v_dur; p_containers := v_cont; p_kgs_harvested := v_kgs |}.
  split; [|split].
  - apply bind_params_ok. exists s1, d1, s2, d2, s3, d3. simpl.
    repeat split; first [assumption|reflexivity].
  - unfold dates_canonical. cbn [p_harvest_date p_start_time p_end_time].
    split; [|split].
    + by eapply canonical_datetime_text.
    + by eapply canonical_time_text.
    + by eapply canonical_time_text.
  - unfold passed_through. simpl. repeat split; assumption.
Qed.

Lemma binds_valid_raw record p : bind_params record = Ok p → valid_raw record.
Proof.
  intros H. apply bind_params_ok in H as
    (s1 & d1 & s2 & d2 & s3 & d3 & H1 & P1 & H2 & P2 & H3 & P3 &
     Hid & Hfarm & Hplot & Hprod & Hwork & Hunit & Hdur & Hcont & Hkgs & _).
  split; [|split; [|split]]; [|by exists s1, d1|by exists s2, d2|by exists s3, d3].
  intros key Hk. unfold required_fields in Hk.
  repeat (apply elem_of_cons in Hk as [->|Hk]; [eauto|]). by apply elem_of_nil in Hk.
Qed.

Lemma fetch_api_data_spec get start_date end_date (w : world params row) :
  fetch_api_data get start_date end_date w =
    match get (date_strftime start_date "%Y-%m-%d") (date_strftime end_date "%Y-%m-%d") with
    | Ok data => (Ok data, w)
    | Raise e => (Raise e, {| committed := committed w; working := working w;
                              trace := trace w ++ [Log ERROR ("API fetch error: " +:+ str_exn e)] |})
    end.
Proof. unfold fetch_api_data, try_except, lift. by destruct (get _ _). Qed.

Lemma quiet_fetch_api_data get start_date end_date :
  quiet (fetch_api_data get start_date end_date).
Proof.
  apply quiet_try_except; [apply quiet_lift|].
  intros e. apply quiet_bind; [apply quiet_logging|]. intros _. apply quiet_raise.
Qed.

(** [send_email_notification] always returns, and counts as one call. *)
Lemma send_email_notification_returns E cfg success start_date end_date msg n w :
  ∃ w', send_email_notification E cfg success start_date end_date msg n w = (Ok (), w') ∧
        notify_calls (trace w') =
          notify_calls (trace w) ++ [CallNotify success start_date end_date msg n] ∧
        committed w' = committed w.
Proof.
  unfold send_email_notification. unfold mbind at 1, M_bind. cbn [emit].
  destruct (negb _).
  - eexists. split; [reflexivity|]. cbn. unfold notify_calls.
    rewrite <- app_assoc, omap_app. done.
  - unfold try_except, mbind, M_bind, logging, emit, raise. cbn.
    destruct (smtp_error E _ _); cbn; eexists; (split; [reflexivity|]); cbn;
      unfold notify_calls; rewrite <- !app_assoc, omap_app; done.
Qed.

(** Without the full configuration the call logs a warning and stops. *)
Lemma send_email_notification_unconfigured E cfg success start_date end_date msg n w :
  EMAIL_SENDER cfg = None ∨ EMAIL_PASSWORD cfg = None ∨ EMAIL_RECIPIENT cfg = None →
  send_email_notification E cfg success start_date end_date msg n w =
    (Ok (), {| committed := committed w; working := working w;
               trace := trace w ++
                 [CallNotify success start_date end_date msg n;
                  Log WARNING "Email configuration missing. Skipping email notification."] |}).
Proof.
  intros Hcfg. unfold send_email_notification. unfold mbind at 1, M_bind. cbn [emit].
  assert (forallb truthy [EMAIL_SENDER cfg; EMAIL_PASSWORD cfg; EMAIL_RECIPIENT cfg] = false)
    as ->.
  { cbn [forallb]. destruct Hcfg as [H|[H|H]]; rewrite H; cbn [truthy];
      rewrite ?andb_false_r; reflexivity. }
  cbn. unfold logging, emit. cbn. by rewrite <- app_assoc.
Qed.

(** Every run of [sync_data] is a stretch that does not touch the notifier
    followed by one call of [send_email_notification], whose return is the
    return of the run. *)
Lemma sync_data_shape E get cfg start_date end_date w :
  let s := default (today E) start_date in
  let e := default (today E) end_date in
  ∃ w1 success msg n,
    notify_calls (trace w1) = notify_calls (trace w) ∧
    smtp_sessions (trace w1) = smtp_sessions (trace w) ∧
    sync_data E get cfg start_date end_date w =
      send_email_notification E cfg success s e msg n w1 ∧
    ((success = true ∧ msg = None ∧
      ∃ data, get (date_strftime s "%Y-%m-%d") (date_strftime e "%Y-%m-%d") = Ok data ∧
              n = length data) ∨
     (success = false ∧ ∃ err, msg = Some (str_exn err))).
Proof.
  intros s e. unfold sync_data. fold s e.
  destruct (fetch_api_data get s e w) as [[data|err] w0] eqn:Hf.
  - pose proof (quiet_elim _ _ _ _ (quiet_fetch_api_data get s e) Hf) as [Hn0 Hs0].
    assert (Hget : get (date_strftime s "%Y-%m-%d") (date_strftime e "%Y-%m-%d") = Ok data).
    { rewrite fetch_api_data_spec in Hf. destruct (get _ _); by simplify_eq. }
    unfold mbind at 1, M_bind.
    destruct (with_connection E (insert_data E data) w0) as [[[]|err] wa] eqn:Hc;
      pose proof (quiet_elim _ _ _ _
        (quiet_with_connection E _ (quiet_transact E bind_params data)) Hc) as [Hna Hsa].
    + unfold mbind at 1, M_bind. cbn [logging emit].
      match goal with |- context [send_email_notification E cfg true s e None ?k ?v] =>
        destruct (send_email_notification_returns E cfg true s e None k v)
          as (w2 & Hsend & _);
        exists v, true, None, k
      end.
      rewrite Hsend. cbn [trace]. unfold notify_calls, smtp_sessions in *.
      rewrite !omap_app, Hna, Hsa, Hn0, Hs0, !app_nil_r.
      split; [done|]. split; [done|]. split; [done|]. left. eauto.
    + unfold mbind at 1, M_bind. cbn [logging emit].
      match goal with |- context [send_email_notification E cfg false s e ?m ?k ?v] =>
        exists v, false, m, k
      end.
      cbn [trace]. unfold notify_calls, smtp_sessions in *.
      rewrite !omap_app, Hna, Hsa, Hn0, Hs0, !app_nil_r.
      split; [done|]. split; [done|]. split; [done|]. right. eauto.
  - pose proof (quiet_elim _ _ _ _ (quiet_fetch_api_data get s e) Hf) as [Hn0 Hs0].
    unfold mbind at 1, M_bind. cbn [logging emit].
    match goal with |- context [send_email_notification E cfg false s e ?m ?k ?v] =>
      exists v, false, m, k
    end.
    cbn [trace]. unfold notify_calls, smtp_sessions in *.
    rewrite !omap_app, Hn0, Hs0, !app_nil_r.
    split; [done|]. split; [done|]. split; [done|]. right. eauto.
Qed.

End HarvestFacts.

(** ** [get_tvn.py] *)

Section TvnFacts.
Import Tvn.

#[global] Instance tracefruit_harvest_laws : MergeLaws tracefruit_harvest.
Proof.
  split; try done.
  intros t p r Hm. apply sql_eq_true in Hm as [Hd _]. simpl in Hd.
  unfold erase, update_set, insert_values; simpl.
  unfold when_matched, when_not_matched. by rewrite Hd.
Qed.

Lemma tvn_insert_data_transact E df : insert_data E df = transact E bind_params df.
Proof. reflexivity. Qed.

(** The key of a statement is a date text, never a null. *)
Lemma tvn_source_key p : source_key p ≠ VNone.
Proof. done. Qed.

Lemma in_columns_false col (rows : list (gmap string value)) :
  in_columns col rows = false ↔ ∀ r, r ∈ rows → r !! col = None.
Proof.
  unfold in_columns. split.
  - intros Hno r Hr. destruct (r !! col) as [v|] eqn:Hv; [|done].
    assert (existsb (λ r, bool_decide (is_Some (r !! col))) rows = true); [|congruence].
    apply existsb_exists. exists r. split; [by apply list_elem_of_In|].
    apply bool_decide_eq_true. by rewrite Hv.
  - intros Hall. destruct (existsb _ rows) eqn:Hex; [|done].
    apply existsb_exists in Hex as (r & Hr & Hs).
    apply bool_decide_eq_true in Hs. rewrite (Hall r) in Hs by (by apply list_elem_of_In).
    by destruct Hs.
Qed.


Lemma quiet_get_supabase_data S start_date end_date :
  quiet (get_supabase_data S start_date end_date).
Proof.
  apply quiet_try_except.
  - apply quiet_bind; [apply quiet_lift|]. intros [|r rows]; [apply quiet_ret|].
    destruct (filter _ _); [|apply quiet_raise].
    apply quiet_bind; [apply quiet_lift|]. intros dates. apply quiet_ret.
  - intros e. apply quiet_bind; [apply quiet_logging|]. intros _. apply quiet_raise.
Qed.

(** The daily-totals orchestrator never touches the notifier. *)
Lemma quiet_tvn_sync_data E S start_date end_date :
  quiet (sync_data E S start_date end_date).
Proof.
  apply quiet_try_except.
  - apply quiet_bind; [apply quiet_get_supabase_data|]. intros df.
    apply quiet_bind; [apply quiet_with_connection, quiet_transact|].
    intros _. apply quiet_logging.
  - intros e. apply quiet_logging.
Qed.

Lemma tvn_sync_data_returns E S start_date end_date w :
  (sync_data E S start_date end_date w).1 = Ok ().
Proof.
  unfold sync_data, try_except.
  match goal with |- context [match ?m w with _ => _ end] =>
    destruct (m w) as [[[]|e] w1] end; reflexivity.
Qed.

End TvnFacts.

Section HarvestReturns.
Import Harvest.

Lemma harvest_sync_data_returns E get cfg start_date end_date w :
  (sync_data E get cfg start_date end_date w).1 = Ok ().
Proof.
  destruct (sync_data_shape E get cfg start_date end_date w)
    as (w1 & success & msg & n & _ & _ & -> & _).
  match goal with |- context [send_email_notification E cfg ?a ?b ?c ?d ?k ?v] =>
    destruct (send_email_notification_returns E cfg a b c d k v) as (w2 & -> & _) end.
  reflexivity.
Qed.

End HarvestReturns.

(** ** Dates on the command line, times with seconds *)

Lemma strptime_raises_value_error s format e :
  strptime s format = Raise e → ∃ msg, e = ValueError msg.
Proof.
  unfold strptime. destruct (match_items _ _) as [|[caps rest] ?]; [intros [= <-]; eauto|].
  destruct rest; [|intros [= <-]; eauto]. case_match; [done|intros [= <-]; eauto].
Qed.

Lemma valid_date_spec d :
  valid_date d = true ↔
  1 ≤ dyear d ≤ 9999 ∧ 1 ≤ dmonth d ≤ 12 ∧ 1 ≤ dday d ≤ days_in_month (dyear d) (dmonth d).
Proof. unfold valid_date. rewrite !andb_true_iff, !Z.leb_le. tauto. Qed.

Lemma strptime_strftime_date d :
  valid_date d = true →
  strptime (str_date d) "%Y-%m-%d" =
    Ok {| year := dyear d; month := dmonth d; day := dday d;
          hour := 0; minute := 0; second := 0 |}.
Proof.
  intros Hv. pose proof Hv as Hv'. apply valid_date_spec in Hv'.
  destruct d as [y m dd]; simpl in Hv'. destruct Hv' as (Hy & Hm & Hd).
  pose proof (days_in_month_le y m).
  unfold strptime, str_date, date_strftime.
  change (compile_format "%Y-%m-%d") with [FDir "Y"; FLit "-"; FDir "m"; FLit "-"; FDir "d"].
  change (strftime _ "%Y-%m-%d") with
    (pad4 y +:+ String "-" (pad2 m +:+ String "-" (pad2 dd +:+ EmptyString))).
  match goal with |- context [match_items ?it ?str] =>
    assert (head (match_items it str) =
            Some ([("Y"%char, pad4 y); ("m"%char, pad2 m); ("d"%char, pad2 dd)], EmptyString))
      as Hhead
  end.
  { eapply first_match_dir; [reflexivity| rewrite alternatives_Y by lia; reflexivity |].
    apply first_match_lit.
    apply first_match_dir2; [lia | apply alternatives_m; lia |].
    apply first_match_lit.
    apply first_match_dir2; [lia | apply alternatives_d; lia |].
    reflexivity. }
  destruct (match_items _ _) as [|[caps rest] tl]; [done|].
  cbn [head] in Hhead. injection Hhead as -> ->.
  cbn [group Ascii.eqb Bool.eqb default from_option id].
  rewrite int_digits_pad4, !(int_digits_pad2 0) by lia.
  rewrite !Z.mul_0_r, !Z.add_0_l.
  assert (valid_datetime {| year := y; month := m; day := dd;
                            hour := 0; minute := 0; second := 0 |} = true) as ->; [|done].
  apply valid_datetime_spec. simpl. lia.
Qed.

Lemma parse_date_arg_str_date d :
  valid_date d = true → parse_date_arg (Some (str_date d)) = Ok (Some d).
Proof.
  intros Hv. unfold parse_date_arg.
  assert (∃ c r, str_date d = String c r) as (c & r & Heq) by (eexists _, _; reflexivity).
  rewrite Heq. cbn iota. rewrite <- Heq, strptime_strftime_date by done. by destruct d.
Qed.

(** A time printed with its seconds is not a time in ['%H:%M']. *)
Lemma strptime_time_with_seconds d :
  valid_datetime d = true →
  strptime (strftime d "%H:%M:%S") "%H:%M" =
    Raise (ValueError ("unconverted data remains: :" +:+ pad2 (second d))).
Proof.
  intros Hv. apply valid_datetime_spec in Hv.
  destruct d as [y m dd h mi s]; simpl in Hv.
  destruct Hv as (_ & _ & _ & Hh & Hmi & Hs).
  unfold strptime.
  change (compile_format "%H:%M") with [FDir "H"; FLit ":"; FDir "M"].
  change (strftime _ "%H:%M:%S") with
    (pad2 h +:+ String ":" (pad2 mi +:+ String ":" (pad2 s +:+ EmptyString))).
  match goal with |- context [match_items ?it ?str] =>
    assert (head (match_items it str) =
            Some ([("H"%char, pad2 h); ("M"%char, pad2 mi)],
                  String ":" (pad2 s +:+ EmptyString)))
      as Hhead
  end.
  { apply first_match_dir2; [lia | apply alternatives_H; lia |].
    apply first_match_lit.
    apply first_match_dir2; [lia | apply alternatives_M; lia |].
    reflexivity. }
  destruct (match_items _ _) as [|[caps rest] tl]; [done|].
  cbn [head] in Hhead. injection Hhead as -> ->. reflexivity.
Qed.

(** ** The connection block and the runs, case by case *)

Section RunFacts.
Context {Params Row : Type} {MT : MergeTable Params Row}.
Context (E : env Params Row) {X : Type} (bind_row : X → result Params).

Lemma with_events_app (w : world Params Row) evs1 evs2 :
  with_events (with_events w evs1) evs2 = with_events w (evs1 ++ evs2).
Proof. unfold with_events. simpl. by rewrite <- app_assoc. Qed.

(** A handler is not run when the body returns. *)
Lemma try_except_returns {A} (body : M Params Row A) handler w :
  is_ok (body w).1 = true → try_except body handler w = body w.
Proof. unfold try_except. by destruct (body w) as [[a|e] w']. Qed.

Lemma get_database_connection_spec w :
  get_database_connection E w =
    match connect_error E w with
    | Some e => (Raise e, with_events w [Log ERROR ("Database connection error: " +:+ str_exn e)])
    | None => (Ok (), fresh w)
    end.
Proof.
  unfold get_database_connection, try_except. by destruct (connect_error E w).
Qed.

(** Leaving the connection block: the outcome of the block body decides
    between commit and rollback. *)
Lemma with_connection_spec {A} (body : M Params Row A) w :
  with_connection E body w =
    match connect_error E w with
    | Some e => (Raise e, with_events w [Log ERROR ("Database connection error: " +:+ str_exn e)])
    | None =>
        match body (fresh w) with
        | (Ok a, w1) =>
            match commit_error E w1 with
            | Some e => (Raise e, w1)
            | None => (Ok a, {| committed := working w1; working := working w1;
                                trace := trace w1 ++ [Commit] |})
            end
        | (Raise e, w1) => (Raise e, {| committed := committed w1; working := committed w1;
                                        trace := trace w1 ++ [Rollback] |})
        end
    end.
Proof.
  unfold with_connection. unfold mbind at 1, M_bind.
  rewrite get_database_connection_spec.
  destruct (connect_error E w); [done|].
  destruct (body (fresh w)) as [[a|e] w1]; [|done].
  unfold mbind, M_bind, conn_commit. by destruct (commit_error E w1).
Qed.

(** What the connection block around a transaction does to the table. *)
Lemma with_connection_transact_table data w :
  let out := with_connection E (transact E bind_row data) w in
  (committed out.2 = committed w ∨
   ∃ stmts, Forall2 (λ x p, bind_row x = Ok p) data stmts.*2 ∧
            committed out.2 = merge_all stmts (committed w)) ∧
  (out.1 = Ok () →
   ∃ stmts, Forall2 (λ x p, bind_row x = Ok p) data stmts.*2 ∧
            committed out.2 = merge_all stmts (committed w) ∧
            statements_issued (trace out.2) = statements_issued (trace w) ++ stmts.*2).
Proof.
  intros out. subst out. rewrite with_connection_spec.
  destruct (connect_error E w) as [e|]; [split; [by left|done]|].
  destruct (transact E bind_row data (fresh w)) as [[[]|e] w1] eqn:Ht.
  - apply transact_ok in Ht as (stmts & HF & Hc & Hwk & Htr). simpl in Hc, Htr.
    assert (Hst : statements_issued (trace w1) = statements_issued (trace w) ++ stmts.*2).
    { rewrite Htr. unfold statements_issued. rewrite !omap_app.
      fold (statements_issued (Execute <$> stmts.*2)).
      rewrite statements_issued_executes. simpl. by rewrite app_nil_r. }
    destruct (commit_error E w1); simpl.
    + split; [right; exists stmts; by rewrite Hc|done].
    + rewrite Hwk, Hc. split; [right; by exists stmts|].
      intros _. exists stmts. split; [done|]. split; [done|].
      unfold statements_issued in *. rewrite omap_app, Hst. simpl. by rewrite app_nil_r.
  - apply transact_raise in Ht as (Hc & _ & _). simpl in *. split; [by left|done].
Qed.

(** The statements a connection block issues are the parameters bound
    from the first rows of the batch, in the order of the batch. *)
Lemma with_connection_transact_statements data w :
  ∃ ps, statements_issued (trace (with_connection E (transact E bind_row data) w).2) =
          statements_issued (trace w) ++ ps ∧
        Forall2 (λ x p, bind_row x = Ok p) (take (length ps) data) ps.
Proof.
  rewrite with_connection_spec.
  destruct (connect_error E w) as [e|].
  { exists []. simpl. unfold statements_issued. rewrite omap_app. simpl.
    split; [done|constructor]. }
  assert (Hex : ∀ ps : list Params, statements_issued (Execute <$> ps) = ps)
    by apply statements_issued_executes.
  destruct (transact_cases E bind_row data (fresh w)) as
    [(stmts & w1 & Hacc & Hcm & Heq)|[(stmts & w1 & e1 & Hacc & Hcm & Heq)|
     (pre & x & post & stmts & w1 & e1 & w2 & -> & Hacc & Hf & Heq)]];
    rewrite Heq; clear Heq;
    apply accepted_spec in Hacc as (_ & _ & Htr & HF); simpl in Htr;
    pose proof (Forall2_length _ _ _ HF) as Hlen.
  - simpl. clear Hcm.
    match goal with |- context [commit_error E ?v] => destruct (commit_error E v) end;
      simpl; exists stmts.*2; rewrite Htr;
      unfold statements_issued in *; rewrite !omap_app, Hex; simpl;
      rewrite ?app_nil_r, <- Hlen, firstn_all; (split; [done|exact HF]).
  - simpl. exists stmts.*2. rewrite Htr.
    unfold statements_issued in *. rewrite !omap_app, Hex. simpl.
    rewrite !app_nil_r, <- Hlen, firstn_all. split; [done|exact HF].
  - simpl. apply row_fails_spec in Hf as (_ & _ & [[_ Htr2]|(q & Hq & _ & Htr2)]);
      rewrite Htr2, Htr; unfold statements_issued in *; rewrite !omap_app, Hex; simpl;
      rewrite ?app_nil_r.
    + exists stmts.*2. rewrite <- Hlen, take_app_length. split; [done|exact HF].
    + exists (stmts.*2 ++ [q]). rewrite <- ?app_assoc. split; [done|].
      rewrite length_app, <- Hlen. simpl.
      rewrite (take_app_add' pre (x :: post) (length pre) 1) by done.
      apply Forall2_app; [exact HF|]. simpl. rewrite take_0. by repeat constructor.
Qed.

(** An empty batch leaves the table as it is and issues no statement,
    whatever the store answers. *)
Lemma with_connection_transact_nil w :
  let out := with_connection E (transact E bind_row []) w in
  committed out.2 = committed w ∧
  statements_issued (trace out.2) = statements_issued (trace w).
Proof.
  intros out. split.
  - destruct (with_connection_transact_table [] w) as [[H|(stmts & HF & H)] _]; [done|].
    apply Forall2_nil_inv_l in HF. apply fmap_nil_inv in HF. by subst stmts.
  - destruct (with_connection_transact_statements [] w) as (ps & Hps & HF).
    rewrite take_nil in HF. apply Forall2_nil_inv_l in HF. subst ps.
    subst out. by rewrite Hps, app_nil_r.
Qed.

End RunFacts.

Section RunTableFacts.
Context {Params Row : Type} {MT : MergeTable Params Row} {ML : MergeLaws MT}.
Context (E : env Params Row) {X : Type} (bind_row : X → result Params).

(** A connection block around a transaction keeps every row in its place
    with its key, and keeps the keys apart. *)
Lemma with_connection_transact_keeps data w :
  let T := committed w in
  let T' := committed (with_connection E (transact E bind_row data) w).2 in
  (unique_keys T → unique_keys T') ∧
  (length T ≤ length T')%nat ∧
  (∀ i r, T !! i = Some r → ∃ r', T' !! i = Some r' ∧ target_key r' = target_key r).
Proof.
  intros T T'. subst T T'.
  destruct (with_connection_transact_table E bind_row data w) as [[->|(stmts & _ & ->)] _].
  - split; [done|]. split; [done|]. intros i r Hi. by exists r.
  - split; [apply merge_all_unique_keys|]. split; [apply merge_all_length_le|].
    intros i r Hi. destruct (merge_all_old_rows stmts _ i r Hi) as (r' & Hr' & Hk & _).
    by exists r'.
Qed.

End RunTableFacts.

Section HarvestRunFacts.
Import Harvest.

(** The events of a call of [send_email_notification], case by case. *)
Lemma send_email_notification_cases E cfg success start_date end_date msg n w :
  send_email_notification E cfg success start_date end_date msg n w =
    (Ok (),
     with_events w
       (CallNotify success start_date end_date msg n ::
        if forallb truthy [EMAIL_SENDER cfg; EMAIL_PASSWORD cfg; EMAIL_RECIPIENT cfg]
        then
          let m := {| m_from := default EmptyString (EMAIL_SENDER cfg);
                      m_to := default EmptyString (EMAIL_RECIPIENT cfg);
                      m_start := start_date; m_end := end_date;
                      m_body := if success then SyncSucceeded n else SyncFailed msg |} in
          match smtp_error E (with_events w [CallNotify success start_date end_date msg n]) m with
          | Some e => [Smtp m; Log ERROR ("Failed to send email notification: " +:+ str_exn e)]
          | None => [Smtp m; Log INFO "Email notification sent successfully"]
          end
        else [Log WARNING "Email configuration missing. Skipping email notification."])).
Proof.
  unfold send_email_notification. unfold mbind at 1, M_bind. cbn [emit].
  fold (with_events w [CallNotify success start_date end_date msg n]).
  destruct (forallb truthy _); cbn [negb].
  - unfold try_except, mbind, M_bind, logging, emit, raise.
    destruct (smtp_error E _ _); unfold with_events; simpl; by rewrite <- !app_assoc.
  - unfold logging, emit, with_events. simpl. by rewrite <- app_assoc.
Qed.

(** A call of [send_email_notification] returns normally and only adds
    events: the call itself, at most one mail session, one log record. *)
Lemma send_email_notification_world E cfg success start_date end_date msg n w :
  ∃ evs, send_email_notification E cfg success start_date end_date msg n w =
           (Ok (), with_events w (CallNotify success start_date end_date msg n :: evs)) ∧
         statements_issued evs = [] ∧ notify_calls evs = [] ∧
         Forall (λ ev, match ev with Smtp _ | Log _ _ => True | _ => False end) evs.
Proof.
  rewrite send_email_notification_cases.
  destruct (forallb truthy _).
  - cbv zeta. match goal with |- context [smtp_error E ?v ?m] => destruct (smtp_error E v m) end;
      eexists; (split; [reflexivity|]); by repeat constructor.
  - eexists; (split; [reflexivity|]); by repeat constructor.
Qed.
(** The three ways a run of [sync_data] goes: the fetch fails; the
    connection block fails; everything goes through. *)
Lemma harvest_sync_data_cases E get cfg start_date end_date w :
  let s := default (today E) start_date in
  let e := default (today E) end_date in
  sync_data E get cfg start_date end_date w =
    match get (date_strftime s "%Y-%m-%d") (date_strftime e "%Y-%m-%d") with
    | Raise err =>
        send_email_notification E cfg false s e (Some (str_exn err)) 0
          (with_events w [Log ERROR ("API fetch error: " +:+ str_exn err);
                          Log ERROR ("Data sync failed: " +:+ str_exn err)])
    | Ok data =>
        match with_connection E (insert_data E data) w with
        | (Ok _, wa) =>
            send_email_notification E cfg true s e None (length data)
              (with_events wa
                 [Log INFO ("Data sync completed successfully for period "
                            +:+ str_date s +:+ " to " +:+ str_date e)])
        | (Raise err, wa) =>
            send_email_notification E cfg false s e (Some (str_exn err)) (length data)
              (with_events wa [Log ERROR ("Data sync failed: " +:+ str_exn err)])
        end
    end.
Proof.
  intros s e. unfold sync_data. fold s e. rewrite fetch_api_data_spec.
  destruct (get _ _) as [data|err].
  - unfold mbind at 1, M_bind.
    destruct (with_connection E (insert_data E data) w) as [[[]|err] wa].
    + unfold mbind at 1, M_bind. cbn [logging emit].
      match goal with |- context [send_email_notification E cfg true s e None ?k ?v] =>
        fold (with_events wa
                [Log INFO ("Data sync completed successfully for period "
                           +:+ str_date s +:+ " to " +:+ str_date e)]);
        rewrite (send_email_notification_cases E cfg true s e None k)
      end.
      reflexivity.
    + unfold mbind at 1, M_bind. cbn [logging emit]. reflexivity.
  - unfold mbind at 1, M_bind. cbn [logging emit]. unfold with_events. simpl.
    by rewrite <- app_assoc.
Qed.

End HarvestRunFacts.

Section TvnRunFacts.
Import Tvn.

(** The ways a run of the daily-totals [sync_data] goes. *)
Lemma tvn_sync_data_cases E S start_date end_date w :
  let s := default (today E) start_date in
  let e := default (today E) end_date in
  sync_data E S start_date end_date w =
    match get_supabase_data S (Some s) (Some e) w with
    | (Raise err, w1) =>
        (Ok (), with_events w1 [Log ERROR ("TVN data sync failed: " +:+ str_exn err)])
    | (Ok df, w1) =>
        match with_connection E (insert_data E df) w1 with
        | (Ok _, wa) =>
            (Ok (), with_events wa
                      [Log INFO ("TVN data sync completed successfully for period "
                                 +:+ str_date s +:+ " to " +:+ str_date e)])
        | (Raise err, wa) =>
            (Ok (), with_events wa [Log ERROR ("TVN data sync failed: " +:+ str_exn err)])
        end
    end.
Proof.
  intros s e. unfold sync_data, try_except. fold s e. unfold mbind at 1, M_bind.
  destruct (get_supabase_data S (Some s) (Some e) w) as [[df|err] w1]; [|done].
  unfold mbind at 1, M_bind.
  destruct (with_connection E (insert_data E df) w1) as [[[]|err] wa]; done.
Qed.

(** What [get_supabase_data] does to the world: nothing, or one log
    record when it raises. *)
Lemma get_supabase_data_world S start_date end_date (w : world params row) :
  match get_supabase_data S start_date end_date w with
  | (Ok _, w1) => w1 = w
  | (Raise e, w1) => w1 = with_events w [Log ERROR ("Supabase data fetch error: " +:+ str_exn e)]
  end.
Proof.
  unfold get_supabase_data, try_except. unfold mbind at 1, M_bind. unfold lift.
  destruct (execute S _ _) as [[|r rows]|e]; [done| |done].
  destruct (filter _ _); [|done].
  unfold mbind, M_bind. by destruct (to_datetime S _).
Qed.

End TvnRunFacts.

(** ** The progress lines *)

Lemma every_tenth_from_one n :
  filter (λ index, index mod 10 = 0)%nat (seq 1 n) = (λ j, 10 * j)%nat <$> seq 1 (n / 10).
Proof.
  induction n as [|n IH]; [done|].
  rewrite seq_S, filter_app, IH. clear IH.
  pose proof (Nat.div_mod_eq n 10) as H1. pose proof (Nat.mod_upper_bound n 10 ltac:(done)) as H2.
  pose proof (Nat.div_mod_eq (S n) 10) as H3. pose proof (Nat.mod_upper_bound (S n) 10 ltac:(done)) as H4.
  rewrite filter_cons, filter_nil. change (1 + n)%nat with (S n).
  destruct (decide (S n mod 10 = 0)%nat) as [Hm|Hm].
  - assert (S n / 10 = S (n / 10))%nat as -> by lia.
    rewrite seq_S, fmap_app. f_equal. cbn [fmap list_fmap]. f_equal. lia.
  - assert (S n / 10 = n / 10)%nat as -> by lia. by rewrite app_nil_r.
Qed.

Lemma every_tenth_from_zero n :
  filter (λ index, index mod 10 = 0)%nat (seq 0 n) = (λ j, 10 * j)%nat <$> seq 0 ((n + 9) / 10).
Proof.
  induction n as [|n IH]; [done|].
  rewrite seq_S, filter_app, IH. clear IH.
  pose proof (Nat.div_mod_eq n 10) as H1. pose proof (Nat.mod_upper_bound n 10 ltac:(done)) as H2.
  pose proof (Nat.div_mod_eq (n + 9) 10) as H3. pose proof (Nat.mod_upper_bound (n + 9) 10 ltac:(done)) as H4.
  pose proof (Nat.div_mod_eq (S n + 9) 10) as H5. pose proof (Nat.mod_upper_bound (S n + 9) 10 ltac:(done)) as H6.
  rewrite filter_cons, filter_nil. change (0 + n)%nat with n.
  destruct (decide (n mod 10 = 0)%nat) as [Hm|Hm].
  - assert ((S n + 9) / 10 = S ((n + 9) / 10))%nat as -> by lia.
    rewrite seq_S, fmap_app. f_equal. cbn [fmap list_fmap]. f_equal. lia.
  - assert ((S n + 9) / 10 = (n + 9) / 10)%nat as -> by lia. by rewrite app_nil_r.
Qed.

(** ** Console output *)

Section ConsoleFacts.
Context {Params Row Line : Type} {MT : MergeTable Params Row}.
Context (out : world Params Row → Line → option exn).
Hypothesis accepts : ∀ v line, out v line = None.

Lemma bind_congr {A B} (m m' : M Params Row A) (k k' : A → M Params Row B) w :
  m w = m' w → (∀ a v, k a v = k' a v) → (m ≫= k) w = (m' ≫= k') w.
Proof.
  intros Hm Hk. unfold mbind, M_bind. rewrite Hm. by destruct (m' w) as [[a|e] v].
Qed.

Lemma try_except_congr {A} (body body' : M Params Row A) handler handler' w :
  body w = body' w → (∀ e v, handler e v = handler' e v) →
  try_except body handler w = try_except body' handler' w.
Proof.
  intros Hb Hh. unfold try_except. rewrite Hb. by destruct (body' w) as [[a|e] v].
Qed.

Lemma try_finally_congr {A} (body body' : M Params Row A) fin w :
  body w = body' w → try_finally body fin w = try_finally body' fin w.
Proof. intros Hb. unfold try_finally. by rewrite Hb. Qed.

Lemma with_connection_congr {A} E (body body' : M Params Row A) w :
  (∀ v, body v = body' v) → with_connection E body w = with_connection E body' w.
Proof. intros Hb. rewrite !with_connection_spec. by rewrite Hb. Qed.

(** On a console that takes every line a [print] is a step without
    effect. *)
Lemma print_accepted line w : print out line w = (Ok (), w).
Proof using accepts. unfold print. by rewrite accepts. Qed.

Lemma print_then {A} line (k : M Params Row A) w : (print out line;; k) w = k w.
Proof using accepts. unfold mbind, M_bind. by rewrite print_accepted. Qed.

(** The numbered loop with its progress lines is the plain loop. *)
Lemma for_each_numbered {X} (body : X → M Params Row unit) (note : nat → Line)
    (data : list X) k w :
  for_each (zip (seq k (length data)) data)
           (λ '(index, x), (if (index mod 10 =? 0)%nat
                            then print out (note index) else mret ());; body x) w =
  for_each data body w.
Proof using accepts.
  revert k w. induction data as [|x data IH]; intros k w; [done|].
  cbn [length seq zip zip_with for_each].
  apply bind_congr; [|intros _ v; apply IH].
  destruct (k mod 10 =? 0)%nat; [apply print_then|done].
Qed.

End ConsoleFacts.

Section HarvestConsole.
Import Harvest.
Context (E : env params row) (out : console).
Hypothesis accepts : ∀ v line, out v line = None.

Lemma fetch_api_data_out_accepted get start_date end_date w :
  fetch_api_data_out out get start_date end_date w =
  fetch_api_data get start_date end_date w.
Proof using accepts.
  unfold fetch_api_data_out, fetch_api_data.
  apply try_except_congr.
  - rewrite print_then by done. unfold mbind, M_bind, lift.
    destruct (get _ _) as [data|e]; [|done]. by rewrite print_accepted.
  - intros e v. apply bind_congr; [done|]. intros _ v'. by rewrite print_then.
Qed.

Lemma insert_data_out_accepted data w :
  insert_data_out E out data w = insert_data E data w.
Proof using accepts.
  unfold insert_data_out, insert_data. cbv zeta.
  apply try_finally_congr. apply try_except_congr; [|done].
  rewrite print_then by done.
  apply bind_congr.
  { apply (for_each_numbered out accepts
             (λ record, lift (bind_params record) ≫= cursor_execute E)
             (λ index, Progress index (length data))). }
  intros _ v. rewrite print_then by done.
  apply bind_congr; [done|]. intros _ v'. by rewrite print_then.
Qed.

Lemma sync_data_out_accepted get cfg start_date end_date w :
  sync_data_out E out get cfg start_date end_date w =
  sync_data E get cfg start_date end_date w.
Proof using accepts.
  unfold sync_data_out, sync_data. cbv zeta.
  rewrite !print_then by done. rewrite fetch_api_data_out_accepted.
  destruct (fetch_api_data get _ _ w) as [[data|e] w1].
  - rewrite print_then by done.
    set (report := logging INFO _;; send_email_notification E cfg true _ _ None _).
    assert ((with_connection E (print out ConnectionEstablished;;
                                insert_data_out E out data);;
             print out SyncCompleted;; report) w1 =
            (with_connection E (insert_data E data);; report) w1) as ->.
    { apply bind_congr.
      - apply with_connection_congr. intros v.
        by rewrite print_then, insert_data_out_accepted.
      - intros _ v. by rewrite print_then. }
    destruct ((with_connection E (insert_data E data);; report) w1) as [[[]|e] w2];
      [done|]. cbv beta iota. by rewrite print_then.
  - cbv beta iota. by rewrite print_then.
Qed.

Lemma main_out_accepted get cfg start_arg end_arg w :
  main_out E out get cfg start_arg end_arg w = main E get cfg start_arg end_arg w.
Proof using accepts.
  unfold main_out, main. apply try_except_congr.
  - apply bind_congr; [done|]. intros sd v. apply bind_congr; [done|].
    intros ed v'. apply sync_data_out_accepted.
  - intros e v. destruct e; try done.
    unfold mbind, M_bind. cbn [logging emit]. by rewrite print_accepted.
Qed.

End HarvestConsole.

Section TvnConsole.
Import Tvn.
Context (E : env params row) (out : console).
Hypothesis accepts : ∀ v line, out v line = None.

Lemma get_supabase_data_out_accepted S start_date end_date w :
  get_supabase_data_out out S start_date end_date w =
  get_supabase_data S start_date end_date w.
Proof using accepts.
  unfold get_supabase_data_out, get_supabase_data.
  apply try_except_congr.
  - rewrite !print_then by done. apply bind_congr; [done|]. intros data v.
    rewrite print_then by done. destruct data as [|r rows]; [by rewrite print_then|].
    rewrite !print_then by done. cbv zeta. destruct (filter _ _); [|done].
    rewrite print_then by done. apply bind_congr; [done|]. intros dates v'.
    by rewrite !print_then.
  - intros e v. apply bind_congr; [done|]. intros _ v'. by rewrite !print_then.
Qed.

Lemma tvn_insert_data_out_accepted df w :
  insert_data_out E out df w = insert_data E df w.
Proof using accepts.
  unfold insert_data_out, insert_data. cbv zeta.
  apply try_finally_congr. apply try_except_congr; [|done].
  rewrite print_then by done.
  apply bind_congr.
  { apply (for_each_numbered out accepts
             (λ row, lift (bind_params row) ≫= cursor_execute E)
             (λ index, Progress index (length df))). }
  intros _ v. rewrite print_then by done.
  apply bind_congr; [done|]. intros _ v'. by rewrite print_then.
Qed.

Lemma tvn_sync_data_out_accepted S start_date end_date w :
  sync_data_out E out S start_date end_date w = sync_data E S start_date end_date w.
Proof using accepts.
  unfold sync_data_out, sync_data. cbv zeta. apply try_except_congr.
  - rewrite !print_then by done. apply bind_congr.
    { apply get_supabase_data_out_accepted. }
    intros df v. rewrite print_then by done. apply bind_congr.
    { apply with_connection_congr. intros v'.
      by rewrite print_then, tvn_insert_data_out_accepted. }
    intros _ v'. by rewrite print_then.
  - intros e v. by rewrite print_then.
Qed.

Lemma tvn_main_out_accepted S start_arg end_arg w :
  main_out E out S start_arg end_arg w = main E S start_arg end_arg w.
Proof using accepts.
  unfold main_out, main. apply try_except_congr.
  - apply bind_congr; [done|]. intros sd v. apply bind_congr; [done|].
    intros ed v'. apply tvn_sync_data_out_accepted.
  - intros e v. destruct e; try done.
    unfold mbind, M_bind. cbn [logging emit]. by rewrite print_accepted.
Qed.

End TvnConsole.
Section QuietConsole.
Context {Params Row Line : Type} {MT : MergeTable Params Row}.
Context (out : world Params Row → Line → option exn).

(** A [print] calls no notifier and opens no mail session, whether it
    fails or not. *)
Lemma quiet_print line : quiet (print out line).
Proof. intros w. unfold print. by destruct (out w line). Qed.

End QuietConsole.

Section HarvestQuietConsole.
Import Harvest.
Context (E : env params row) (out : console).

Lemma quiet_fetch_api_data_out get start_date end_date :
  quiet (fetch_api_data_out out get start_date end_date).
Proof.
  unfold fetch_api_data_out. apply quiet_try_except.
  - apply quiet_bind; [apply quiet_print|intros _].
    apply quiet_bind; [apply quiet_lift|intros data].
    apply quiet_bind; [apply quiet_print|intros _]. apply quiet_ret.
  - intros e. apply quiet_bind; [apply quiet_logging|intros _].
    apply quiet_bind; [apply quiet_print|intros _]. apply quiet_raise.
Qed.

Lemma quiet_insert_data_out data : quiet (insert_data_out E out data).
Proof.
  unfold insert_data_out. apply quiet_try_finally; [|apply quiet_cursor_close].
  apply quiet_try_except.
  - apply quiet_bind; [apply quiet_print|intros _].
    apply quiet_bind.
    { apply quiet_for_each. intros [index record].
      apply quiet_bind; [destruct (index mod 10 =? 0)%nat;
                         [apply quiet_print|apply quiet_ret]|intros _].
      apply quiet_bind; [apply quiet_lift|intros p]. apply quiet_cursor_execute. }
    intros _. apply quiet_bind; [apply quiet_print|intros _].
    apply quiet_bind; [apply quiet_conn_commit|intros _].
    apply quiet_bind; [apply quiet_print|intros _]. apply quiet_logging.
  - intros e. apply quiet_bind; [apply quiet_conn_rollback|intros _].
    apply quiet_bind; [apply quiet_logging|intros _]. apply quiet_raise.
Qed.

(** The handler of [sync_data]: no call when its [print] fails, one call
    otherwise. *)
Lemma sync_data_handler_calls cfg start_date end_date e n w :
  let run := (print out (SyncError (str_exn e));;
              logging ERROR ("Data sync failed: " +:+ str_exn e);;
              send_email_notification E cfg false start_date end_date
                (Some (str_exn e)) n) w in
  ∃ calls,
    notify_calls (trace run.2) = notify_calls (trace w) ++ calls ∧
    match run.1 with
    | Ok _ => length calls = 1%nat
    | Raise _ => calls = []
    end.
Proof.
  set (P := λ x : result () * world params row,
         ∃ calls, notify_calls (trace x.2) = notify_calls (trace w) ++ calls ∧
                  match x.1 with
                  | Ok _ => length calls = 1%nat
                  | Raise _ => calls = []
                  end).
  intros run. change (P run). subst run.
  unfold mbind at 1, M_bind at 1. unfold print.
  destruct (out w _) as [e'|]; unfold P.
  - exists []. simpl. split; [by rewrite app_nil_r|done].
  - unfold mbind, M_bind. cbn [logging emit].
    match goal with |- context [send_email_notification ?E ?c ?b ?x ?y ?m ?k ?v] =>
      destruct (send_email_notification_returns E c b x y m k v) as (w' & -> & Hn & _)
    end.
    eexists [_]. simpl. rewrite Hn. simpl.
    unfold notify_calls. rewrite omap_app. simpl. split; [by rewrite app_nil_r|done].
Qed.

(** Whatever the console does, a run that returns has called the notifier
    once, and a run that an exception leaves has not called it. *)
Lemma sync_data_out_calls get cfg start_date end_date w :
  ∃ calls,
    notify_calls (trace (sync_data_out E out get cfg start_date end_date w).2) =
      notify_calls (trace w) ++ calls ∧
    match (sync_data_out E out get cfg start_date end_date w).1 with
    | Ok _ => length calls = 1%nat
    | Raise _ => calls = []
    end.
Proof.
  set (P := λ x : result () * world params row,
         ∃ calls, notify_calls (trace x.2) = notify_calls (trace w) ++ calls ∧
                  match x.1 with
                  | Ok _ => length calls = 1%nat
                  | Raise _ => calls = []
                  end).
  change (P (sync_data_out E out get cfg start_date end_date w)).
  unfold sync_data_out. cbv zeta.
  set (s := default (today E) start_date). set (e := default (today E) end_date).
  assert (Hq1 : quiet (print out StartingSync;; print out (DateRange s e);;
                       fetch_api_data_out out get s e)).
  { apply quiet_bind; [apply quiet_print|intros _].
    apply quiet_bind; [apply quiet_print|intros _]. apply quiet_fetch_api_data_out. }
  specialize (Hq1 w) as [Hq1 _].
  destruct ((print out StartingSync;; print out (DateRange s e);;
             fetch_api_data_out out get s e) w) as [[data|err] w1]; simpl in Hq1.
  2: { destruct (sync_data_handler_calls cfg s e err 0 w1) as (calls & Hc & Hl).
       exists calls. split; [by rewrite <- Hq1|done]. }
  set (report := send_email_notification E cfg true s e None (length data)).
  set (done_ := logging INFO _).
  assert (Hq2 : quiet (print out ConnectingToDatabase;;
                       with_connection E (print out ConnectionEstablished;;
                                          insert_data_out E out data);;
                       print out SyncCompleted;; done_)).
  { apply quiet_bind; [apply quiet_print|intros _].
    apply quiet_bind.
    { apply quiet_with_connection. apply quiet_bind; [apply quiet_print|intros _].
      apply quiet_insert_data_out. }
    intros _. apply quiet_bind; [apply quiet_print|intros _]. apply quiet_logging. }
  assert (Hassoc : (print out ConnectingToDatabase;;
                    with_connection E (print out ConnectionEstablished;;
                                       insert_data_out E out data);;
                    print out SyncCompleted;; done_;; report) w1 =
                   ((print out ConnectingToDatabase;;
                     with_connection E (print out ConnectionEstablished;;
                                        insert_data_out E out data);;
                     print out SyncCompleted;; done_) ≫= λ _, report) w1).
  { unfold mbind, M_bind.
    destruct (print out ConnectingToDatabase w1) as [[[]|?] ?]; [|done].
    destruct (with_connection E _ _) as [[[]|?] ?]; [|done].
    destruct (print out SyncCompleted _) as [[[]|?] ?]; [|done].
    by destruct (done_ _) as [[[]|?] ?]. }
  rewrite Hassoc. clear Hassoc. unfold mbind at 1, M_bind at 1.
  specialize (Hq2 w1) as [Hq2 _].
  destruct ((print out ConnectingToDatabase;; _) w1) as [[[]|err] w2]; simpl in Hq2;
    unfold P.
  - subst report.
    destruct (send_email_notification_returns E cfg true s e None (length data) w2)
      as (w3 & -> & Hn & _).
    eexists [_]. simpl. split; [by rewrite Hn, Hq2, Hq1|done].
  - destruct (sync_data_handler_calls cfg s e err (length data) w2) as (calls & Hc & Hl).
    exists calls. split; [by rewrite <- Hq1, <- Hq2|done].
Qed.

End HarvestQuietConsole.

Section TvnQuietConsole.
Import Tvn.
Context (E : env params row) (out : console).

Lemma quiet_get_supabase_data_out S start_date end_date :
  quiet (get_supabase_data_out out S start_date end_date).
Proof.
  unfold get_supabase_data_out. apply quiet_try_except.
  - apply quiet_bind; [apply quiet_print|intros _].
    apply quiet_bind; [apply quiet_print|intros _].
    apply quiet_bind; [apply quiet_lift|intros data].
    apply quiet_bind; [apply quiet_print|intros _].
    destruct data as [|r rows].
    { apply quiet_bind; [apply quiet_print|intros _]. apply quiet_ret. }
    apply quiet_bind; [apply quiet_print|intros _].
    apply quiet_bind; [apply quiet_print|intros _].
    cbv zeta. destruct (filter _ _); [|apply quiet_raise].
    apply quiet_bind; [apply quiet_print|intros _].
    apply quiet_bind; [apply quiet_lift|intros dates].
    do 4 (apply quiet_bind; [apply quiet_print|intros _]). apply quiet_ret.
  - intros e. apply quiet_bind; [apply quiet_logging|intros _].
    do 4 (apply quiet_bind; [apply quiet_print|intros _]). apply quiet_raise.
Qed.

Lemma quiet_tvn_insert_data_out df : quiet (insert_data_out E out df).
Proof.
  unfold insert_data_out. apply quiet_try_finally; [|apply quiet_cursor_close].
  apply quiet_try_except.
  - apply quiet_bind; [apply quiet_print|intros _].
    apply quiet_bind.
    { apply quiet_for_each. intros [index row].
      apply quiet_bind; [destruct (index mod 10 =? 0)%nat;
                         [apply quiet_print|apply quiet_ret]|intros _].
      apply quiet_bind; [apply quiet_lift|intros p]. apply quiet_cursor_execute. }
    intros _. apply quiet_bind; [apply quiet_print|intros _].
    apply quiet_bind; [apply quiet_conn_commit|intros _].
    apply quiet_bind; [apply quiet_print|intros _]. apply quiet_logging.
  - intros e. apply quiet_bind; [apply quiet_conn_rollback|intros _].
    apply quiet_bind; [apply quiet_logging|intros _]. apply quiet_raise.
Qed.

Lemma quiet_tvn_sync_data_out S start_date end_date :
  quiet (sync_data_out E out S start_date end_date).
Proof.
  unfold sync_data_out. cbv zeta. apply quiet_try_except.
  - apply quiet_bind; [apply quiet_print|intros _].
    apply quiet_bind; [apply quiet_print|intros _].
    apply quiet_bind; [apply quiet_get_supabase_data_out|intros df].
    apply quiet_bind; [apply quiet_print|intros _].
    apply quiet_bind.
    { apply quiet_with_connection. apply quiet_bind; [apply quiet_print|intros _].
      apply quiet_tvn_insert_data_out. }
    intros _. apply quiet_bind; [apply quiet_print|intros _]. apply quiet_logging.
  - intros e. apply quiet_bind; [apply quiet_print|intros _]. apply quiet_logging.
Qed.

End TvnQuietConsole.

(** ** Four runs *)

Import Examples.

(** A new key: the source has one harvest, the table none; afterwards the
    table has that harvest, once. *)
Example scenario_new_key :
  Harvest.without_insert_date <$>
    committed (Harvest.sync_data (obliging ticking) (λ _ _, Ok [h100]) no_email None None
                 empty_world).2
  = [Harvest.without_insert_date (Harvest.when_not_matched 0 h100_params)].
Proof. vm_compute. reflexivity. Qed.

(** An existing key: the total of the first of June is replaced. *)
Example scenario_existing_key :
  committed (Tvn.sync_data (obliging ticking) (supabase_returning totals_rows) None None
               june_world).2
  = [{| Tvn.r_date := VStr "2024-06-01"; Tvn.r_kgs_harvest_tvn := VNum 150;
        Tvn.r_kgs_packed_cnd := VNum 90 |}].
Proof. vm_compute. reflexivity. Qed.

(** An empty window: the run succeeds with no record and an empty table
    stays empty. *)
Example scenario_empty_window :
  committed (Harvest.sync_data (obliging ticking) (λ _ _, Ok []) no_email None None
               empty_world).2 = [] ∧
  notify_calls (trace (Harvest.sync_data (obliging ticking) (λ _ _, Ok []) no_email
                         None None empty_world).2)
  = [CallNotify true {| dyear := 2024; dmonth := 6; dday := 1 |}
       {| dyear := 2024; dmonth := 6; dday := 1 |} None 0].
Proof. vm_compute. split; reflexivity. Qed.

(** A record without [harvest_date]: the table is untouched and the
    failure is reported with the missing key. *)
Example scenario_malformed_row :
  committed (Harvest.sync_data (obliging ticking) (λ _ _, Ok [h101_undated]) no_email
               None None stocked_world).2 = [h099_row] ∧
  notify_calls (trace (Harvest.sync_data (obliging ticking) (λ _ _, Ok [h101_undated])
                         no_email None None stocked_world).2)
  = [CallNotify false {| dyear := 2024; dmonth := 6; dday := 1 |}
       {| dyear := 2024; dmonth := 6; dday := 1 |} (Some "'harvest_date'") 1].
Proof. vm_compute. split; reflexivity. Qed.

(** * The claims *)

(** C1, as stated, fails on [harvests]: the same batch is applied twice to
    an empty table; both calls return normally, yet the table after the
    second call is not the table after the first, because the UPDATE branch
    sets [insert_date = GETDATE()] again. *)
Lemma insert_data_twice_differs :
  (Harvest.insert_data (obliging ticking) [h100] empty_world).1 = Ok () ∧
  (Harvest.insert_data (obliging ticking) [h100] after_first_run).1 = Ok () ∧
  committed after_second_run ≠ committed after_first_run.
Proof. vm_compute. split; [done|]. split; [done|]. discriminate. Qed.

(** C1, amended: once a batch of records with non-null ids has been applied
    by a call of [insert_data] that returned normally, applying it again any
    number of times leaves a [harvests] table that agrees with the one after
    the first call on every column except [insert_date]; for the daily
    totals, whose table has no server-assigned column, the table after any
    number of runs is the table after the first. *)
Theorem insert_data_idempotent :
  (∀ (E : env Harvest.params Harvest.row) data w n,
     Forall (λ record : gmap string value, record !! "id" ≠ Some VNone) data →
     (Harvest.insert_data E data w).1 = Ok () →
     Harvest.without_insert_date <$>
       committed (Nat.iter (S n) (λ v, (Harvest.insert_data E data v).2) w) =
     Harvest.without_insert_date <$> committed (Harvest.insert_data E data w).2) ∧
  (∀ (E : env Tvn.params Tvn.row) df w n,
     (Tvn.insert_data E df w).1 = Ok () →
     committed (Nat.iter (S n) (λ v, (Tvn.insert_data E df v).2) w) =
     committed (Tvn.insert_data E df w).2).
Proof.
  split.
  - intros E data w n Hid Hok.
    assert (Hkey : ∀ record p, record ∈ data → Harvest.bind_params record = Ok p →
                               source_key p ≠ VNone).
    { intros record p Hin Hb Hnull. apply bind_params_id in Hb.
      rewrite Forall_forall in Hid. apply (Hid record Hin).
      simpl in Hnull. by rewrite Hb, Hnull. }
    exact (transact_idempotent E Harvest.bind_params data w n Hkey Hok).
  - intros E df w n Hok.
    pose proof (transact_idempotent E Tvn.bind_params df w n
                  (λ _ p _ _, tvn_source_key p) Hok) as H.
    simpl in H. by rewrite !list_fmap_id in H.
Qed.

Lemma insert_data_idempotent_witness :
  Harvest.without_insert_date <$> committed after_second_run =
  Harvest.without_insert_date <$> committed after_first_run.
Proof.
  apply (proj1 insert_data_idempotent (obliging ticking) [h100] empty_world 1%nat).
  - repeat constructor. vm_compute. discriminate.
  - vm_compute. reflexivity.
Defined.

(** C2: when the rows before row [x] were accepted and row [x] fails, in
    the mapping or in the write, [insert_data] raises the exception of that
    row; the durable table is the one before the call, nothing is pending on
    the connection, no commit happened, and the statements issued by the
    call are those of the earlier rows, once each, plus the refused one: no
    statement is repeated and no later row is tried. *)
Theorem insert_data_atomic :
  (∀ (E : env Harvest.params Harvest.row) pre x post stmts w w1 e w2,
     accepted E Harvest.bind_params w pre stmts w1 →
     row_fails E Harvest.bind_params w1 x e w2 →
     ∃ w', Harvest.insert_data E (pre ++ x :: post) w = (Raise e, w') ∧
           committed w' = committed w ∧ working w' = committed w ∧
           (Commit ∉ drop (length (trace w)) (trace w')) ∧
           statements_issued (drop (length (trace w)) (trace w')) =
             (stmts.*2) ++ statements_issued (drop (length (trace w1)) (trace w2))) ∧
  (∀ (E : env Tvn.params Tvn.row) pre x post stmts w w1 e w2,
     accepted E Tvn.bind_params w pre stmts w1 →
     row_fails E Tvn.bind_params w1 x e w2 →
     ∃ w', Tvn.insert_data E (pre ++ x :: post) w = (Raise e, w') ∧
           committed w' = committed w ∧ working w' = committed w ∧
           (Commit ∉ drop (length (trace w)) (trace w')) ∧
           statements_issued (drop (length (trace w)) (trace w')) =
             (stmts.*2) ++ statements_issued (drop (length (trace w1)) (trace w2))).
Proof.
  split; intros E pre x post stmts w w1 e w2 Hacc Hf.
  - exact (transact_atomic E Harvest.bind_params pre x post stmts w w1 e w2 Hacc Hf).
  - exact (transact_atomic E Tvn.bind_params pre x post stmts w w1 e w2 Hacc Hf).
Qed.

Lemma insert_data_atomic_witness :
  ∃ w', Harvest.insert_data refusing_h100 [h102_odd; h100; h100_revised] empty_world =
          (Raise (DatabaseError "conversion failed"), w') ∧
        committed w' = [] ∧ working w' = [].
Proof.
  edestruct (proj1 insert_data_atomic refusing_h100 [h102_odd] h100 [h100_revised])
    as (w' & Hrun & Hc & Hw & _).
  - eapply accepted_cons; [reflexivity|reflexivity|apply accepted_nil].
  - apply fails_write; reflexivity.
  - exists w'. split; [exact Hrun|]. split; [exact Hc|exact Hw].
Defined.




(** C4, as stated, fails for records without an id: [ON target.id =
    source.id] is never true for a null, so two records with a null id are
    both inserted and the table ends with two rows under the same (null)
    key. *)
Lemma null_ids_inserted_twice :
  (Harvest.insert_data (obliging ticking) [h_null; h_null] empty_world).1 = Ok () ∧
  Harvest.r_id <$>
    committed (Harvest.insert_data (obliging ticking) [h_null; h_null] empty_world).2
  = [VNone; VNone].
Proof. vm_compute. split; reflexivity. Qed.

(** C4, amended: at most one row per natural key that is not null is an
    invariant of [insert_data] (id for [harvests], date for
    [tracefruit_harvest]), called as [sync_data] calls it, on a connection
    with nothing pending; and after a call that returned normally the table
    has, for the key of a row of the batch, when that key is not null,
    exactly one row, with the content written by the last row of the batch
    with that key ([written q], the server-assigned column apart).  The
    date of a daily total is never null. *)
Theorem one_row_per_key :
  (∀ (E : env Harvest.params Harvest.row) data w,
     working w = committed w → unique_keys (committed w) →
     unique_keys (committed (Harvest.insert_data E data w).2) ∧
     ∀ u w' pre x post q,
       Harvest.insert_data E data w = (Ok u, w') →
       data = pre ++ x :: post → Harvest.bind_params x = Ok q →
       Harvest.p_id q ≠ VNone →
       (∀ y q', y ∈ post → Harvest.bind_params y = Ok q' →
                Harvest.p_id q' ≠ Harvest.p_id q) →
       ∃ i r, committed w' !! i = Some r ∧ Harvest.r_id r = Harvest.p_id q ∧
              Harvest.without_insert_date r = written q ∧
              ∀ j r', committed w' !! j = Some r' →
                      Harvest.r_id r' = Harvest.p_id q → j = i) ∧
  (∀ (E : env Tvn.params Tvn.row) df w,
     working w = committed w → unique_keys (committed w) →
     unique_keys (committed (Tvn.insert_data E df w).2) ∧
     ∀ u w' pre x post q,
       Tvn.insert_data E df w = (Ok u, w') →
       df = pre ++ x :: post → Tvn.bind_params x = Ok q →
       (∀ y q', y ∈ post → Tvn.bind_params y = Ok q' → Tvn.p_date q' ≠ Tvn.p_date q) →
       ∃ i r, committed w' !! i = Some r ∧ Tvn.r_date r = VStr (Tvn.p_date q) ∧
              r = written q ∧
              ∀ j r', committed w' !! j = Some r' →
                      Tvn.r_date r' = VStr (Tvn.p_date q) → j = i).
Proof.
  split.
  - intros E data w Hw HU. split.
    + exact (transact_unique_keys E Harvest.bind_params data w Hw HU).
    + intros u w' pre x post q Hrun Hd Hb Hk Hlast.
      exact (transact_one_row_per_key E Harvest.bind_params data w u w' pre x post q
               Hw HU Hrun Hd Hb Hk Hlast).
  - intros E df w Hw HU. split.
    + exact (transact_unique_keys E Tvn.bind_params df w Hw HU).
    + intros u w' pre x post q Hrun Hd Hb Hlast.
      apply (transact_one_row_per_key E Tvn.bind_params df w u w' pre x post q
               Hw HU Hrun Hd Hb (tvn_source_key q)).
      intros y q' Hy Hq' Heq. apply (Hlast y q' Hy Hq'). by injection Heq.
Qed.

Lemma one_row_per_key_witness :
  ∃ i r, committed (Harvest.insert_data (obliging ticking) [h100; h100_revised] empty_world).2
           !! i = Some r ∧
         Harvest.r_id r = VStr "H100" ∧ Harvest.r_kgs_harvested r = VNum 250 ∧
         ∀ j r', committed (Harvest.insert_data (obliging ticking) [h100; h100_revised]
                              empty_world).2 !! j = Some r' →
                 Harvest.r_id r' = VStr "H100" → j = i.
Proof.
  edestruct (proj2 (proj1 one_row_per_key (obliging ticking) [h100; h100_revised] empty_world
                      eq_refl ltac:(by intros i j r1 r2 Hi))
               ()
               (Harvest.insert_data (obliging ticking) [h100; h100_revised] empty_world).2
               [h100] h100_revised [] h100_revised_params)
    as (i & r & Hi & Hid & Hr & Huniq).
  - vm_compute. reflexivity.
  - reflexivity.
  - vm_compute. reflexivity.
  - discriminate.
  - intros y q' Hy. by apply elem_of_nil in Hy.
  - exists i, r. split; [exact Hi|]. split; [exact Hid|]. split; [|exact Huniq].
    change (Harvest.r_kgs_harvested r)
      with (Harvest.r_kgs_harvested (Harvest.without_insert_date r)).
    rewrite Hr. vm_compute. reflexivity.
Defined.

(** C5: a call of [insert_data] (on a connection with nothing pending, as
    [sync_data] calls it) removes no row; a row that no statement of the
    batch matches is the same row afterwards; a row that is matched keeps
    its key; and every new row carries the key of a row of the batch for
    which the table had no row. *)
Theorem insert_data_frame :
  (∀ (E : env Harvest.params Harvest.row) data w,
     working w = committed w →
     let w' := (Harvest.insert_data E data w).2 in
     (length (committed w) ≤ length (committed w'))%nat ∧
     (∀ i r, committed w !! i = Some r →
        ∃ r', committed w' !! i = Some r' ∧ Harvest.r_id r' = Harvest.r_id r ∧
              ((∀ x p, x ∈ data → Harvest.bind_params x = Ok p →
                       sql_eq (Harvest.r_id r) (Harvest.p_id p) = false) → r' = r)) ∧
     (∀ i r', committed w' !! i = Some r' → (length (committed w) ≤ i)%nat →
        ∃ x p, x ∈ data ∧ Harvest.bind_params x = Ok p ∧
               Harvest.r_id r' = Harvest.p_id p ∧
               existsb (on_match p) (committed w) = false)) ∧
  (∀ (E : env Tvn.params Tvn.row) df w,
     working w = committed w →
     let w' := (Tvn.insert_data E df w).2 in
     (length (committed w) ≤ length (committed w'))%nat ∧
     (∀ i r, committed w !! i = Some r →
        ∃ r', committed w' !! i = Some r' ∧ Tvn.r_date r' = Tvn.r_date r ∧
              ((∀ x p, x ∈ df → Tvn.bind_params x = Ok p →
                       sql_eq (Tvn.r_date r) (VStr (Tvn.p_date p)) = false) → r' = r)) ∧
     (∀ i r', committed w' !! i = Some r' → (length (committed w) ≤ i)%nat →
        ∃ x p, x ∈ df ∧ Tvn.bind_params x = Ok p ∧
               Tvn.r_date r' = VStr (Tvn.p_date p) ∧
               existsb (on_match p) (committed w) = false)).
Proof.
  split.
  - intros E data w Hw. exact (transact_frame E Harvest.bind_params data w Hw).
  - intros E df w Hw. exact (transact_frame E Tvn.bind_params df w Hw).
Qed.

Lemma insert_data_frame_witness :
  committed (Harvest.insert_data (obliging ticking) [h100] stocked_world).2 !! 0%nat
  = Some h099_row.
Proof.
  destruct (proj1 insert_data_frame (obliging ticking) [h100] stocked_world eq_refl)
    as (_ & Hold & _).
  destruct (Hold 0%nat h099_row eq_refl) as (r' & Hr' & _ & Hsame).
  rewrite Hr'. f_equal. apply Hsame.
  intros x p Hx Hb. apply list_elem_of_singleton in Hx as ->.
  vm_compute in Hb. injection Hb as <-. reflexivity.
Defined.

(** C6, as stated, fails for the daily totals: a run of [get_tvn.py]'s
    [sync_data] that fetches one row and commits it makes no notifier call
    at all. *)
Lemma tvn_sync_without_notification :
  (Tvn.sync_data (obliging ticking) (supabase_returning totals_rows) None None
     empty_world).1 = Ok () ∧
  length (committed (Tvn.sync_data (obliging ticking) (supabase_returning totals_rows)
                       None None empty_world).2) = 1%nat ∧
  length (notify_calls
            (trace (Tvn.sync_data (obliging ticking) (supabase_returning totals_rows)
                      None None empty_world).2)) ≠ 1%nat.
Proof. vm_compute. split; [done|]. split; [done|]. discriminate. Qed.

(** C6, amended: on a console that takes every line, every run of
    [main.py]'s [sync_data] calls [send_email_notification] exactly once.
    The call says success, with the window and the number of records
    fetched, exactly when the fetch returned and the connection block
    around [insert_data] went through; otherwise it says failure, with the
    window, the text of the exception that stopped the run, and the
    record count the run had reached (0 when the fetch failed, the number
    of fetched records afterwards).  Whatever the console does, a run that
    returns has made one call, and a run that an exception leaves (the
    [print] of the handler failed) has made none.  The [sync_data] of
    [get_tvn.py] has no notifier and makes no call on any run. *)
Theorem sync_data_notifies_once :
  (∀ (E : env Harvest.params Harvest.row) (out : Harvest.console) get cfg
     start_date end_date w,
     (∀ v line, out v line = None) →
     let s := default (today E) start_date in
     let e := default (today E) end_date in
     notify_calls (trace (Harvest.sync_data_out E out get cfg start_date end_date w).2) =
       notify_calls (trace w) ++
       [match get (str_date s) (str_date e) with
        | Raise err => CallNotify false s e (Some (str_exn err)) 0
        | Ok data =>
            match (with_connection E (Harvest.insert_data E data) w).1 with
            | Ok _ => CallNotify true s e None (length data)
            | Raise err => CallNotify false s e (Some (str_exn err)) (length data)
            end
        end]) ∧
  (∀ (E : env Harvest.params Harvest.row) (out : Harvest.console) get cfg
     start_date end_date w,
     ∃ calls,
       notify_calls (trace (Harvest.sync_data_out E out get cfg start_date end_date w).2) =
         notify_calls (trace w) ++ calls ∧
       match (Harvest.sync_data_out E out get cfg start_date end_date w).1 with
       | Ok _ => length calls = 1%nat
       | Raise _ => calls = []
       end) ∧
  (∀ (E : env Tvn.params Tvn.row) (out : Tvn.console) S start_date end_date w,
     notify_calls (trace (Tvn.sync_data_out E out S start_date end_date w).2) =
       notify_calls (trace w)).
Proof.
  split; [|split].
  - intros E out get cfg start_date end_date w Hout s e.
    rewrite (sync_data_out_accepted E out Hout), harvest_sync_data_cases.
    fold s e. unfold str_date.
    assert (Hsplit : ∀ (t evs : list (event Harvest.params)),
              notify_calls (t ++ evs) = notify_calls t ++ notify_calls evs).
    { intros. unfold notify_calls. by rewrite !omap_app. }
    destruct (get _ _) as [data|err].
    + pose proof (quiet_with_connection E _ (quiet_transact E Harvest.bind_params data) w)
        as [Hq _].
      rewrite <- harvest_insert_data_transact in Hq.
      destruct (with_connection E (Harvest.insert_data E data) w) as [[[]|err] wa];
        match goal with |- context [Harvest.send_email_notification ?E ?c ?b ?x ?y ?m ?n ?v] =>
          destruct (send_email_notification_world E c b x y m n v)
            as (evs & -> & _ & Hnc & _)
        end; simpl in *; rewrite <- app_assoc, Hsplit, Hq; cbn [app].
      * change (notify_calls (Log INFO ?m :: CallNotify ?a ?b ?c ?d ?k :: evs))
          with (CallNotify a b c d k :: notify_calls evs). by rewrite Hnc.
      * change (notify_calls (Log ERROR ?m :: CallNotify ?a ?b ?c ?d ?k :: evs))
          with (CallNotify a b c d k :: notify_calls evs). by rewrite Hnc.
    + match goal with |- context [Harvest.send_email_notification ?E ?c ?b ?x ?y ?m ?n ?v] =>
        destruct (send_email_notification_world E c b x y m n v)
          as (evs & -> & _ & Hnc & _)
      end; simpl. rewrite <- app_assoc, Hsplit. cbn [app].
      change (notify_calls (Log ERROR ?m1 :: Log ERROR ?m2 :: CallNotify ?a ?b ?c ?d ?k :: evs))
        with (CallNotify a b c d k :: notify_calls evs). by rewrite Hnc.
  - intros E out get cfg start_date end_date w.
    apply sync_data_out_calls.
  - intros E out S start_date end_date w.
    apply (quiet_tvn_sync_data_out E out S start_date end_date w).
Qed.

Lemma sync_data_notifies_once_witness :
  notify_calls (trace (Harvest.sync_data_out (obliging ticking) plain_console
                         (λ _ _, Ok [h100; h101_undated]) no_email None None
                         stocked_world).2) =
    [CallNotify false {| dyear := 2024; dmonth := 6; dday := 1 |}
       {| dyear := 2024; dmonth := 6; dday := 1 |} (Some "'harvest_date'") 2].
Proof.
  apply (proj1 sync_data_notifies_once (obliging ticking) plain_console
           (λ _ _, Ok [h100; h101_undated]) no_email None None stocked_world).
  reflexivity.
Defined.




(** C8, as stated, fails: a record with every required field present and
    well-formed dates, whose [duration] is the text ["n/a"], is normalized
    without error, and the resulting row does not satisfy the declared
    constraints (its numeric field [duration] is not a number). *)
Lemma valid_row_breaks_declared_constraints :
  Harvest.valid_raw h102_odd ∧
  ∃ p, Harvest.bind_params h102_odd = Ok p ∧ ¬ Harvest.declared_constraints p.
Proof.
  assert (Hb : Harvest.bind_params h102_odd =
               Ok {| Harvest.p_id := VStr "H102"; Harvest.p_farm := VStr "La Joya";
                     Harvest.p_plot := VStr "P-07"; Harvest.p_produce := VStr "avocado";
                     Harvest.p_worker := VStr "W-231"; Harvest.p_unit := VStr "kg";
                     Harvest.p_harvest_date := "2024-06-01 07:30:00";
                     Harvest.p_start_time := "07:30:00"; Harvest.p_end_time := "09:05:00";
                     Harvest.p_duration := VStr "n/a"; Harvest.p_containers := VNum 12;
                     Harvest.p_kgs_harvested := VNum 240 |}) by (vm_compute; reflexivity).
  split; [by eapply binds_valid_raw|].
  eexists. split; [exact Hb|].
  intros (_ & _ & [n Hn] & _). discriminate Hn.
Qed.

(** C8, amended: for every valid raw row (every required field present,
    [harvest_date] matching ['%Y-%m-%d %H:%M:%S'], [start_time] and
    [end_time] matching ['%H:%M']) normalization succeeds; the three date
    and time parameters of the resulting row are canonical texts of their
    formats, and the other nine parameters are the record's values as they
    came, unchecked.  For every row that is not valid (a required field is
    missing, or a date or time field is not text that parses) normalization
    raises an exception. *)
Theorem normalization_checks_dates_only :
  ∀ record,
    (Harvest.valid_raw record →
     ∃ p, Harvest.bind_params record = Ok p ∧ Harvest.dates_canonical p ∧
          Harvest.passed_through record p) ∧
    (¬ Harvest.valid_raw record → ∃ e, Harvest.bind_params record = Raise e).
Proof.
  intros record. split.
  - apply valid_raw_binds.
  - intros Hnot. destruct (Harvest.bind_params record) as [p|e] eqn:Hb; [|eauto].
    destruct Hnot. by eapply binds_valid_raw.
Qed.

Lemma normalization_checks_dates_only_witness :
  (∃ p, Harvest.bind_params h100 = Ok p ∧ Harvest.dates_canonical p ∧
        Harvest.passed_through h100 p) ∧
  (∃ e, Harvest.bind_params h101_undated = Raise e).
Proof.
  split.
  - apply (proj1 (normalization_checks_dates_only h100)).
    apply (binds_valid_raw h100 h100_params). vm_compute. reflexivity.
  - apply (proj2 (normalization_checks_dates_only h101_undated)).
    intros [Hall _]. destruct (Hall "harvest_date") as [v Hv]; [repeat constructor|].
    vm_compute in Hv. discriminate Hv.
Defined.

(** C9: when any of the three email settings is unset,
    [send_email_notification] records the call, logs the warning and
    returns without opening a mail session, whatever the outcome it is
    given; so a run of [sync_data] under such a configuration delivers no
    mail, whether the run succeeded or failed. *)
Theorem unconfigured_email_skips_delivery :
  ∀ (E : env Harvest.params Harvest.row) cfg,
    Harvest.EMAIL_SENDER cfg = None ∨ Harvest.EMAIL_PASSWORD cfg = None ∨
    Harvest.EMAIL_RECIPIENT cfg = None →
    (∀ success start_date end_date msg n w,
       Harvest.send_email_notification E cfg success start_date end_date msg n w =
         (Ok (), {| committed := committed w; working := working w;
                    trace := trace w ++
                      [CallNotify success start_date end_date msg n;
                       Log WARNING
                         "Email configuration missing. Skipping email notification."] |})) ∧
    (∀ get start_date end_date w,
       smtp_sessions (trace (Harvest.sync_data E get cfg start_date end_date w).2) =
       smtp_sessions (trace w)).
Proof.
  intros E cfg Hcfg. split.
  - intros. by apply send_email_notification_unconfigured.
  - intros get start_date end_date w.
    destruct (sync_data_shape E get cfg start_date end_date w)
      as (w1 & success & msg & n & _ & Hs & -> & _).
    rewrite send_email_notification_unconfigured by done. simpl.
    unfold smtp_sessions in *. by rewrite omap_app, Hs, app_nil_r.
Qed.

Lemma unconfigured_email_skips_delivery_witness :
  smtp_sessions
    (trace (Harvest.sync_data (obliging ticking) (λ _ _, Ok [h100]) no_email None None
              empty_world).2) = [] ∧
  smtp_sessions
    (trace (Harvest.sync_data (obliging ticking) (λ _ _, Ok [h101_undated]) no_email
              None None empty_world).2) = [].
Proof.
  split.
  - apply (proj2 (unconfigured_email_skips_delivery (obliging ticking) no_email
                    (or_intror (or_introl eq_refl)))
             (λ _ _, Ok [h100]) None None empty_world).
  - apply (proj2 (unconfigured_email_skips_delivery (obliging ticking) no_email
                    (or_intror (or_introl eq_refl)))
             (λ _ _, Ok [h101_undated]) None None empty_world).
Defined.

(** C10, as stated, fails when the console refuses a line of the handler.
    Both handlers begin with a [print] whose text starts with a cross.  On
    a console that cannot encode it, a failed fetch is logged by the
    fetching function, but the [print] of the handler of [sync_data]
    raises: the exception leaves [sync_data], the failure record of
    [sync_data] is not written, and in [main.py] nobody is notified. *)
Lemma handler_print_error_propagates :
  Harvest.sync_data_out (obliging ticking) legacy_console api_down full_email None None
    stocked_world =
    (Raise (unencodable "\u2717" "1"),
     with_events stocked_world [Log ERROR "API fetch error: 503 Server Error"]) ∧
  Tvn.sync_data_out (obliging ticking) tvn_legacy_console supabase_down None None
    june_world =
    (Raise (unencodable "\u2717" "1"),
     with_events june_world [Log ERROR "Supabase data fetch error: connection refused"]).
Proof. split; vm_compute; reflexivity. Qed.

(** C10, amended: on a console that takes every line, both [sync_data]
    functions return normally whatever the window, the source, the store
    and the mail server do, and every failure ends in records of the log
    (and, in [main.py], in the failure call of the notifier):
    - [main.py], failed fetch: the error record of [fetch_api_data], the
      error record of [sync_data], the failure call with the text of the
      exception and a count of zero;
    - [main.py], failure in the connection block (connection, a row that
      does not bind, a refused statement, a failed commit): what the block
      logged, then the error record of [sync_data] and the failure call with
      the text of the exception and the number of fetched records;
    - [main.py], success: the success record and the success call;
    - [get_tvn.py]: the same with the error record or the success record of
      its [sync_data] as the last event, and no call.
    The value handed to the caller is the same in all cases. *)
Theorem sync_data_returns_normally :
  (∀ (E : env Harvest.params Harvest.row) (out : Harvest.console) get cfg
     start_date end_date w,
     (∀ v line, out v line = None) →
     let s := default (today E) start_date in
     let e := default (today E) end_date in
     ∃ evs,
       Forall (λ ev, match ev with Smtp _ | Log _ _ => True | _ => False end) evs ∧
       Harvest.sync_data_out E out get cfg start_date end_date w =
         match get (str_date s) (str_date e) with
         | Raise err =>
             (Ok (), with_events w
                       ([Log ERROR ("API fetch error: " +:+ str_exn err);
                         Log ERROR ("Data sync failed: " +:+ str_exn err);
                         CallNotify false s e (Some (str_exn err)) 0] ++ evs))
         | Ok data =>
             match with_connection E (Harvest.insert_data E data) w with
             | (Ok _, wa) =>
                 (Ok (), with_events wa
                           ([Log INFO ("Data sync completed successfully for period "
                                       +:+ str_date s +:+ " to " +:+ str_date e);
                             CallNotify true s e None (length data)] ++ evs))
             | (Raise err, wa) =>
                 (Ok (), with_events wa
                           ([Log ERROR ("Data sync failed: " +:+ str_exn err);
                             CallNotify false s e (Some (str_exn err)) (length data)]
                            ++ evs))
             end
         end) ∧
  (∀ (E : env Tvn.params Tvn.row) (out : Tvn.console) S start_date end_date w,
     (∀ v line, out v line = None) →
     let s := default (today E) start_date in
     let e := default (today E) end_date in
     Tvn.sync_data_out E out S start_date end_date w =
       match Tvn.get_supabase_data S (Some s) (Some e) w with
       | (Raise err, w1) =>
           (Ok (), with_events w1 [Log ERROR ("TVN data sync failed: " +:+ str_exn err)])
       | (Ok df, w1) =>
           match with_connection E (Tvn.insert_data E df) w1 with
           | (Ok _, wa) =>
               (Ok (), with_events wa
                         [Log INFO ("TVN data sync completed successfully for period "
                                    +:+ str_date s +:+ " to " +:+ str_date e)])
           | (Raise err, wa) =>
               (Ok (), with_events wa
                         [Log ERROR ("TVN data sync failed: " +:+ str_exn err)])
           end
       end).
Proof.
  split.
  - intros E out get cfg start_date end_date w Hout s e.
    rewrite (sync_data_out_accepted E out Hout), harvest_sync_data_cases.
    fold s e. unfold str_date at 1 2.
    destruct (get _ _) as [data|err].
    + destruct (with_connection E (Harvest.insert_data E data) w) as [[[]|err] wa];
        match goal with |- context [Harvest.send_email_notification ?E ?c ?b ?x ?y ?m ?n ?v] =>
          destruct (send_email_notification_world E c b x y m n v)
            as (evs & -> & _ & _ & Hevs)
        end; exists evs; (split; [exact Hevs|]); by rewrite with_events_app.
    + match goal with |- context [Harvest.send_email_notification ?E ?c ?b ?x ?y ?m ?n ?v] =>
        destruct (send_email_notification_world E c b x y m n v)
          as (evs & -> & _ & _ & Hevs)
      end. exists evs. split; [exact Hevs|]. by rewrite with_events_app.
  - intros E out S start_date end_date w Hout s e.
    rewrite (tvn_sync_data_out_accepted E out Hout). apply tvn_sync_data_cases.
Qed.

Lemma sync_data_returns_normally_witness :
  ∃ evs,
    Harvest.sync_data_out (obliging ticking) plain_console api_down no_email None None
      stocked_world =
      (Ok (), with_events stocked_world
                ([Log ERROR "API fetch error: 503 Server Error";
                  Log ERROR "Data sync failed: 503 Server Error";
                  CallNotify false {| dyear := 2024; dmonth := 6; dday := 1 |}
                    {| dyear := 2024; dmonth := 6; dday := 1 |}
                    (Some "503 Server Error") 0] ++ evs)).
Proof.
  destruct (proj1 sync_data_returns_normally (obliging ticking) plain_console api_down
              no_email None None stocked_world) as (evs & _ & Hrun).
  - reflexivity.
  - exists evs. exact Hrun.
Defined.

(** * Further properties of the two scripts *)

(** ** [insert_data] *)

(** X1: when every row of the batch binds and is accepted but the commit
    fails, [insert_data] raises the error of the commit after a rollback:
    one statement per row was issued, the durable table is the one before
    the call and nothing is pending. *)
Theorem insert_data_commit_failure :
  (∀ (E : env Harvest.params Harvest.row) data stmts w w1 e,
     accepted E Harvest.bind_params w data stmts w1 →
     commit_error E w1 = Some e →
     Harvest.insert_data E data w =
       (Raise e, {| committed := committed w; working := committed w;
                    trace := trace w ++ (Execute <$> stmts.*2) ++ error_tail e |}) ∧
     length stmts = length data) ∧
  (∀ (E : env Tvn.params Tvn.row) df stmts w w1 e,
     accepted E Tvn.bind_params w df stmts w1 →
     commit_error E w1 = Some e →
     Tvn.insert_data E df w =
       (Raise e, {| committed := committed w; working := committed w;
                    trace := trace w ++ (Execute <$> stmts.*2) ++ error_tail e |}) ∧
     length stmts = length df).
Proof.
  split; intros E data stmts w w1 e Hacc Hcm.
  - rewrite harvest_insert_data_transact,
      (transact_commit_fails E Harvest.bind_params data w stmts w1 e Hacc Hcm).
    apply accepted_spec in Hacc as (-> & _ & -> & HF).
    apply Forall2_length in HF. rewrite length_fmap in HF.
    by rewrite <- app_assoc.
  - rewrite tvn_insert_data_transact,
      (transact_commit_fails E Tvn.bind_params data w stmts w1 e Hacc Hcm).
    apply accepted_spec in Hacc as (-> & _ & -> & HF).
    apply Forall2_length in HF. rewrite length_fmap in HF.
    by rewrite <- app_assoc.
Qed.

Lemma insert_data_commit_failure_witness :
  Harvest.insert_data commit_refusing [h100] stocked_world =
    (Raise (DatabaseError "transaction was deadlocked"),
     {| committed := [h099_row]; working := [h099_row];
        trace := [Execute h100_params] ++
                 error_tail (DatabaseError "transaction was deadlocked") |}).
Proof.
  edestruct (proj1 insert_data_commit_failure commit_refusing [h100]) as [Hrun _].
  - eapply accepted_cons; [reflexivity|reflexivity|apply accepted_nil].
  - reflexivity.
  - exact Hrun.
Defined.



(** X3: when [insert_data] of the daily totals returns, no date of the
    frame was missing, and the statements it issued carry, row by row, the
    date in ISO form and the two totals as they stood in the frame. *)
Theorem tvn_insert_data_statements :
  ∀ (E : env Tvn.params Tvn.row) df w u w',
    Tvn.insert_data E df w = (Ok u, w') →
    ∃ dates,
      Tvn.c_date <$> df = Tvn.DateCell <$> dates ∧
      statements_issued (trace w') =
        statements_issued (trace w) ++
        zip_with (λ d row, {| Tvn.p_date := str_date d;
                              Tvn.p_kgs_harvest_tvn := Tvn.c_kgs_harvest_tvn row;
                              Tvn.p_kgs_packed_cnd := Tvn.c_kgs_packed_cnd row |})
                 dates df.
Proof.
  intros E df w u w' Hrun. rewrite tvn_insert_data_transact in Hrun.
  apply transact_ok in Hrun as (stmts & HF & _ & _ & Htr).
  assert (∀ ps, Forall2 (λ x p, Tvn.bind_params x = Ok p) df ps →
            ∃ dates, Tvn.c_date <$> df = Tvn.DateCell <$> dates ∧
                     ps = zip_with (λ d row, {| Tvn.p_date := str_date d;
                                Tvn.p_kgs_harvest_tvn := Tvn.c_kgs_harvest_tvn row;
                                Tvn.p_kgs_packed_cnd := Tvn.c_kgs_packed_cnd row |})
                                   dates df) as Hall.
  { clear. intros ps HF.
    induction HF as [|row p df ps Hb _ (dates & Hd & Hps)]; [by exists []|].
    unfold Tvn.bind_params in Hb. destruct (Tvn.c_date row) as [d|] eqn:Hc; [|done].
    injection Hb as <-. exists (d :: dates).
    rewrite !fmap_cons, Hc, Hd, Hps. done. }
  destruct (Hall _ HF) as (dates & Hd & Hps).
  exists dates. split; [done|].
  rewrite Htr, <- Hps. unfold statements_issued. rewrite !omap_app.
  fold (statements_issued (Execute <$> stmts.*2)).
  rewrite statements_issued_executes. simpl. by rewrite app_nil_r.
Qed.

Lemma tvn_insert_data_statements_witness :
  ∃ dates,
    Tvn.c_date <$> [june_1] = Tvn.DateCell <$> dates ∧
    statements_issued (trace (Tvn.insert_data (obliging ticking) [june_1] june_world).2) =
      zip_with (λ d row, {| Tvn.p_date := str_date d;
                            Tvn.p_kgs_harvest_tvn := Tvn.c_kgs_harvest_tvn row;
                            Tvn.p_kgs_packed_cnd := Tvn.c_kgs_packed_cnd row |})
               dates [june_1].
Proof.
  edestruct (tvn_insert_data_statements (obliging ticking) [june_1] june_world)
    as (dates & Hd & Hst).
  - vm_compute. reflexivity.
  - exists dates. split; [exact Hd|exact Hst].
Defined.

(** ** A run of [sync_data] *)

(** X4: a run of either [sync_data] never removes a row and never changes
    the key of a row: every row of the table before the run is at the same
    place afterwards, with the same key. *)
Theorem sync_data_keeps_rows :
  (∀ (E : env Harvest.params Harvest.row) get cfg start_date end_date w i r,
     committed w !! i = Some r →
     ∃ r', committed (Harvest.sync_data E get cfg start_date end_date w).2 !! i = Some r' ∧
           Harvest.r_id r' = Harvest.r_id r) ∧
  (∀ (E : env Tvn.params Tvn.row) S start_date end_date w i r,
     committed w !! i = Some r →
     ∃ r', committed (Tvn.sync_data E S start_date end_date w).2 !! i = Some r' ∧
           Tvn.r_date r' = Tvn.r_date r).
Proof.
  split.
  - intros E get cfg start_date end_date w i r Hi.
    rewrite harvest_sync_data_cases.
    destruct (get _ _) as [data|err].
    + pose proof (with_connection_transact_keeps E Harvest.bind_params data w)
        as (_ & _ & Hold).
      rewrite <- harvest_insert_data_transact in Hold.
      destruct (Hold i r Hi) as (r' & Hr' & Hk).
      destruct (with_connection E (Harvest.insert_data E data) w) as [[[]|err] wa];
        match goal with |- context [Harvest.send_email_notification ?E ?c ?s ?a ?b ?m ?n ?v] =>
          destruct (send_email_notification_world E c s a b m n v) as (evs & -> & _)
        end; by exists r'.
    + match goal with |- context [Harvest.send_email_notification ?E ?c ?s ?a ?b ?m ?n ?v] =>
        destruct (send_email_notification_world E c s a b m n v) as (evs & -> & _)
      end. by exists r.
  - intros E S start_date end_date w i r Hi.
    rewrite tvn_sync_data_cases.
    pose proof (get_supabase_data_world S (Some (default (today E) start_date))
                  (Some (default (today E) end_date)) w) as Hw.
    destruct (Tvn.get_supabase_data S _ _ w) as [[df|err] w1]; subst w1; [|by exists r].
    pose proof (with_connection_transact_keeps E Tvn.bind_params df w) as (_ & _ & Hold).
    rewrite <- tvn_insert_data_transact in Hold.
    destruct (Hold i r Hi) as (r' & Hr' & Hk).
    destruct (with_connection E (Tvn.insert_data E df) w) as [[[]|err] wa]; by exists r'.
Qed.

Lemma sync_data_keeps_rows_witness :
  ∃ r', committed (Harvest.sync_data (obliging ticking) (λ _ _, Ok [h100]) no_email
                     None None stocked_world).2 !! 0%nat = Some r' ∧
        Harvest.r_id r' = VStr "H099".
Proof.
  apply (proj1 sync_data_keeps_rows (obliging ticking) (λ _ _, Ok [h100]) no_email
           None None stocked_world 0%nat h099_row).
  reflexivity.
Defined.

(** X5: a run of either [sync_data] keeps the keys that are not null
    apart: when no two rows of the table share a key that is not null, no
    two rows share one after the run, whatever the source returned and
    whatever the store answered.  Rows with a null key are not counted:
    SQL equality never holds for a null, and a run can add several of
    them. *)
Theorem sync_data_unique_keys :
  (∀ (E : env Harvest.params Harvest.row) get cfg start_date end_date w,
     (∀ i j r1 r2, committed w !! i = Some r1 → committed w !! j = Some r2 →
        Harvest.r_id r1 = Harvest.r_id r2 → Harvest.r_id r1 ≠ VNone → i = j) →
     ∀ i j r1 r2,
       committed (Harvest.sync_data E get cfg start_date end_date w).2 !! i = Some r1 →
       committed (Harvest.sync_data E get cfg start_date end_date w).2 !! j = Some r2 →
       Harvest.r_id r1 = Harvest.r_id r2 → Harvest.r_id r1 ≠ VNone → i = j) ∧
  (∀ (E : env Tvn.params Tvn.row) S start_date end_date w,
     (∀ i j r1 r2, committed w !! i = Some r1 → committed w !! j = Some r2 →
        Tvn.r_date r1 = Tvn.r_date r2 → Tvn.r_date r1 ≠ VNone → i = j) →
     ∀ i j r1 r2,
       committed (Tvn.sync_data E S start_date end_date w).2 !! i = Some r1 →
       committed (Tvn.sync_data E S start_date end_date w).2 !! j = Some r2 →
       Tvn.r_date r1 = Tvn.r_date r2 → Tvn.r_date r1 ≠ VNone → i = j).
Proof.
  assert (Hspec : ∀ {Params Row : Type} {MT : MergeTable Params Row} (T : list Row),
            unique_keys T ↔
            ∀ i j r1 r2, T !! i = Some r1 → T !! j = Some r2 →
              target_key r1 = target_key r2 → target_key r1 ≠ VNone → i = j).
  { intros Params Row MT T. unfold unique_keys. split.
    - intros H i j r1 r2 Hi Hj Heq Hnn. apply (H i j r1 r2 Hi Hj).
      apply sql_eq_true. by split.
    - intros H i j r1 r2 Hi Hj Heq. apply sql_eq_true in Heq as [Heq Hnn].
      by apply (H i j r1 r2). }
  split.
  - intros E get cfg start_date end_date w Hu.
    apply (Hspec _ _ Harvest.harvests). apply (Hspec _ _ Harvest.harvests) in Hu.
    rewrite harvest_sync_data_cases.
    destruct (get _ _) as [data|err].
    + pose proof (with_connection_transact_keeps E Harvest.bind_params data w)
        as (Huk & _).
      rewrite <- harvest_insert_data_transact in Huk. specialize (Huk Hu).
      destruct (with_connection E (Harvest.insert_data E data) w) as [[[]|err] wa];
        match goal with |- context [Harvest.send_email_notification ?E ?c ?s ?a ?b ?m ?n ?v] =>
          destruct (send_email_notification_world E c s a b m n v) as (evs & -> & _)
        end; exact Huk.
    + match goal with |- context [Harvest.send_email_notification ?E ?c ?s ?a ?b ?m ?n ?v] =>
        destruct (send_email_notification_world E c s a b m n v) as (evs & -> & _)
      end. exact Hu.
  - intros E S start_date end_date w Hu.
    apply (Hspec _ _ Tvn.tracefruit_harvest).
    apply (Hspec _ _ Tvn.tracefruit_harvest) in Hu.
    rewrite tvn_sync_data_cases.
    pose proof (get_supabase_data_world S (Some (default (today E) start_date))
                  (Some (default (today E) end_date)) w) as Hw.
    destruct (Tvn.get_supabase_data S _ _ w) as [[df|err] w1]; subst w1; [|exact Hu].
    pose proof (with_connection_transact_keeps E Tvn.bind_params df w) as (Huk & _).
    rewrite <- tvn_insert_data_transact in Huk. specialize (Huk Hu).
    destruct (with_connection E (Tvn.insert_data E df) w) as [[[]|err] wa]; exact Huk.
Qed.

Lemma sync_data_unique_keys_witness :
  unique_keys (committed (Harvest.sync_data (obliging ticking)
                            (λ _ _, Ok [h100; h100_revised]) no_email None None
                            stocked_world).2).
Proof.
  intros i j r1 r2 Hi Hj Heq. apply sql_eq_true in Heq as [Heq Hnn].
  revert i j r1 r2 Hi Hj Heq Hnn.
  apply (proj1 sync_data_unique_keys (obliging ticking) (λ _ _, Ok [h100; h100_revised])
           no_email None None stocked_world).
  intros i j r1 r2 Hi Hj _ _.
  destruct i as [|i]; [|discriminate Hi]. destruct j as [|j]; [|discriminate Hj].
  reflexivity.
Defined.

(** X6: the harvest run reports success only after the whole batch is in
    the table: when the notifier call of a run says success, the API call
    returned, the record count of the call is the number of fetched
    records, every record bound its parameters, one statement per record
    was issued in the order of the response, and the durable table is the
    table before the run with these statements applied. *)
Theorem success_notification_after_commit :
  ∀ (E : env Harvest.params Harvest.row) get cfg start_date end_date w s e msg n,
    notify_calls (trace (Harvest.sync_data E get cfg start_date end_date w).2) =
      notify_calls (trace w) ++ [CallNotify true s e msg n] →
    ∃ data stmts,
      get (str_date (default (today E) start_date))
          (str_date (default (today E) end_date)) = Ok data ∧
      n = length data ∧
      Forall2 (λ x p, Harvest.bind_params x = Ok p) data stmts.*2 ∧
      committed (Harvest.sync_data E get cfg start_date end_date w).2 =
        merge_all stmts (committed w) ∧
      statements_issued (trace (Harvest.sync_data E get cfg start_date end_date w).2) =
        statements_issued (trace w) ++ stmts.*2.
Proof.
  intros E get cfg start_date end_date w s e msg n.
  rewrite harvest_sync_data_cases. unfold str_date.
  assert (Hsplit : ∀ (t evs : list (event Harvest.params)),
            notify_calls (t ++ evs) = notify_calls t ++ notify_calls evs ∧
            statements_issued (t ++ evs) = statements_issued t ++ statements_issued evs).
  { intros. unfold notify_calls, statements_issued. by rewrite !omap_app. }
  destruct (get _ _) as [data|err].
  - pose proof (with_connection_transact_table E Harvest.bind_params data w) as [_ Hok].
    pose proof (quiet_with_connection E _ (quiet_transact E Harvest.bind_params data) w)
      as [Hq _].
    rewrite <- harvest_insert_data_transact in Hok, Hq.
    destruct (with_connection E (Harvest.insert_data E data) w) as [[[]|err] wa];
      match goal with |- context [Harvest.send_email_notification ?E ?c ?s ?a ?b ?m ?n ?v] =>
        destruct (send_email_notification_world E c s a b m n v)
          as (evs & -> & Hst & Hnc & _)
      end; simpl in *.
    + rewrite <- app_assoc, (proj1 (Hsplit _ _)), Hq. cbn [app].
      change (notify_calls (Log INFO ?m :: CallNotify ?a ?b ?c ?d ?k :: evs))
        with (CallNotify a b c d k :: notify_calls evs).
      rewrite Hnc. intros Heq. apply app_inv_head in Heq. injection Heq as <- <- <- <-.
      destruct (Hok eq_refl) as (stmts & HF & Hc & Hs).
      exists data, stmts. split; [done|]. split; [done|]. split; [done|]. split; [done|].
      rewrite (proj2 (Hsplit _ _)), Hs.
      change (statements_issued (Log INFO ?m :: CallNotify ?a ?b ?c ?d ?k :: evs))
        with (statements_issued evs).
      by rewrite Hst, app_nil_r.
    + rewrite <- app_assoc, (proj1 (Hsplit _ _)), Hq. cbn [app].
      change (notify_calls (Log ERROR ?m :: CallNotify ?a ?b ?c ?d ?k :: evs))
        with (CallNotify a b c d k :: notify_calls evs).
      rewrite Hnc. intros Heq. apply app_inv_head in Heq. discriminate Heq.
  - match goal with |- context [Harvest.send_email_notification ?E ?c ?s ?a ?b ?m ?n ?v] =>
      destruct (send_email_notification_world E c s a b m n v)
        as (evs & -> & Hst & Hnc & _)
    end; simpl.
    rewrite <- app_assoc, (proj1 (Hsplit _ _)). cbn [app].
    change (notify_calls (Log ERROR ?m1 :: Log ERROR ?m2 :: CallNotify ?a ?b ?c ?d ?k :: evs))
      with (CallNotify a b c d k :: notify_calls evs).
    rewrite Hnc. intros Heq. apply app_inv_head in Heq. discriminate Heq.
Qed.

Lemma success_notification_after_commit_witness :
  ∃ data stmts,
    data = [h100] ∧
    Forall2 (λ x p, Harvest.bind_params x = Ok p) data stmts.*2 ∧
    committed (Harvest.sync_data (obliging ticking) (λ _ _, Ok [h100]) no_email None None
                 stocked_world).2 = merge_all stmts [h099_row].
Proof.
  edestruct (success_notification_after_commit (obliging ticking) (λ _ _, Ok [h100]) no_email
               None None stocked_world) as (data & stmts & Hget & _ & HF & Hc & _).
  - vm_compute. reflexivity.
  - exists data, stmts. split; [by injection Hget|]. split; [exact HF|exact Hc].
Defined.



(** X8: when the records were fetched but the database cannot be reached,
    [get_database_connection] logs the error and raises it again, and the
    harvest run ends as a failure: the tables are as before, no statement
    is issued, and the failure call of the notifier carries the number of
    fetched records although none was written. *)
Theorem connection_failure_run :
  ∀ (E : env Harvest.params Harvest.row) get cfg start_date end_date w data err,
    let s := default (today E) start_date in
    let e := default (today E) end_date in
    get (str_date s) (str_date e) = Ok data →
    connect_error E w = Some err →
    ∃ evs,
      Harvest.sync_data E get cfg start_date end_date w =
        (Ok (), with_events w
                  ([Log ERROR ("Database connection error: " +:+ str_exn err);
                    Log ERROR ("Data sync failed: " +:+ str_exn err);
                    CallNotify false s e (Some (str_exn err)) (length data)] ++ evs)) ∧
      Forall (λ ev, match ev with Smtp _ | Log _ _ => True | _ => False end) evs.
Proof.
  intros E get cfg start_date end_date w data err s e Hget Hconn.
  rewrite harvest_sync_data_cases. fold s e. unfold str_date in Hget. rewrite Hget.
  rewrite with_connection_spec, Hconn.
  match goal with |- context [Harvest.send_email_notification ?E ?c ?b ?x ?y ?m ?n ?v] =>
    destruct (send_email_notification_world E c b x y m n v) as (evs & -> & _ & _ & Hevs)
  end.
  exists evs. by rewrite !with_events_app.
Qed.

Lemma connection_failure_run_witness :
  ∃ evs,
    Harvest.sync_data unreachable (λ _ _, Ok [h100; h100_revised]) no_email None None
      stocked_world =
      (Ok (), with_events stocked_world
                ([Log ERROR "Database connection error: login timeout expired";
                  Log ERROR "Data sync failed: login timeout expired";
                  CallNotify false {| dyear := 2024; dmonth := 6; dday := 1 |}
                    {| dyear := 2024; dmonth := 6; dday := 1 |}
                    (Some "login timeout expired") 2] ++ evs)).
Proof.
  edestruct (connection_failure_run unreachable (λ _ _, Ok [h100; h100_revised]) no_email
               None None stocked_world) as (evs & Hrun & _).
  - reflexivity.
  - reflexivity.
  - exists evs. exact Hrun.
Defined.



(** X10: an empty response changes nothing in the table and issues no
    statement, whatever the store answers; the harvest run still calls
    the notifier, with a record count of zero. *)
Theorem empty_response_run :
  (∀ (E : env Harvest.params Harvest.row) get cfg start_date end_date w,
     let s := default (today E) start_date in
     let e := default (today E) end_date in
     get (str_date s) (str_date e) = Ok [] →
     let w' := (Harvest.sync_data E get cfg start_date end_date w).2 in
     committed w' = committed w ∧
     statements_issued (trace w') = statements_issued (trace w) ∧
     ∃ success msg,
       notify_calls (trace w') = notify_calls (trace w) ++ [CallNotify success s e msg 0]) ∧
  (∀ (E : env Tvn.params Tvn.row) S start_date end_date w,
     let s := default (today E) start_date in
     let e := default (today E) end_date in
     Tvn.execute S (Some (str_date s)) (Some (str_date e)) = Ok [] →
     let w' := (Tvn.sync_data E S start_date end_date w).2 in
     committed w' = committed w ∧
     statements_issued (trace w') = statements_issued (trace w)).
Proof.
  split.
  - intros E get cfg start_date end_date w s e Hget.
    rewrite harvest_sync_data_cases. fold s e. unfold str_date in Hget. rewrite Hget.
    pose proof (with_connection_transact_nil E Harvest.bind_params w) as [Hc Hs].
    pose proof (quiet_with_connection E _ (quiet_transact E Harvest.bind_params []) w)
      as [Hq _].
    rewrite <- harvest_insert_data_transact in Hc, Hs, Hq.
    assert (Hsplit : ∀ (t evs : list (event Harvest.params)),
              notify_calls (t ++ evs) = notify_calls t ++ notify_calls evs ∧
              statements_issued (t ++ evs) = statements_issued t ++ statements_issued evs).
    { intros. unfold notify_calls, statements_issued. by rewrite !omap_app. }
    destruct (with_connection E (Harvest.insert_data E []) w) as [[[]|err] wa];
      match goal with |- context [Harvest.send_email_notification ?E ?c ?b ?x ?y ?m ?n ?v] =>
        destruct (send_email_notification_world E c b x y m n v)
          as (evs & -> & Hst & Hnc & _)
      end; simpl in *;
      (split; [done|]);
      rewrite <- app_assoc; cbn [app];
      rewrite (proj1 (Hsplit _ _)), (proj2 (Hsplit _ _)), Hs, Hq.
    + change (statements_issued (Log INFO ?m :: CallNotify ?a ?b ?c ?d ?k :: evs))
        with (statements_issued evs).
      change (notify_calls (Log INFO ?m :: CallNotify ?a ?b ?c ?d ?k :: evs))
        with (CallNotify a b c d k :: notify_calls evs).
      rewrite Hst, Hnc, app_nil_r. split; [done|]. by eexists _, _.
    + change (statements_issued (Log ERROR ?m :: CallNotify ?a ?b ?c ?d ?k :: evs))
        with (statements_issued evs).
      change (notify_calls (Log ERROR ?m :: CallNotify ?a ?b ?c ?d ?k :: evs))
        with (CallNotify a b c d k :: notify_calls evs).
      rewrite Hst, Hnc, app_nil_r. split; [done|]. by eexists _, _.
  - intros E S start_date end_date w s e Hex.
    rewrite tvn_sync_data_cases. fold s e.
    assert (Tvn.get_supabase_data S (Some s) (Some e) w = (Ok [], w)) as ->.
    { unfold Tvn.get_supabase_data, try_except. unfold mbind at 1, M_bind. unfold lift.
      simpl. unfold str_date in Hex. by rewrite Hex. }
    pose proof (with_connection_transact_nil E Tvn.bind_params w) as [Hc Hs].
    rewrite <- tvn_insert_data_transact in Hc, Hs.
    destruct (with_connection E (Tvn.insert_data E []) w) as [[[]|err] wa]; simpl in *;
      (split; [done|]); unfold statements_issued in *; rewrite omap_app, Hs; simpl;
      by rewrite app_nil_r.
Qed.

Lemma empty_response_run_witness :
  committed (Harvest.sync_data commit_refusing (λ _ _, Ok []) no_email None None
               stocked_world).2 = [h099_row].
Proof.
  apply (proj1 empty_response_run commit_refusing (λ _ _, Ok []) no_email None None
           stocked_world).
  reflexivity.
Defined.

(** X11: the statements a harvest run issues are the parameters bound from
    the first records of the response, one each, in the order of the
    response; none is issued when the API call fails. *)
Theorem run_statements_from_response :
  ∀ (E : env Harvest.params Harvest.row) get cfg start_date end_date w,
    ∃ ps,
      statements_issued (trace (Harvest.sync_data E get cfg start_date end_date w).2) =
        statements_issued (trace w) ++ ps ∧
      match get (str_date (default (today E) start_date))
                (str_date (default (today E) end_date)) with
      | Ok data => Forall2 (λ x p, Harvest.bind_params x = Ok p) (take (length ps) data) ps
      | Raise _ => ps = []
      end.
Proof.
  intros E get cfg start_date end_date w.
  rewrite harvest_sync_data_cases. unfold str_date.
  assert (Hsplit : ∀ (t evs : list (event Harvest.params)),
            statements_issued (t ++ evs) = statements_issued t ++ statements_issued evs).
  { intros. unfold statements_issued. by rewrite !omap_app. }
  destruct (get _ _) as [data|err].
  - destruct (with_connection_transact_statements E Harvest.bind_params data w)
      as (ps & Hps & HF).
    rewrite <- harvest_insert_data_transact in Hps.
    exists ps. split; [|exact HF].
    destruct (with_connection E (Harvest.insert_data E data) w) as [[[]|err] wa];
      match goal with |- context [Harvest.send_email_notification ?E ?c ?b ?x ?y ?m ?n ?v] =>
        destruct (send_email_notification_world E c b x y m n v)
          as (evs & -> & Hst & _)
      end; simpl in *; rewrite <- app_assoc; cbn [app]; rewrite Hsplit, Hps.
    + change (statements_issued (Log INFO ?m :: CallNotify ?a ?b ?c ?d ?k :: evs))
        with (statements_issued evs). by rewrite Hst, app_nil_r.
    + change (statements_issued (Log ERROR ?m :: CallNotify ?a ?b ?c ?d ?k :: evs))
        with (statements_issued evs). by rewrite Hst, app_nil_r.
  - exists []. split; [|done].
    match goal with |- context [Harvest.send_email_notification ?E ?c ?b ?x ?y ?m ?n ?v] =>
      destruct (send_email_notification_world E c b x y m n v)
        as (evs & -> & Hst & _)
    end; simpl. rewrite <- app_assoc; cbn [app]; rewrite Hsplit.
    change (statements_issued (Log ERROR ?m1 :: Log ERROR ?m2 :: CallNotify ?a ?b ?c ?d ?k :: evs))
      with (statements_issued evs). by rewrite Hst.
Qed.

(** ** Leaving the connection block *)

(** X12: [insert_data] commits, and leaving the [with] block commits once
    more.  When [insert_data] returned and that second commit fails, the
    harvest run is reported as failed, with the error of the commit and the
    number of fetched records, although the batch is durably in the table:
    a failure report does not mean that the table is unchanged. *)
Theorem exit_commit_failure_after_write :
  ∀ (E : env Harvest.params Harvest.row) get cfg start_date end_date w data u w1 err,
    let s := default (today E) start_date in
    let e := default (today E) end_date in
    get (str_date s) (str_date e) = Ok data →
    connect_error E w = None →
    Harvest.insert_data E data (fresh w) = (Ok u, w1) →
    commit_error E w1 = Some err →
    let w' := (Harvest.sync_data E get cfg start_date end_date w).2 in
    ∃ stmts,
      Forall2 (λ x p, Harvest.bind_params x = Ok p) data stmts.*2 ∧
      committed w' = merge_all stmts (committed w) ∧
      notify_calls (trace w') =
        notify_calls (trace w) ++ [CallNotify false s e (Some (str_exn err)) (length data)].
Proof.
  intros E get cfg start_date end_date w data u w1 err s e Hget Hconn Hins Hcm.
  rewrite harvest_sync_data_cases. fold s e. unfold str_date in Hget. rewrite Hget.
  rewrite with_connection_spec, Hconn, Hins, Hcm.
  pose proof (quiet_transact E Harvest.bind_params data (fresh w)) as [Hq _].
  rewrite <- harvest_insert_data_transact, Hins in Hq. simpl in Hq.
  rewrite harvest_insert_data_transact in Hins.
  apply transact_ok in Hins as (stmts & HF & Hc & _ & _). simpl in Hc.
  match goal with |- context [Harvest.send_email_notification ?E ?c ?b ?x ?y ?m ?n ?v] =>
    destruct (send_email_notification_world E c b x y m n v) as (evs & -> & _ & Hnc & _)
  end.
  exists stmts. split; [done|]. split; [done|]. simpl.
  rewrite <- app_assoc. cbn [app].
  assert (Hsplit : ∀ (t evs : list (event Harvest.params)),
            notify_calls (t ++ evs) = notify_calls t ++ notify_calls evs).
  { intros. unfold notify_calls. by rewrite !omap_app. }
  rewrite Hsplit, Hq.
  change (notify_calls (Log ERROR ?m :: CallNotify ?a ?b ?c ?d ?k :: evs))
    with (CallNotify a b c d k :: notify_calls evs).
  by rewrite Hnc.
Qed.

Lemma exit_commit_failure_after_write_witness :
  ∃ stmts,
    Forall2 (λ x p, Harvest.bind_params x = Ok p) [h100] stmts.*2 ∧
    committed (Harvest.sync_data second_commit_refusing (λ _ _, Ok [h100]) no_email
                 None None stocked_world).2 = merge_all stmts [h099_row] ∧
    notify_calls (trace (Harvest.sync_data second_commit_refusing (λ _ _, Ok [h100]) no_email
                           None None stocked_world).2) =
      [CallNotify false {| dyear := 2024; dmonth := 6; dday := 1 |}
         {| dyear := 2024; dmonth := 6; dday := 1 |}
         (Some "communication link failure") 1].
Proof.
  edestruct (exit_commit_failure_after_write second_commit_refusing (λ _ _, Ok [h100])
               no_email None None stocked_world [h100])
    as (stmts & HF & Hc & Hn).
  - reflexivity.
  - reflexivity.
  - vm_compute. reflexivity.
  - vm_compute. reflexivity.
  - exists stmts. split; [exact HF|]. split; [exact Hc|exact Hn].
Defined.

(** ** [send_email_notification] *)

(** X13: with the three settings present and not empty,
    [send_email_notification] makes one delivery attempt, for a message from
    the configured sender to the configured recipient whose content is the
    record count on success and the error text on failure.  It returns
    normally whether the delivery worked or not, and its last record says
    which: INFO when the mail server took the message, ERROR with the text
    of the exception when the delivery raised.  No table is touched. *)
Theorem configured_email_one_delivery :
  ∀ (E : env Harvest.params Harvest.row) cfg (success : bool) start_date end_date msg n w
    sender password recipient,
    Harvest.EMAIL_SENDER cfg = Some sender → sender ≠ EmptyString →
    Harvest.EMAIL_PASSWORD cfg = Some password → password ≠ EmptyString →
    Harvest.EMAIL_RECIPIENT cfg = Some recipient → recipient ≠ EmptyString →
    let m := {| m_from := sender; m_to := recipient;
                m_start := start_date; m_end := end_date;
                m_body := if success then SyncSucceeded n else SyncFailed msg |} in
    Harvest.send_email_notification E cfg success start_date end_date msg n w =
      (Ok (), with_events w
                [CallNotify success start_date end_date msg n;
                 Smtp m;
                 match smtp_error E (with_events w
                                       [CallNotify success start_date end_date msg n]) m with
                 | Some err =>
                     Log ERROR ("Failed to send email notification: " +:+ str_exn err)
                 | None => Log INFO "Email notification sent successfully"
                 end]).
Proof.
  intros E cfg success start_date end_date msg n w sender password recipient
    Hs Hs' Hp Hp' Hr Hr' m.
  rewrite send_email_notification_cases, Hs, Hp, Hr.
  destruct sender; [done|]. destruct password; [done|]. destruct recipient; [done|].
  cbv zeta. cbn [forallb Harvest.truthy andb default from_option id].
  fold m. by destruct (smtp_error E _ m).
Qed.

Lemma configured_email_one_delivery_witness :
  Harvest.send_email_notification mail_down full_email false june_2 june_2
    (Some "'harvest_date'") 1 stocked_world =
    (Ok (), with_events stocked_world
              [CallNotify false june_2 june_2 (Some "'harvest_date'") 1;
               Smtp {| m_from := "sync@example.org"; m_to := "ops@example.org";
                       m_start := june_2; m_end := june_2;
                       m_body := SyncFailed (Some "'harvest_date'") |};
               Log ERROR "Failed to send email notification: authentication failed"]).
Proof.
  apply (configured_email_one_delivery mail_down full_email false june_2 june_2
           (Some "'harvest_date'") 1%nat stocked_world
           "sync@example.org" "app-password" "ops@example.org");
    first [reflexivity|discriminate].
Defined.

(** X14: a setting that is present but empty counts as missing: no
    delivery is attempted, and the call only logs the warning. *)
Theorem empty_setting_skips_delivery :
  ∀ (E : env Harvest.params Harvest.row) cfg success start_date end_date msg n w,
    Harvest.EMAIL_SENDER cfg = Some EmptyString ∨
    Harvest.EMAIL_PASSWORD cfg = Some EmptyString ∨
    Harvest.EMAIL_RECIPIENT cfg = Some EmptyString →
    Harvest.send_email_notification E cfg success start_date end_date msg n w =
      (Ok (), with_events w
                [CallNotify success start_date end_date msg n;
                 Log WARNING "Email configuration missing. Skipping email notification."]).
Proof.
  intros E cfg success start_date end_date msg n w H.
  rewrite send_email_notification_cases.
  assert (forallb Harvest.truthy [Harvest.EMAIL_SENDER cfg; Harvest.EMAIL_PASSWORD cfg;
                                  Harvest.EMAIL_RECIPIENT cfg] = false) as ->; [|done].
  cbn [forallb]. destruct H as [H|[H|H]]; rewrite H; simpl;
    rewrite ?andb_false_r; reflexivity.
Qed.

Lemma empty_setting_skips_delivery_witness :
  smtp_sessions (trace (Harvest.send_email_notification (obliging ticking) blank_password true
                          june_2 june_2 None 3 empty_world).2) = [].
Proof.
  rewrite (empty_setting_skips_delivery (obliging ticking) blank_password true june_2 june_2
             None 3%nat empty_world); [reflexivity|].
  right. left. reflexivity.
Defined.

(** ** [main] *)

(** X15: when the start date on the command line is not a date in
    ['%Y-%m-%d'], or the start date is and the end date is not, [main] of
    either script logs the invalid format with the text of the error and
    does nothing else: [sync_data] is not called, so nothing is fetched,
    written or notified. *)
Theorem main_invalid_date :
  (∀ (E : env Harvest.params Harvest.row) get cfg start_arg end_arg w e,
     parse_date_arg start_arg = Raise e ∨
     (is_ok (parse_date_arg start_arg) = true ∧ parse_date_arg end_arg = Raise e) →
     Harvest.main E get cfg start_arg end_arg w =
       (Ok (), with_events w
                 [Log ERROR ("Invalid date format. Please use YYYY-MM-DD. Error: "
                             +:+ str_exn e)])) ∧
  (∀ (E : env Tvn.params Tvn.row) S start_arg end_arg w e,
     parse_date_arg start_arg = Raise e ∨
     (is_ok (parse_date_arg start_arg) = true ∧ parse_date_arg end_arg = Raise e) →
     Tvn.main E S start_arg end_arg w =
       (Ok (), with_events w
                 [Log ERROR ("Invalid date format. Please use YYYY-MM-DD. Error: "
                             +:+ str_exn e)])).
Proof.
  assert (Hval : ∀ arg e, parse_date_arg arg = Raise e → ∃ m, e = ValueError m).
  { intros [[|c s]|] e; simpl; try done.
    destruct (strptime (String c s) "%Y-%m-%d") eqn:Hp; simpl; [done|].
    intros [= <-]. by apply strptime_raises_value_error in Hp. }
  split.
  - intros E get cfg start_arg end_arg w e [H|[Hs H]];
      destruct (Hval _ _ H) as [m ->];
      unfold Harvest.main, try_except; unfold mbind at 1, M_bind; unfold lift.
    + by rewrite H.
    + destruct (parse_date_arg start_arg); [|done].
      unfold mbind at 1, M_bind. by rewrite H.
  - intros E S start_arg end_arg w e [H|[Hs H]];
      destruct (Hval _ _ H) as [m ->];
      unfold Tvn.main, try_except; unfold mbind at 1, M_bind; unfold lift.
    + by rewrite H.
    + destruct (parse_date_arg start_arg); [|done].
      unfold mbind at 1, M_bind. by rewrite H.
Qed.

Lemma main_invalid_date_witness :
  Harvest.main (obliging ticking) (λ _ _, Ok [h100]) full_email
    (Some "2024-06-01") (Some "01/06/2024") stocked_world =
    (Ok (), with_events stocked_world
              [Log ERROR ("Invalid date format. Please use YYYY-MM-DD. Error: "
                          +:+ "time data '01/06/2024' does not match format '%Y-%m-%d'")]).
Proof.
  apply (proj1 main_invalid_date (obliging ticking) (λ _ _, Ok [h100]) full_email
           (Some "2024-06-01") (Some "01/06/2024") stocked_world
           (ValueError "time data '01/06/2024' does not match format '%Y-%m-%d'")).
  right. split; vm_compute; reflexivity.
Defined.

(** X16: a date between year 1 and year 9999 written in ISO form on the
    command line comes through [main] as that date: the run is
    [sync_data] for that window. *)
Theorem main_valid_dates :
  (∀ (E : env Harvest.params Harvest.row) get cfg s e w,
     valid_date s = true → valid_date e = true →
     Harvest.main E get cfg (Some (str_date s)) (Some (str_date e)) w =
       Harvest.sync_data E get cfg (Some s) (Some e) w) ∧
  (∀ (E : env Tvn.params Tvn.row) S s e w,
     valid_date s = true → valid_date e = true →
     Tvn.main E S (Some (str_date s)) (Some (str_date e)) w =
       Tvn.sync_data E S (Some s) (Some e) w).
Proof.
  split.
  - intros E get cfg s e w Hs He.
    unfold Harvest.main, try_except. unfold mbind at 1, M_bind. unfold lift.
    rewrite (parse_date_arg_str_date s Hs). unfold mbind at 1, M_bind.
    rewrite (parse_date_arg_str_date e He).
    pose proof (harvest_sync_data_returns E get cfg (Some s) (Some e) w) as Hr.
    destruct (Harvest.sync_data E get cfg (Some s) (Some e) w) as [[[]|err] w']; done.
  - intros E S s e w Hs He.
    unfold Tvn.main, try_except. unfold mbind at 1, M_bind. unfold lift.
    rewrite (parse_date_arg_str_date s Hs). unfold mbind at 1, M_bind.
    rewrite (parse_date_arg_str_date e He).
    pose proof (tvn_sync_data_returns E S (Some s) (Some e) w) as Hr.
    destruct (Tvn.sync_data E S (Some s) (Some e) w) as [[[]|err] w']; done.
Qed.

Lemma main_valid_dates_witness :
  Tvn.main (obliging ticking) (supabase_returning totals_rows)
    (Some "2024-06-01") (Some "2024-06-02") june_world =
  Tvn.sync_data (obliging ticking) (supabase_returning totals_rows)
    (Some {| dyear := 2024; dmonth := 6; dday := 1 |}) (Some june_2) june_world.
Proof.
  apply (proj2 main_valid_dates (obliging ticking) (supabase_returning totals_rows)
           {| dyear := 2024; dmonth := 6; dday := 1 |} june_2 june_world);
    reflexivity.
Defined.

(** X17: a date option that is absent or empty on the command line is no
    date: with both options so, [main] runs [sync_data] without a window,
    which then takes today for both ends. *)
Theorem main_default_window :
  (∀ (E : env Harvest.params Harvest.row) get cfg start_arg end_arg w,
     start_arg = None ∨ start_arg = Some EmptyString →
     end_arg = None ∨ end_arg = Some EmptyString →
     Harvest.main E get cfg start_arg end_arg w =
       Harvest.sync_data E get cfg (Some (today E)) (Some (today E)) w) ∧
  (∀ (E : env Tvn.params Tvn.row) S start_arg end_arg w,
     start_arg = None ∨ start_arg = Some EmptyString →
     end_arg = None ∨ end_arg = Some EmptyString →
     Tvn.main E S start_arg end_arg w =
       Tvn.sync_data E S (Some (today E)) (Some (today E)) w).
Proof.
  split.
  - intros E get cfg start_arg end_arg w Hs He.
    unfold Harvest.main. rewrite try_except_returns.
    + destruct Hs as [->| ->], He as [->| ->]; reflexivity.
    + destruct Hs as [->| ->], He as [->| ->];
        exact (f_equal is_ok (harvest_sync_data_returns E get cfg None None w)).
  - intros E S start_arg end_arg w Hs He.
    unfold Tvn.main. rewrite try_except_returns.
    + destruct Hs as [->| ->], He as [->| ->]; reflexivity.
    + destruct Hs as [->| ->], He as [->| ->];
        exact (f_equal is_ok (tvn_sync_data_returns E S None None w)).
Qed.

Lemma main_default_window_witness :
  Harvest.main (obliging ticking) (λ _ _, Ok [h100]) no_email None (Some EmptyString)
    empty_world =
  Harvest.sync_data (obliging ticking) (λ _ _, Ok [h100]) no_email
    (Some {| dyear := 2024; dmonth := 6; dday := 1 |})
    (Some {| dyear := 2024; dmonth := 6; dday := 1 |}) empty_world.
Proof.
  apply (proj1 main_default_window (obliging ticking) (λ _ _, Ok [h100]) no_email
           None (Some EmptyString) empty_world).
  - by left.
  - by right.
Defined.

(** X18: [main] of either script, once [parser.parse_args()] has returned
    the two options and on a console that takes every line, returns
    normally, and every exception has ended in a log record: a date that
    does not parse leaves the single record of the invalid format, and
    otherwise the run is the run of [sync_data], which has logged its own
    failures; the handler for other exceptions is never entered.  (A
    command line that argparse refuses ends the process before the [try]
    and is no input of this function.) *)
Theorem main_returns_normally :
  (∀ (E : env Harvest.params Harvest.row) (out : Harvest.console) get cfg
     start_arg end_arg w,
     (∀ v line, out v line = None) →
     Harvest.main_out E out get cfg start_arg end_arg w =
       match parse_date_arg start_arg, parse_date_arg end_arg with
       | Ok start_date, Ok end_date =>
           (Ok (), (Harvest.sync_data_out E out get cfg start_date end_date w).2)
       | Raise e, _ | Ok _, Raise e =>
           (Ok (), with_events w
                     [Log ERROR ("Invalid date format. Please use YYYY-MM-DD. Error: "
                                 +:+ str_exn e)])
       end) ∧
  (∀ (E : env Tvn.params Tvn.row) (out : Tvn.console) S start_arg end_arg w,
     (∀ v line, out v line = None) →
     Tvn.main_out E out S start_arg end_arg w =
       match parse_date_arg start_arg, parse_date_arg end_arg with
       | Ok start_date, Ok end_date =>
           (Ok (), (Tvn.sync_data_out E out S start_date end_date w).2)
       | Raise e, _ | Ok _, Raise e =>
           (Ok (), with_events w
                     [Log ERROR ("Invalid date format. Please use YYYY-MM-DD. Error: "
                                 +:+ str_exn e)])
       end).
Proof.
  assert (Hval : ∀ arg e, parse_date_arg arg = Raise e → ∃ m, e = ValueError m).
  { intros [[|c s]|] e; simpl; try done.
    destruct (strptime (String c s) "%Y-%m-%d") eqn:Hp; simpl; [done|].
    intros [= <-]. by apply strptime_raises_value_error in Hp. }
  split.
  - intros E out get cfg start_arg end_arg w Hout.
    rewrite (main_out_accepted E out Hout).
    unfold Harvest.main, try_except. unfold mbind at 1, M_bind at 1. unfold lift.
    destruct (parse_date_arg start_arg) as [sd|e] eqn:Hs.
    + unfold mbind at 1, M_bind at 1.
      destruct (parse_date_arg end_arg) as [ed|e] eqn:He.
      * rewrite (sync_data_out_accepted E out Hout).
        pose proof (harvest_sync_data_returns E get cfg sd ed w) as Hr.
        destruct (Harvest.sync_data E get cfg sd ed w) as [[[]|err] w']; done.
      * by destruct (Hval _ _ He) as [m ->].
    + by destruct (Hval _ _ Hs) as [m ->].
  - intros E out S start_arg end_arg w Hout.
    rewrite (tvn_main_out_accepted E out Hout).
    unfold Tvn.main, try_except. unfold mbind at 1, M_bind at 1. unfold lift.
    destruct (parse_date_arg start_arg) as [sd|e] eqn:Hs.
    + unfold mbind at 1, M_bind at 1.
      destruct (parse_date_arg end_arg) as [ed|e] eqn:He.
      * rewrite (tvn_sync_data_out_accepted E out Hout).
        pose proof (tvn_sync_data_returns E S sd ed w) as Hr.
        destruct (Tvn.sync_data E S sd ed w) as [[[]|err] w']; done.
      * by destruct (Hval _ _ He) as [m ->].
    + by destruct (Hval _ _ Hs) as [m ->].
Qed.

Lemma main_returns_normally_witness :
  Harvest.main_out unreachable plain_console (λ _ _, Ok [h100]) no_email
    (Some "2024-06-01") None stocked_world =
    (Ok (), (Harvest.sync_data_out unreachable plain_console (λ _ _, Ok [h100]) no_email
               (Some {| dyear := 2024; dmonth := 6; dday := 1 |}) None stocked_world).2).
Proof.
  apply (proj1 main_returns_normally unreachable plain_console (λ _ _, Ok [h100]) no_email
           (Some "2024-06-01") None stocked_world).
  reflexivity.
Defined.

(** ** Normalising a harvest record *)

(** X19: the normalised [harvest_date] is a fixed point of the
    normalisation ([strftime] printing the year on four digits): a record
    that binds still binds, to the same parameters, when its
    [harvest_date] is replaced by the text that was bound for it. *)
Theorem harvest_date_normalised_once :
  ∀ record p,
    Harvest.bind_params record = Ok p →
    Harvest.bind_params (<["harvest_date" := VStr (Harvest.p_harvest_date p)]> record) = Ok p.
Proof.
  intros record p Hb. apply bind_params_ok in Hb as
    (s1 & d1 & s2 & d2 & s3 & d3 & H1 & P1 & H2 & P2 & H3 & P3 &
     Hid & Hfarm & Hplot & Hprod & Hwork & Hunit & Hdur & Hcont & Hkgs & E1 & E2 & E3).
  apply bind_params_ok.
  exists (strftime d1 "%Y-%m-%d %H:%M:%S"), d1, s2, d2, s3, d3.
  rewrite lookup_insert_eq, !lookup_insert_ne by done.
  rewrite E1. split; [done|]. split; [|done].
  apply strptime_strftime. by eapply strptime_valid.
Qed.

Lemma harvest_date_normalised_once_witness :
  Harvest.bind_params (<["harvest_date" := VStr "2024-06-01 07:30:00"]> h100) = Ok h100_params.
Proof.
  apply (harvest_date_normalised_once h100 h100_params). vm_compute. reflexivity.
Defined.

(** X20: the normalised times are not fixed points: [insert_data] binds a
    time with its seconds, and a time with seconds is refused by
    ['%H:%M'].  A record whose [start_time] is replaced by the bound text
    does not bind any more. *)
Theorem normalised_time_is_refused :
  ∀ record p,
    Harvest.bind_params record = Ok p →
    Harvest.bind_params (<["start_time" := VStr (Harvest.p_start_time p)]> record) =
      Raise (ValueError "unconverted data remains: :00").
Proof.
  intros record p Hb. apply bind_params_ok in Hb as
    (s1 & d1 & s2 & d2 & s3 & d3 & H1 & P1 & H2 & P2 & H3 & P3 &
     Hid & Hfarm & Hplot & Hprod & Hwork & Hunit & Hdur & Hcont & Hkgs & E1 & E2 & E3).
  unfold Harvest.bind_params, Harvest.getitem.
  rewrite (lookup_insert_ne _ "start_time" "harvest_date") by done. rewrite H1.
  cbn [mbind result_bind Harvest.strptime_value].
  rewrite P1. cbn [mbind result_bind]. rewrite lookup_insert_eq.
  cbn [mbind result_bind Harvest.strptime_value].
  rewrite E2, strptime_time_with_seconds by (by eapply strptime_valid).
  apply strptime_HM in P2 as [_ ->]. reflexivity.
Qed.

Lemma normalised_time_is_refused_witness :
  Harvest.bind_params (<["start_time" := VStr "07:30:00"]> h100) =
    Raise (ValueError "unconverted data remains: :00").
Proof.
  apply (normalised_time_is_refused h100 h100_params). vm_compute. reflexivity.
Defined.

(** X21: the two times bound for a record are eight characters long and
    end in zero seconds, whatever the record gave: ['%H:%M'] reads no
    seconds. *)
Theorem bound_times_have_no_seconds :
  ∀ record p,
    Harvest.bind_params record = Ok p →
    ∃ h1 m1 h2 m2,
      0 ≤ h1 ≤ 23 ∧ 0 ≤ m1 ≤ 59 ∧ 0 ≤ h2 ≤ 23 ∧ 0 ≤ m2 ≤ 59 ∧
      Harvest.p_start_time p = pad2 h1 +:+ ":" +:+ pad2 m1 +:+ ":00" ∧
      Harvest.p_end_time p = pad2 h2 +:+ ":" +:+ pad2 m2 +:+ ":00" ∧
      String.length (Harvest.p_start_time p) = 8%nat ∧
      String.length (Harvest.p_end_time p) = 8%nat.
Proof.
  intros record p Hb. apply bind_params_ok in Hb as
    (s1 & d1 & s2 & d2 & s3 & d3 & H1 & P1 & H2 & P2 & H3 & P3 &
     Hid & Hfarm & Hplot & Hprod & Hwork & Hunit & Hdur & Hcont & Hkgs & E1 & E2 & E3).
  pose proof (strptime_valid _ _ _ P2) as V2. pose proof (strptime_valid _ _ _ P3) as V3.
  apply valid_datetime_spec in V2 as (_ & _ & _ & Hh2 & Hm2 & _).
  apply valid_datetime_spec in V3 as (_ & _ & _ & Hh3 & Hm3 & _).
  apply strptime_HM in P2 as [_ S2]. apply strptime_HM in P3 as [_ S3].
  exists (hour d2), (minute d2), (hour d3), (minute d3).
  rewrite E2, E3. destruct d2, d3; simpl in *. subst. done.
Qed.

Lemma bound_times_have_no_seconds_witness :
  ∃ h1 m1 h2 m2,
    Harvest.p_start_time h100_params = pad2 h1 +:+ ":" +:+ pad2 m1 +:+ ":00" ∧
    Harvest.p_end_time h100_params = pad2 h2 +:+ ":" +:+ pad2 m2 +:+ ":00".
Proof.
  edestruct (bound_times_have_no_seconds h100 h100_params)
    as (h1 & m1 & h2 & m2 & _ & _ & _ & _ & Hs & He & _).
  - vm_compute. reflexivity.
  - exists h1, m1, h2, m2. split; [exact Hs|exact He].
Defined.

(** X22: the exceptions of the normalisation.  When a record does not
    bind, either one of the twelve fields is absent and the exception is the
    [KeyError] of that field, or one of the three date and time fields is a
    string that [strptime] refuses in the format of that field and the
    exception is the [ValueError] of [strptime], or one of them is not a
    string and the exception is a [TypeError].  The other nine values are
    never looked into. *)
Theorem bind_params_exceptions :
  ∀ record e,
    Harvest.bind_params record = Raise e →
    (∃ key, key ∈ Harvest.required_fields ∧ record !! key = None ∧ e = KeyError key) ∨
    (∃ key format s,
       (key, format) ∈ [("harvest_date", "%Y-%m-%d %H:%M:%S");
                        ("start_time", "%H:%M"); ("end_time", "%H:%M")] ∧
       record !! key = Some (VStr s) ∧ strptime s format = Raise e ∧
       ∃ m, e = ValueError m) ∨
    (∃ key v m, key ∈ ["harvest_date"; "start_time"; "end_time"] ∧
                record !! key = Some v ∧ (∀ s, v ≠ VStr s) ∧ e = TypeError m).
Proof.
  intros record e. unfold Harvest.bind_params.
  set (goal := (∃ key, key ∈ Harvest.required_fields ∧ record !! key = None ∧
                       e = KeyError key) ∨
               (∃ key format s,
                  (key, format) ∈ [("harvest_date", "%Y-%m-%d %H:%M:%S");
                                   ("start_time", "%H:%M"); ("end_time", "%H:%M")] ∧
                  record !! key = Some (VStr s) ∧ strptime s format = Raise e ∧
                  ∃ m, e = ValueError m) ∨
               (∃ key v m, key ∈ ["harvest_date"; "start_time"; "end_time"] ∧
                           record !! key = Some v ∧ (∀ s, v ≠ VStr s) ∧ e = TypeError m)).
  assert (Hdate : ∀ key format (k : datetime → result Harvest.params),
            (key, format) ∈ [("harvest_date", "%Y-%m-%d %H:%M:%S");
                             ("start_time", "%H:%M"); ("end_time", "%H:%M")] →
            key ∈ ["harvest_date"; "start_time"; "end_time"] →
            key ∈ Harvest.required_fields →
            (∀ d, k d = Raise e → goal) →
            (v ← Harvest.getitem record key; d ← Harvest.strptime_value v format; k d)
              = Raise e → goal).
  { intros key format k Hkf Hk Hreq Hrest. unfold Harvest.getitem.
    destruct (record !! key) as [v|] eqn:Hv; cbn [mbind result_bind].
    - destruct v as [|n|s]; cbn [Harvest.strptime_value mbind result_bind].
      + intros [= <-]. right. right. eexists key, VNone, _. by repeat split.
      + intros [= <-]. right. right. eexists key, (VNum n), _. by repeat split.
      + destruct (strptime s format) as [d|e'] eqn:Hp; cbn [mbind result_bind];
          [apply Hrest|].
        intros [= <-]. right. left. exists key, format, s.
        split; [done|]. split; [done|]. split; [done|].
        by apply strptime_raises_value_error in Hp.
    - intros [= <-]. left. by exists key. }
  assert (Hplain : ∀ key (k : value → result Harvest.params),
            key ∈ Harvest.required_fields →
            (∀ v, k v = Raise e →
               ∃ key, key ∈ Harvest.required_fields ∧ record !! key = None ∧ e = KeyError key) →
            (v ← Harvest.getitem record key; k v) = Raise e →
            ∃ key, key ∈ Harvest.required_fields ∧ record !! key = None ∧ e = KeyError key).
  { intros key k Hreq Hrest. unfold Harvest.getitem.
    destruct (record !! key) as [v|] eqn:Hv; cbn [mbind result_bind]; [apply Hrest|].
    intros [= <-]. by exists key. }
  apply Hdate; [repeat constructor..|]. intros d1.
  apply Hdate; [repeat constructor..|]. intros d2.
  apply Hdate; [repeat constructor..|]. intros d3 Hb. left. revert Hb.
  do 9 (apply Hplain; [unfold Harvest.required_fields; repeat constructor|]; intros ?).
  done.
Qed.

Lemma bind_params_exceptions_witness :
  ∃ key, key ∈ Harvest.required_fields ∧ h101_undated !! key = None ∧
         key = "harvest_date".
Proof.
  destruct (bind_params_exceptions h101_undated (KeyError "harvest_date"))
    as [(key & Hin & Hnone & Heq)|[(key & format & s & _ & _ & _ & m & Heq)|
        (key & v & m & _ & _ & _ & Heq)]].
  - vm_compute. reflexivity.
  - exists key. injection Heq as <-. done.
  - discriminate Heq.
  - discriminate Heq.
Defined.

(** ** The daily totals *)

(** X23: when the query returns rows, every one of the three columns
    occurs in at least one row and the dates convert, [get_supabase_data]
    returns a frame with one row per returned row, in the same order,
    without logging anything; its dates are the converted dates, and a
    column of [kilos_harvested] or [kilos_packed] that holds a number in
    every row comes out with these numbers, in order, as
    [kgs_harvest_tvn] or [kgs_packed_cnd].  A column that some rows lack
    is not an error; what pandas puts into its empty cells is not stated
    here. *)
Theorem get_supabase_data_frame :
  ∀ S start_date end_date rows dates (w : world Tvn.params Tvn.row),
    Tvn.execute S (str_date <$> start_date) (str_date <$> end_date) = Ok rows →
    rows ≠ [] →
    (∀ col, col ∈ Tvn.required_columns → ∃ r, r ∈ rows ∧ is_Some (r !! col)) →
    Tvn.to_datetime S (Tvn.cell "date" <$> rows) = Ok dates →
    length dates = length rows →
    ∃ df,
      Tvn.get_supabase_data S start_date end_date w = (Ok df, w) ∧
      length df = length rows ∧
      Tvn.c_date <$> df = dates ∧
      (∀ ns, (λ r : gmap string value, r !! "kilos_harvested") <$> rows
               = (λ n, Some (VNum n)) <$> ns →
             Tvn.c_kgs_harvest_tvn <$> df = VNum <$> ns) ∧
      (∀ ns, (λ r : gmap string value, r !! "kilos_packed") <$> rows
               = (λ n, Some (VNum n)) <$> ns →
             Tvn.c_kgs_packed_cnd <$> df = VNum <$> ns).
Proof.
  intros S start_date end_date rows dates w Hex Hne Hcols Hdates Hlen.
  assert (Hin : ∀ col, col ∈ Tvn.required_columns → Tvn.in_columns col rows = true).
  { intros col Hc. destruct (Hcols col Hc) as (r & Hr & Hsome).
    destruct (Tvn.in_columns col rows) eqn:Hf; [done|].
    rewrite in_columns_false in Hf. rewrite (Hf r Hr) in Hsome. by destruct Hsome. }
  assert (Hcol : ∀ (col : string) (proj : Tvn.df_row → value)
                   (mk : Tvn.date_cell → gmap string value → Tvn.df_row) ns,
            (∀ d r, proj (mk d r) = Tvn.cell col r) →
            (λ r : gmap string value, r !! col) <$> rows = (λ n, Some (VNum n)) <$> ns →
            proj <$> zip_with mk dates rows = VNum <$> ns).
  { intros col proj mk ns Hproj. clear -Hlen Hproj. revert dates ns Hlen.
    induction rows as [|r rows IH]; intros [|d dates] [|n ns] Hlen Hns;
      try done; try discriminate Hlen; try discriminate Hns.
    rewrite !fmap_cons in Hns. injection Hns as Hr Hns.
    cbn [zip_with]. rewrite !fmap_cons, Hproj. unfold Tvn.cell at 1. rewrite Hr.
    simpl. f_equal. apply IH; [by injection Hlen|done]. }
  destruct rows as [|r0 rows']; [done|].
  eexists. split; [|split; [|split; [|split]]].
  - unfold Tvn.get_supabase_data, try_except. unfold mbind at 1, M_bind. unfold lift.
    change ((λ d, date_strftime d "%Y-%m-%d") <$> start_date) with (str_date <$> start_date).
    change ((λ d, date_strftime d "%Y-%m-%d") <$> end_date) with (str_date <$> end_date).
    rewrite Hex.
    unfold Tvn.required_columns. cbn [filter list_filter].
    rewrite !Hin by (unfold Tvn.required_columns; repeat constructor).
    repeat (destruct (decide (true = false)) as [?|_]; [done|]).
    unfold mbind at 1, M_bind. rewrite Hdates. reflexivity.
  - rewrite length_zip_with. lia.
  - clear -Hlen. revert dates Hlen. generalize (r0 :: rows').
    intros rows. induction rows as [|r rows IH]; intros [|d dates] Hlen;
      try done; try discriminate Hlen.
    cbn [zip_with]. rewrite fmap_cons. simpl. f_equal. apply IH. by injection Hlen.
  - intros ns Hns. by apply (Hcol "kilos_harvested" Tvn.c_kgs_harvest_tvn).
  - intros ns Hns. by apply (Hcol "kilos_packed" Tvn.c_kgs_packed_cnd).
Qed.

Lemma get_supabase_data_frame_witness :
  ∃ df, Tvn.get_supabase_data (supabase_returning patchy_rows) None (Some june_2) june_world =
          (Ok df, june_world) ∧ length df = 2%nat ∧
        Tvn.c_kgs_harvest_tvn <$> df = [VNum 150; VNum 75].
Proof.
  edestruct (get_supabase_data_frame (supabase_returning patchy_rows) None (Some june_2)
               patchy_rows) as (df & Hrun & Hlen & _ & Hh & _).
  - reflexivity.
  - discriminate.
  - intros col Hcol. exists (list_to_map [("date", VStr "2024-06-01");
                                           ("kilos_harvested", VNum 150);
                                           ("kilos_packed", VNum 90)]).
    split; [repeat constructor|].
    unfold Tvn.required_columns in Hcol.
    repeat (apply elem_of_cons in Hcol as [->|Hcol]; [vm_compute; eauto|]).
    by apply elem_of_nil in Hcol.
  - reflexivity.
  - reflexivity.
  - exists df. split; [exact Hrun|]. split; [exact Hlen|].
    apply (Hh [150; 75]). reflexivity.
Defined.



(** ** Progress *)

(** X25: where the progress lines fall.  [main.py] counts the records from
    one and prints a line at records 10, 20, 30, ...: the number of lines
    is the number of records divided by ten, rounded down.  [get_tvn.py]
    takes the row labels, which start at zero, and prints a line at rows
    0, 10, 20, ...: the number of lines is rounded up. *)
Theorem progress_every_tenth :
  (∀ data,
     Harvest.progress data =
       (λ j, (10 * j, length data)%nat) <$> seq 1 (length data / 10)) ∧
  (∀ df,
     Tvn.progress df =
       (λ j, (10 * j, length df)%nat) <$> seq 0 ((length df + 9) / 10)).
Proof.
  split; intros data.
  - unfold Harvest.progress, progress_lines.
    by rewrite every_tenth_from_one, <- list_fmap_compose.
  - unfold Tvn.progress, progress_lines.
    by rewrite every_tenth_from_zero, <- list_fmap_compose.
Qed.

(** X26: what the progress lines show.  In [main.py] a batch of fewer than
    ten records prints no progress line, and a line never shows more
    than all records.  In [get_tvn.py] the first line of a frame that is
    not empty shows 0 rows done, and no line ever shows all rows done. *)
Theorem progress_bounds :
  (∀ data, (length data < 10)%nat → Harvest.progress data = []) ∧
  (∀ data index total,
     (index, total) ∈ Harvest.progress data →
     total = length data ∧ (0 < index ≤ total)%nat) ∧
  (∀ df, df ≠ [] → head (Tvn.progress df) = Some (0%nat, length df)) ∧
  (∀ df index total,
     (index, total) ∈ Tvn.progress df → total = length df ∧ (index < total)%nat).
Proof.
  split; [|split; [|split]].
  - intros data Hlt. unfold Harvest.progress, progress_lines.
    rewrite every_tenth_from_one, Nat.div_small by done. reflexivity.
  - intros data index total Hin. unfold Harvest.progress, progress_lines in Hin.
    apply list_elem_of_fmap in Hin as (k & [= -> ->] & Hk).
    apply list_elem_of_filter in Hk as [_ Hk]. apply elem_of_seq in Hk.
    split; [done|lia].
  - intros [|row df] Hne; [done|]. reflexivity.
  - intros df index total Hin. unfold Tvn.progress, progress_lines in Hin.
    apply list_elem_of_fmap in Hin as (k & [= -> ->] & Hk).
    apply list_elem_of_filter in Hk as [_ Hk]. apply elem_of_seq in Hk.
    split; [done|lia].
Qed.

Lemma progress_bounds_witness :
  Harvest.progress [h100; h100_revised] = [] ∧
  head (Tvn.progress [june_1]) = Some (0%nat, 1%nat).
Proof.
  split.
  - apply (proj1 progress_bounds [h100; h100_revised]). simpl. lia.
  - apply (proj1 (proj2 (proj2 progress_bounds)) [june_1]). discriminate.
Defined.
